(** * round_dxf: corner rounding of closed DXF contours

    A shallow embedding of [round_dxf.py] and the properties of its fillet
    calculator, contour rebuilder and sanitizer.

    Numbers.  The script computes on Python floats.  They are modelled by the
    real numbers: [math.sqrt], [math.sin], [math.cos] are the real functions,
    [math.atan2] is the two-argument arctangent with values in (-PI, PI],
    [round(x, 3)] rounds to the nearest multiple of 1/1000 with ties to the
    even multiple, and a float division whose divisor is zero raises
    [ZeroDivisionError].  Signed zeros, overflow and the rounding error of
    the float operations are outside this model.

    Errors.  A Python exception is a [Raise] in the [result] monad.

    Drawing.  The modelspace is the list of its entities, in insertion
    order; [add_arc] and [add_line] append to it. *)

From Stdlib Require Import String Reals Lra Lia ZArith List Bool.
From Stdlib Require Import Zfloor.
Import ListNotations.

Open Scope R_scope.

(** ** Exceptions *)

Inductive exn : Type :=
| IndexError
| ZeroDivisionError.

Inductive result (A : Type) : Type :=
| Ok (a : A)
| Raise (e : exn).

Arguments Ok {A} a.
Arguments Raise {A} e.

Definition bind {A B : Type} (m : result A) (k : A -> result B) : result B :=
  match m with
  | Ok a => k a
  | Raise e => Raise e
  end.

Notation "x <- m ;; k" := (bind m (fun x => k))
  (at level 61, m at next level, right associativity).

(** ** Numeric primitives *)

Definition point : Type := (R * R)%type.
Definition point3 : Type := (R * R * R)%type.

(** Nearest integer, ties to the even one. *)
Definition round_half_even (x : R) : Z :=
  let f := Zfloor x in
  match total_order_T (x - IZR f) (1 / 2) with
  | inleft (left _) => f
  | inleft (right _) => if Z.even f then f else (f + 1)%Z
  | inright _ => (f + 1)%Z
  end.

(** Python's [round(x, ndigits)]. *)
Definition round (x : R) (ndigits : nat) : R :=
  IZR (round_half_even (x * 10 ^ ndigits)) / 10 ^ ndigits.

(** [math.atan2(y, x)], with [atan2(0, 0) = 0]. *)
Definition atan2 (y x : R) : R :=
  match total_order_T 0 x with
  | inleft (left _) => atan (y / x)
  | inleft (right _) =>
      match total_order_T 0 y with
      | inleft (left _) => PI / 2
      | inleft (right _) => 0
      | inright _ => - (PI / 2)
      end
  | inright _ =>
      if Rle_dec 0 y then atan (y / x) + PI else atan (y / x) - PI
  end.

(** [math.degrees]. *)
Definition degrees (a : R) : R := a * 180 / PI.

(** Float division: a zero divisor raises. *)
Definition fdiv (a b : R) : result R :=
  if Req_dec_T b 0 then Raise ZeroDivisionError else Ok (a / b).

Definition distance (p0 p1 : point) : R :=
  sqrt ((fst p1 - fst p0) ^ 2 + (snd p1 - snd p0) ^ 2).

(** ** Entities of the drawing *)

(** [ARC] is an arc as [add_arc] stores it, from a centre given by its x
    and y; [LWPOLYLINE] stands for the contours that the query of line 83
    returns, with the (x, y) of the tuples of [get_points]; [OTHER] is any
    other entity of the file, whatever its type (a circle, a text, an arc
    read with a centre off the plane z = 0), with the three attributes
    [checks] looks at and with its centre, which [checks] does not look
    at. *)
Inductive entity : Type :=
| ARC (center : point) (radius start_angle end_angle : R)
| LINE (start end_ : point3)
| LWPOLYLINE (elevation : R) (points : list point)
| POINT (location : point3)
| OTHER (name : string) (elevation : option R) (start end_ : option point3)
        (center : option point3).

Definition modelspace : Type := list entity.

Definition add_arc (ms : modelspace) (center : point)
    (radius start_angle end_angle : R) : modelspace :=
  ms ++ [ARC center radius start_angle end_angle].

(** [add_line] receives 2D points; the drawing stores them with z = 0. *)
Definition add_line (ms : modelspace) (s e : point) : modelspace :=
  ms ++ [LINE (fst s, snd s, 0) (fst e, snd e, 0)].

(** ** Fillet calculator *)

(** The normalised angular difference of lines 25-29. *)
Definition a_diff (angle1 angle2 : R) : R :=
  let d := angle2 - angle1 in
  if Rlt_dec d (- PI) then d + 2 * PI
  else if Rlt_dec PI d then d - 2 * PI
  else d.

Definition add_fillet (ms : modelspace) (p0 p1 p2 : point) (radius : R)
  : result (modelspace * (point * point)) :=
  let v1 := (fst p0 - fst p1, snd p0 - snd p1) in
  let v2 := (fst p2 - fst p1, snd p2 - snd p1) in
  let angle1 := atan2 (snd v1) (fst v1) in
  let angle2 := atan2 (snd v2) (fst v2) in
  let pos := Rlt_dec 0 (a_diff angle1 angle2) in
  let start_a := if pos then angle1 - PI / 2 else angle1 + PI / 2 in
  let end_a := if pos then angle2 + PI / 2 else angle2 - PI / 2 in
  let start_angle := if pos then degrees end_a else degrees start_a in
  let end_angle := if pos then degrees start_a else degrees end_a in
  let bisect_angle := (angle1 + angle2) / 2 in
  dist <- fdiv radius (sin (Rabs (angle2 - angle1) / 2)) ;;
  let fillet_center := (fst p1 + dist * cos bisect_angle,
                        snd p1 + dist * sin bisect_angle) in
  let fillet_center2 := (fst p1 - dist * cos bisect_angle,
                         snd p1 - dist * sin bisect_angle) in
  let mid_point := ((fst p0 + fst p2) / 2, (snd p0 + snd p2) / 2) in
  let fillet_center :=
    if Rlt_dec (distance mid_point fillet_center2)
               (distance mid_point fillet_center)
    then fillet_center2 else fillet_center in
  let fillet_center := (round (fst fillet_center) 3,
                        round (snd fillet_center) 3) in
  Ok (add_arc ms fillet_center radius start_angle end_angle,
      ((round (fst fillet_center + radius * cos start_a) 3,
        round (snd fillet_center + radius * sin start_a) 3),
       (round (fst fillet_center + radius * cos end_a) 3,
        round (snd fillet_center + radius * sin end_a) 3))).

(** ** Sanitizer *)

Definition dxftype (e : entity) : string :=
  match e with
  | ARC _ _ _ _ => "ARC"
  | LINE _ _ => "LINE"
  | LWPOLYLINE _ _ => "LWPOLYLINE"
  | POINT _ => "POINT"
  | OTHER name _ _ _ _ => name
  end.

(** The three DXF attributes that [checks] reads; [None] is an entity for
    which [hasattr] answers false. *)
Definition dxf_elevation (e : entity) : option R :=
  match e with
  | LWPOLYLINE z _ => Some z
  | OTHER _ z _ _ _ => z
  | _ => None
  end.

Definition dxf_start (e : entity) : option point3 :=
  match e with
  | LINE s _ => Some s
  | OTHER _ _ s _ _ => s
  | _ => None
  end.

Definition dxf_end (e : entity) : option point3 :=
  match e with
  | LINE _ t => Some t
  | OTHER _ _ _ t _ => t
  | _ => None
  end.

(** The centre of an entity, with its z: an attribute that [checks] does
    not look at.  An arc stored by [add_arc] has its centre in the plane
    z = 0. *)
Definition dxf_center (e : entity) : option point3 :=
  match e with
  | ARC c _ _ _ => Some (fst c, snd c, 0)
  | OTHER _ _ _ _ c => c
  | _ => None
  end.

Definition set_elevation (e : entity) (z : R) : entity :=
  match e with
  | LWPOLYLINE _ pts => LWPOLYLINE z pts
  | OTHER n _ s t c => OTHER n (Some z) s t c
  | _ => e
  end.

Definition set_start (e : entity) (p : point3) : entity :=
  match e with
  | LINE _ t => LINE p t
  | OTHER n z _ t c => OTHER n z (Some p) t c
  | _ => e
  end.

Definition set_end (e : entity) (p : point3) : entity :=
  match e with
  | LINE s _ => LINE s p
  | OTHER n z s _ c => OTHER n z s (Some p) c
  | _ => e
  end.

Definition px (p : point3) : R := fst (fst p).
Definition py (p : point3) : R := snd (fst p).
Definition pz (p : point3) : R := snd p.

(** Body of the second loop of [checks] (lines 63-68). *)
Definition flatten (e : entity) : entity :=
  let e := match dxf_elevation e with
           | Some _ => set_elevation e 0
           | None => e
           end in
  let e := match dxf_start e with
           | Some s => set_start e (px s, py s, 0)
           | None => e
           end in
  match dxf_end e with
  | Some t => set_end e (px t, py t, 0)
  | None => e
  end.

Definition is_type (name : string) (e : entity) : bool :=
  String.eqb (dxftype e) name.

(** First loop: the types reported as unexpected. *)
Definition unexpected (ms : modelspace) : list string :=
  map dxftype
      (filter (fun e => negb (is_type "LINE" e || is_type "ARC" e)) ms).

(** Last loop: [types[t] = types.get(t, 0) + 1], keys in insertion order. *)
Fixpoint bump (t : string) (types : list (string * nat))
  : list (string * nat) :=
  match types with
  | [] => [(t, 1%nat)]
  | (k, n) :: rest =>
      if String.eqb k t then (k, S n) :: rest else (k, n) :: bump t rest
  end.

Definition histogram (ms : modelspace) : list (string * nat) :=
  fold_left (fun types e => bump (dxftype e) types) ms [].

Record report : Type := mkReport {
  warnings : list string;
  cleaned : modelspace;
  types : list (string * nat)
}.

Definition checks (ms : modelspace) : report :=
  let w := unexpected ms in
  let ms := map flatten ms in
  let ms := filter (fun e => negb (is_type "POINT" e)) ms in
  mkReport w ms (histogram ms).

(** ** Contour rebuilder *)

(** Python indexing of a list: a negative index counts from the end. *)
Definition index {A : Type} (l : list A) (k : Z) : result A :=
  let n := Z.of_nat (length l) in
  let k := if (k <? 0)%Z then (k + n)%Z else k in
  if (k <? 0)%Z then Raise IndexError
  else match nth_error l (Z.to_nat k) with
       | Some a => Ok a
       | None => Raise IndexError
       end.

Definition Rgtb (a b : R) : bool := if Rgt_dec a b then true else false.
Definition Rneb (a b : R) : bool := if Req_dec_T a b then false else true.

Definition round_point (p : point) : point :=
  (round (fst p) 3, round (snd p) 3).

(** Lines 96-101: the radius used at a vertex, 0 for "no fillet". *)
Definition vertex_radius (radius : R) (skip : bool) (p0 p1 p2 : point) : R :=
  if Rgtb (distance p0 p1) (2 * radius) && Rgtb (distance p1 p2) (2 * radius)
  then radius
  else if negb skip then Rmin (distance p0 p1) (distance p1 p2) / 2
  else 0.

Record loop_state : Type := mkState {
  space : modelspace;
  nb_lines : nat;
  first : point;
  memory : point
}.

(** Lines 91-114: one iteration of the loop over the vertices. *)
Definition body (radius : R) (skip : bool) (points : list point)
    (i : nat) (st : loop_state) : result loop_state :=
  p0 <- index points (Z.of_nat i - 1) ;;
  p1 <- index points (Z.of_nat i) ;;
  p2 <- index points ((Z.of_nat i + 1) mod Z.of_nat (length points)) ;;
  let p0 := round_point p0 in
  let p1 := round_point p1 in
  let p2 := round_point p2 in
  let r := vertex_radius radius skip p0 p1 p2 in
  if Rneb r 0 then
    res <- add_fillet (space st) p0 p1 p2 r ;;
    let ms := fst res in
    let new_p := snd res in
    if negb (i =? 0)%nat then
      if Rneb (distance (memory st) (fst new_p)) 0 then
        Ok (mkState (add_line ms (memory st) (fst new_p))
                    (S (nb_lines st)) (first st) (snd new_p))
      else
        Ok (mkState ms (nb_lines st) (first st) (snd new_p))
    else
      Ok (mkState ms (nb_lines st) (fst new_p) (snd new_p))
  else
    if negb (i =? 0)%nat then
      Ok (mkState (add_line (space st) (memory st) p1)
                  (nb_lines st) (first st) p1)
    else
      Ok (mkState (space st) (nb_lines st) (first st) p1).

(** [for i in range(...)], stopping at the first exception. *)
Fixpoint for_range {S : Type} (f : nat -> S -> result S)
    (range : list nat) (st : S) : result S :=
  match range with
  | [] => Ok st
  | i :: rest => st' <- f i st ;; for_range f rest st'
  end.

(** Lines 84-117 for one contour.  When [points] is empty Python leaves
    [first] unbound; the placeholder below is then never read, since line 89
    raises. *)
Definition rebuild (radius : R) (skip : bool) (points : list point)
    (ms : modelspace) (nb : nat) : result (modelspace * nat) :=
  let first0 := if (0 <? length points)%nat then hd (0, 0) points else (0, 0) in
  memory0 <- index points (-1) ;;
  st <- for_range (body radius skip points) (seq 0 (length points))
                  (mkState ms nb first0 memory0) ;;
  if (0 <? length points)%nat
  then Ok (add_line (space st) (memory st) (first st), S (nb_lines st))
  else Ok (space st, nb_lines st).

Definition point_eq_dec (p q : point) : {p = q} + {p <> q}.
Proof. decide equality; apply Req_dec_T. Defined.

Definition point3_eq_dec (p q : point3) : {p = q} + {p <> q}.
Proof. decide equality; [apply Req_dec_T | apply point_eq_dec]. Defined.

Definition entity_eq_dec (a b : entity) : {a = b} + {a <> b}.
Proof.
  decide equality;
    try apply Req_dec_T; try apply point_eq_dec; try apply point3_eq_dec;
    try apply string_dec;
    try (apply list_eq_dec; apply point_eq_dec);
    decide equality; try apply Req_dec_T; try apply point3_eq_dec.
Defined.

(** [modelspace.delete_entity]: the entity leaves the list. *)
Fixpoint delete_entity (ms : modelspace) (e : entity) : modelspace :=
  match ms with
  | [] => []
  | x :: rest => if entity_eq_dec x e then rest else x :: delete_entity rest e
  end.

Definition is_contour (e : entity) : bool :=
  match e with
  | LWPOLYLINE _ _ => true
  | _ => false
  end.

Definition get_points (e : entity) : list point :=
  match e with
  | LWPOLYLINE _ pts => pts
  | _ => []
  end.

(** Lines 83-118: the loop over the contours found by the query. *)
Fixpoint rebuild_all (radius : R) (skip : bool) (contours : list entity)
    (ms : modelspace) (nb : nat) : result (modelspace * nat) :=
  match contours with
  | [] => Ok (ms, nb)
  | entity :: rest =>
      res <- rebuild radius skip (get_points entity) ms nb ;;
      rebuild_all radius skip rest (delete_entity (fst res) entity) (snd res)
  end.

(** [main] on the modelspace read from the file: the saved drawing, the
    sanitizer's report and the printed number of lines. *)
Definition main (ms : modelspace) (radius : R) (skip : bool)
  : result (report * nat) :=
  let radius := Rabs radius in
  res <- rebuild_all radius skip (filter is_contour ms) ms 0%nat ;;
  Ok (checks (fst res), snd res).

(** ** Vocabulary of the properties *)

(** Vectors of the plane. *)

Definition norm (x y : R) : R := sqrt (x ^ 2 + y ^ 2).

Definition dsq (p q : point) : R :=
  (fst q - fst p) ^ 2 + (snd q - snd p) ^ 2.

Definition dot (u v : point) : R := fst u * fst v + snd u * snd v.

Definition cross (u v : point) : R := fst u * snd v - snd u * fst v.

(** [p + k e]. *)
Definition move (p : point) (k : R) (e : point) : point :=
  (fst p + k * fst e, snd p + k * snd e).

(** Unit vector from [p] towards [q]. *)
Definition unit_vector (p q : point) : point :=
  ((fst q - fst p) / distance p q, (snd q - snd p) / distance p q).

(** Cross product of the two edges leaving [p1]; zero exactly when the
    three points are collinear. *)
Definition turn (p0 p1 p2 : point) : R :=
  (fst p0 - fst p1) * (snd p2 - snd p1) - (snd p0 - snd p1) * (fst p2 - fst p1).

(** Scalar product of the two edges leaving [p1]. *)
Definition edge_dot (p0 p1 p2 : point) : R :=
  (fst p0 - fst p1) * (fst p2 - fst p1) + (snd p0 - snd p1) * (snd p2 - snd p1).

Definition side (p0 p1 p2 : point) : R :=
  if Rlt_dec 0 (turn p0 p1 p2) then 1 else -1.

(** Geometry of a fillet. *)

(** Centre of the circle of radius [r] tangent to both edge lines, on the
    inner side of the corner, before rounding. *)
Definition exact_center (p0 p1 p2 : point) (r : R) : point :=
  let d1 := unit_vector p1 p0 in
  let d2 := unit_vector p1 p2 in
  let k := r / Rabs (cross d1 d2) in
  (fst p1 + k * (fst d1 + fst d2), snd p1 + k * (snd d1 + snd d2)).

(** Length of the edge cut off by a fillet of radius [r] at the corner. *)
Definition tangent_length (p0 p1 p2 : point) (r : R) : R :=
  let d1 := unit_vector p1 p0 in
  let d2 := unit_vector p1 p2 in
  r / Rabs (cross d1 d2) * (1 + dot d1 d2).

(** What [add_fillet] returns on a corner, without trigonometry. *)
Definition fillet_points (p0 p1 p2 : point) (r : R) : point * (point * point) :=
  let d1 := unit_vector p1 p0 in
  let d2 := unit_vector p1 p2 in
  let s := side p0 p1 p2 in
  let c := round_point (exact_center p0 p1 p2 r) in
  (c, (round_point (fst c + r * (s * snd d1), snd c + r * (- s * fst d1)),
       round_point (fst c + r * (- s * snd d2), snd c + r * (s * fst d2)))).

(** The start and end angles of the emitted arc, as lines 21-38 compute
    them. *)
Definition arc_angles (p0 p1 p2 : point) : R * R :=
  let angle1 := atan2 (snd p0 - snd p1) (fst p0 - fst p1) in
  let angle2 := atan2 (snd p2 - snd p1) (fst p2 - fst p1) in
  let pos := Rlt_dec 0 (a_diff angle1 angle2) in
  let start_a := if pos then angle1 - PI / 2 else angle1 + PI / 2 in
  let end_a := if pos then angle2 + PI / 2 else angle2 - PI / 2 in
  (if pos then degrees end_a else degrees start_a,
   if pos then degrees start_a else degrees end_a).

(** The divisor of line 41. *)
Definition divisor (p0 p1 p2 : point) : R :=
  let angle1 := atan2 (snd p0 - snd p1) (fst p0 - fst p1) in
  let angle2 := atan2 (snd p2 - snd p1) (fst p2 - fst p1) in
  sin (Rabs (angle2 - angle1) / 2).

(** Distance from [c] to the line through [a] and [b]. *)
Definition line_distance (c a b : point) : R :=
  Rabs ((fst b - fst a) * (snd c - snd a) - (snd b - snd a) * (fst c - fst a))
  / distance a b.

(** [q] lies on the segment from [a] to [b]. *)
Definition on_segment (a b q : point) : Prop :=
  exists t, 0 <= t <= 1 /\
    q = (fst a + t * (fst b - fst a), snd a + t * (snd b - snd a)).

(** Coordinates within [tol] of each other. *)
Definition near (tol : R) (p q : point) : Prop :=
  Rabs (fst p - fst q) <= tol /\ Rabs (snd p - snd q) <= tol.

Definition near_segment (tol : R) (a b p : point) : Prop :=
  exists q, on_segment a b q /\ near tol p q.

(** Numbers on three decimals. *)

(** A fixed point of rounding to 3 decimals. *)
Definition rounded (x : R) : Prop := round x 3 = x.

Definition rounded_point (p : point) : Prop :=
  rounded (fst p) /\ rounded (snd p).

(** States of the rebuild loop. *)

(** Lines 104-110: the state after [add_fillet] returned [res]. *)
Definition fillet_step (i : nat) (st : loop_state)
    (res : modelspace * (point * point)) : loop_state :=
  let ms := fst res in
  let new_p := snd res in
  if (i =? 0)%nat then mkState ms (nb_lines st) (fst new_p) (snd new_p)
  else if Rneb (distance (memory st) (fst new_p)) 0
       then mkState (add_line ms (memory st) (fst new_p))
                    (S (nb_lines st)) (first st) (snd new_p)
       else mkState ms (nb_lines st) (first st) (snd new_p).

(** The state after a filleted vertex, from the trig-free description of
    the fillet. *)
Definition after_fillet (i : nat) (st : loop_state) (p0 p1 p2 : point) (r : R)
  : loop_state :=
  let c := fst (fillet_points p0 p1 p2 r) in
  let angles := arc_angles p0 p1 p2 in
  fillet_step i st (add_arc (space st) c r (fst angles) (snd angles),
                    snd (fillet_points p0 p1 p2 r)).

(** The state after a vertex that is left sharp. *)
Definition after_pass (i : nat) (st : loop_state) (p1 : point) : loop_state :=
  if (i =? 0)%nat then mkState (space st) (nb_lines st) (first st) p1
  else mkState (add_line (space st) (memory st) p1) (nb_lines st) (first st) p1.

(** The rounded triple of vertex [i] of a contour (lines 91-94). *)
Definition triple (points : list point) (i : nat) : point * point * point :=
  let n := length points in
  let at_ k := round_point (nth k points (0, 0)) in
  (at_ (if (i =? 0)%nat then n - 1 else i - 1)%nat, at_ i,
   at_ ((i + 1) mod n)%nat).

(** Vertex [i] is left sharp, or its fillet has a non-zero divisor. *)
Definition regular (radius : R) (skip : bool) (points : list point) (i : nat)
  : Prop :=
  let '(q0, q1, q2) := triple points i in
  vertex_radius radius skip q0 q1 q2 = 0 \/ divisor q0 q1 q2 <> 0.

(** Entities of a rebuilt contour. *)

(** What the rebuild loop adds to the drawing: arcs, and lines in the
    plane z = 0. *)
Definition emitted (e : entity) : Prop :=
  match e with
  | ARC _ _ _ _ => True
  | LINE s t => pz s = 0 /\ pz t = 0
  | _ => False
  end.

(** The coordinates an entity of the rebuilt contour carries. *)
Definition coords (e : entity) : list R :=
  match e with
  | ARC c _ _ _ => [fst c; snd c]
  | LINE s t => [px s; py s; px t; py t]
  | _ => []
  end.

Definition arc_radius_nonzero (e : entity) : Prop :=
  match e with
  | ARC _ r _ _ => r <> 0
  | _ => True
  end.

(** An arc of non-zero radius or a line in the plane, on rounded
    coordinates. *)
Definition sound (e : entity) : Prop :=
  emitted e /\ arc_radius_nonzero e /\ Forall rounded (coords e).

Definition count_type (name : string) (ms : modelspace) : nat :=
  length (filter (is_type name) ms).

(** Length of a [LINE] in the plane; 0 for any other entity. *)
Definition line_length (e : entity) : R :=
  match e with
  | LINE s t => distance (px s, py s) (px t, py t)
  | _ => 0
  end.


(** The fillet, the loop and the driver, further. *)

(** The point of the circle of an arc at the angle [a], in degrees. *)
Definition arc_point (c : point) (r a : R) : point :=
  (fst c + r * cos (a * PI / 180), snd c + r * sin (a * PI / 180)).

(** The state [st] of a loop run on an empty drawing, seen from a run that
    started on the drawing [ms] with [nb] lines counted. *)
Definition onto (ms : modelspace) (nb : nat) (st : loop_state) : loop_state :=
  mkState (ms ++ space st) (nb + nb_lines st) (first st) (memory st).

(** Vertex [i] is given to [add_fillet] although its two neighbours lie in
    the same direction from it: the contour folds back on itself there. *)
Definition folded (radius : R) (skip : bool) (points : list point) (i : nat)
  : Prop :=
  let '(q0, q1, q2) := triple points i in
  vertex_radius radius skip q0 q1 q2 <> 0 /\
  turn q0 q1 q2 = 0 /\ 0 < edge_dot q0 q1 q2.

(** The open chain of lines through the points of a list, in the plane
    z = 0. *)
Fixpoint chain (pts : list point) : modelspace :=
  match pts with
  | a :: (b :: _) as rest =>
      LINE (fst a, snd a, 0) (fst b, snd b, 0) :: chain rest
  | _ => []
  end.

(** The test of line 102 at vertex [i]: the vertex is given to
    [add_fillet]. *)
Definition filleted (radius : R) (skip : bool) (points : list point)
    (i : nat) : bool :=
  let '(q0, q1, q2) := triple points i in
  Rneb (vertex_radius radius skip q0 q1 q2) 0.

(** The vertices given to [add_fillet] among those of the indices of
    [range], and the ones left sharp. *)
Definition fillets (radius : R) (skip : bool) (points : list point)
    (range : list nat) : nat :=
  length (filter (filleted radius skip points) range).

Definition sharps (radius : R) (skip : bool) (points : list point)
    (range : list nat) : nat :=
  length (filter (fun i => negb (filleted radius skip points i)) range).

(** [types.get(t, 0)] on the histogram. *)
Fixpoint get (t : string) (types : list (string * nat)) : nat :=
  match types with
  | [] => 0%nat
  | (k, n) :: rest => if String.eqb k t then n else get t rest
  end.

(** The entities of a drawing that the query of line 83 does not return. *)
Definition others (ms : modelspace) : modelspace :=
  filter (fun e => negb (is_contour e)) ms.

(** The rebuild of the contour [c] on an empty drawing returns [o]: the
    entities that replace the contour, and the number of lines counted. *)
Definition rebuilt (radius : R) (skip : bool) (c : entity)
    (o : modelspace * nat) : Prop :=
  rebuild radius skip (get_points c) [] 0%nat = Ok o.

(** * Properties *)

(** ** Rounding to three decimals *)

Lemma Rabs_le_both (a b : R) : Rabs a <= b -> - b <= a <= b.
Proof. unfold Rabs. destruct (Rcase_abs a); lra. Qed.

Lemma round_half_even_IZR (k : Z) : round_half_even (IZR k) = k.
Proof.
  unfold round_half_even. rewrite ZfloorZ.
  destruct (total_order_T (IZR k - IZR k) (1 / 2)) as [[H | H] | H];
    try reflexivity; exfalso; lra.
Qed.

Lemma round_half_even_near (x : R) (k : Z) :
  IZR k - 1 / 2 < x < IZR k + 1 / 2 -> round_half_even x = k.
Proof.
  intros [Hlo Hhi]. unfold round_half_even.
  destruct (Zfloor_bound x) as [Hf1 Hf2].
  destruct (total_order_T (x - IZR (Zfloor x)) (1 / 2)) as [[H | H] | H].
  - apply Z.le_antisymm.
    + apply Z.lt_succ_r. apply lt_IZR. rewrite succ_IZR. lra.
    + apply Z.lt_succ_r. apply lt_IZR. rewrite succ_IZR. lra.
  - exfalso.
    assert (Hk : IZR (2 * k - 1) < IZR (2 * Zfloor x + 1) < IZR (2 * k + 1)).
    { rewrite !plus_IZR, minus_IZR, !mult_IZR. lra. }
    destruct Hk as [Hk1 Hk2]. apply lt_IZR in Hk1, Hk2. lia.
  - apply Z.le_antisymm.
    + apply Z.lt_succ_r. apply lt_IZR. rewrite succ_IZR, plus_IZR. lra.
    + apply Z.lt_succ_r. apply lt_IZR. rewrite succ_IZR, plus_IZR. lra.
Qed.

Lemma round_half_even_error (x : R) :
  Rabs (IZR (round_half_even x) - x) <= 1 / 2.
Proof.
  unfold round_half_even.
  destruct (Zfloor_bound x) as [Hf1 Hf2].
  destruct (total_order_T (x - IZR (Zfloor x)) (1 / 2)) as [[H | H] | H];
    try destruct (Z.even (Zfloor x));
    rewrite ?plus_IZR; apply Rabs_le; lra.
Qed.

Lemma round_half_even_shift (x : R) (k : Z) :
  Z.even k = true ->
  round_half_even (x + IZR k) = (round_half_even x + k)%Z.
Proof.
  intros Hk. unfold round_half_even. rewrite Zfloor_addz.
  replace (x + IZR k - IZR (Zfloor x + k)) with (x - IZR (Zfloor x))
    by (rewrite plus_IZR; lra).
  destruct (total_order_T (x - IZR (Zfloor x)) (1 / 2)) as [[H | H] | H];
    try lia.
  rewrite Z.even_add, Hk. destruct (Z.even (Zfloor x)); simpl; lia.
Qed.

Lemma pow10_3 : 10 ^ 3 = 1000.
Proof. lra. Qed.

(** A multiple of 1/1000 is its own rounding. *)
Lemma round_decimal (k : Z) : round (IZR k / 1000) 3 = IZR k / 1000.
Proof.
  unfold round. rewrite pow10_3.
  replace (IZR k / 1000 * 1000) with (IZR k) by lra.
  now rewrite round_half_even_IZR.
Qed.

Lemma round_is_decimal (x : R) : exists k : Z, round x 3 = IZR k / 1000.
Proof.
  exists (round_half_even (x * 1000)). unfold round. now rewrite pow10_3.
Qed.

Lemma round_idempotent (x : R) : round (round x 3) 3 = round x 3.
Proof.
  destruct (round_is_decimal x) as [k ->]. apply round_decimal.
Qed.

Lemma round_error (x : R) : Rabs (round x 3 - x) <= 1 / 2000.
Proof.
  unfold round. rewrite pow10_3.
  pose proof (round_half_even_error (x * 1000)) as H.
  apply Rabs_le. apply Rabs_le_both in H. lra.
Qed.

(** Shifting by a multiple of 2/1000 commutes with rounding. *)
Lemma round_shift (x : R) (k : Z) :
  Z.even k = true -> round (x + IZR k / 1000) 3 = round x 3 + IZR k / 1000.
Proof.
  intros Hk. unfold round. rewrite pow10_3.
  replace ((x + IZR k / 1000) * 1000) with (x * 1000 + IZR k) by lra.
  rewrite round_half_even_shift by assumption. rewrite plus_IZR. lra.
Qed.

Lemma round_small : round (4 / 10000) 3 = 0.
Proof.
  unfold round. rewrite pow10_3.
  rewrite (round_half_even_near _ 0) by lra. lra.
Qed.

Lemma rounded_decimal (x : R) : rounded x <-> exists k : Z, x = IZR k / 1000.
Proof.
  unfold rounded. split.
  - intros H. destruct (round_is_decimal x) as [k Hk]. exists k. congruence.
  - intros [k ->]. apply round_decimal.
Qed.

Lemma rounded_round (x : R) : rounded (round x 3).
Proof. apply round_idempotent. Qed.

Lemma rounded_IZR (k : Z) : rounded (IZR k).
Proof.
  apply rounded_decimal. exists (k * 1000)%Z. rewrite mult_IZR. lra.
Qed.

Lemma rounded_plus (x y : R) : rounded x -> rounded y -> rounded (x + y).
Proof.
  intros [j ->]%rounded_decimal [k ->]%rounded_decimal.
  apply rounded_decimal. exists (j + k)%Z. rewrite plus_IZR. lra.
Qed.

Lemma rounded_opp (x : R) : rounded x -> rounded (- x).
Proof.
  intros [j ->]%rounded_decimal.
  apply rounded_decimal. exists (- j)%Z. rewrite opp_IZR. lra.
Qed.

Lemma rounded_minus (x y : R) : rounded x -> rounded y -> rounded (x - y).
Proof. intros Hx Hy. apply rounded_plus; [| apply rounded_opp]; assumption. Qed.

Lemma rounded_scale (k : Z) (x : R) : rounded x -> rounded (IZR k * x).
Proof.
  intros [j ->]%rounded_decimal.
  apply rounded_decimal. exists (k * j)%Z. rewrite mult_IZR. lra.
Qed.

Lemma rounded_eq (x y : R) : x = y -> rounded y -> round x 3 = y.
Proof. intros -> H. exact H. Qed.

(** Sums, differences and integer multiples of rounded numbers. *)
Ltac rounded_tac :=
  repeat first
    [ assumption
    | apply rounded_IZR
    | apply rounded_plus
    | apply rounded_minus
    | apply rounded_opp
    | apply rounded_scale ].

Lemma round_point_eq (p q : point) :
  fst p = fst q -> snd p = snd q -> round_point p = round_point q.
Proof. unfold round_point. intros -> ->. reflexivity. Qed.

Lemma round_point_id (p : point) : rounded_point p -> round_point p = p.
Proof.
  destruct p as [x y]. intros [Hx Hy]. unfold round_point; cbn [fst snd] in *.
  now rewrite Hx, Hy.
Qed.

Lemma rounded_round_point (p : point) : rounded_point (round_point p).
Proof. split; apply rounded_round. Qed.

Lemma near_round_point (p : point) : near (1 / 2000) (round_point p) p.
Proof. split; cbn [round_point fst snd]; apply round_error. Qed.

(** Rounding the centre and then the offset point moves each coordinate
    by at most 1/1000. *)
Lemma near_offset (c : point) (o1 o2 : R) :
  near (1 / 1000)
       (round_point (fst (round_point c) + o1, snd (round_point c) + o2))
       (fst c + o1, snd c + o2).
Proof.
  unfold near, round_point; cbn [fst snd].
  pose proof (round_error (fst c)) as E1.
  pose proof (round_error (snd c)) as E2.
  pose proof (round_error (round (fst c) 3 + o1)) as E3.
  pose proof (round_error (round (snd c) 3 + o2)) as E4.
  apply Rabs_le_both in E1, E2, E3, E4.
  split; apply Rabs_le; lra.
Qed.

(** ** The two-argument arctangent *)

Lemma PI_bounds : 3 < PI <= 4.
Proof. pose proof PI2_3_2. pose proof PI_4. lra. Qed.

Lemma atan2_pos_x (y x : R) : 0 < x -> atan2 y x = atan (y / x).
Proof.
  intros Hx. unfold atan2.
  destruct (total_order_T 0 x) as [[H | H] | H]; try reflexivity; exfalso; lra.
Qed.

Lemma atan2_neg_x_up (y x : R) :
  x < 0 -> 0 <= y -> atan2 y x = atan (y / x) + PI.
Proof.
  intros Hx Hy. unfold atan2.
  destruct (total_order_T 0 x) as [[H | H] | H]; try (exfalso; lra).
  destruct (Rle_dec 0 y); [reflexivity | exfalso; lra].
Qed.

Lemma atan2_neg_x_down (y x : R) :
  x < 0 -> y < 0 -> atan2 y x = atan (y / x) - PI.
Proof.
  intros Hx Hy. unfold atan2.
  destruct (total_order_T 0 x) as [[H | H] | H]; try (exfalso; lra).
  destruct (Rle_dec 0 y); [exfalso; lra | reflexivity].
Qed.

Lemma atan2_up (y : R) : 0 < y -> atan2 y 0 = PI / 2.
Proof.
  intros Hy. unfold atan2.
  destruct (total_order_T 0 0) as [[H | H] | H]; try (exfalso; lra).
  destruct (total_order_T 0 y) as [[H' | H'] | H'];
    try reflexivity; exfalso; lra.
Qed.

Lemma atan2_down (y : R) : y < 0 -> atan2 y 0 = - (PI / 2).
Proof.
  intros Hy. unfold atan2.
  destruct (total_order_T 0 0) as [[H | H] | H]; try (exfalso; lra).
  destruct (total_order_T 0 y) as [[H' | H'] | H'];
    try reflexivity; exfalso; lra.
Qed.

Lemma atan2_origin : atan2 0 0 = 0.
Proof.
  unfold atan2.
  destruct (total_order_T 0 0) as [[H | H] | H]; try (exfalso; lra).
  destruct (total_order_T 0 0) as [[H' | H'] | H'];
    try reflexivity; exfalso; lra.
Qed.

Lemma atan2_right (x : R) : 0 < x -> atan2 0 x = 0.
Proof.
  intros Hx. rewrite atan2_pos_x by assumption.
  replace (0 / x) with 0 by (field; lra). apply atan_0.
Qed.

Lemma atan2_left (x : R) : x < 0 -> atan2 0 x = PI.
Proof.
  intros Hx. rewrite atan2_neg_x_up by lra.
  replace (0 / x) with 0 by (field; lra). rewrite atan_0. lra.
Qed.

Lemma atan_nonpos (t : R) : t <= 0 -> atan t <= 0.
Proof.
  intros [Ht | ->].
  - left. rewrite <- atan_0. now apply atan_increasing.
  - rewrite atan_0. lra.
Qed.

Lemma atan_pos (t : R) : 0 < t -> 0 < atan t.
Proof. intros Ht. rewrite <- atan_0. now apply atan_increasing. Qed.

Lemma atan2_bounds (y x : R) : - PI < atan2 y x <= PI.
Proof.
  pose proof PI_bounds as HPI.
  destruct (total_order_T 0 x) as [[Hx | Hx] | Hx].
  - rewrite atan2_pos_x by assumption.
    pose proof (atan_bound (y / x)). lra.
  - subst x. destruct (total_order_T 0 y) as [[Hy | Hy] | Hy].
    + rewrite atan2_up by assumption. lra.
    + subst y. rewrite atan2_origin. lra.
    + rewrite atan2_down by assumption. lra.
  - destruct (Rle_dec 0 y) as [Hy | Hy].
    + rewrite atan2_neg_x_up by assumption.
      pose proof (atan_bound (y / x)).
      assert (atan (y / x) <= 0).
      { apply atan_nonpos. unfold Rdiv.
        replace 0 with (y * 0) by ring.
        apply Rmult_le_compat_l; [assumption |].
        left. now apply Rinv_lt_0_compat. }
      lra.
    + rewrite atan2_neg_x_down by lra.
      pose proof (atan_bound (y / x)).
      assert (0 < atan (y / x)).
      { apply atan_pos. unfold Rdiv.
        replace (y * / x) with ((- y) * (- / x)) by ring.
        apply Rmult_lt_0_compat; [lra |].
        apply Ropp_0_gt_lt_contravar. now apply Rinv_lt_0_compat. }
      lra.
Qed.

Lemma norm_pos (x y : R) : (x, y) <> (0, 0) -> 0 < norm x y.
Proof.
  intros Hne. unfold norm. apply sqrt_lt_R0.
  destruct (Req_dec_T x 0) as [-> | Hx].
  - destruct (Req_dec_T y 0) as [-> | Hy]; [congruence | nra].
  - nra.
Qed.

Lemma norm_factor (x y : R) :
  x <> 0 -> norm x y = Rabs x * sqrt (1 + (y / x)²).
Proof.
  intros Hx. unfold norm.
  replace (x ^ 2 + y ^ 2) with (x² * (1 + (y / x)²))
    by (unfold Rsqr; field; assumption).
  rewrite sqrt_mult.
  - now rewrite sqrt_Rsqr_abs.
  - apply Rle_0_sqr.
  - pose proof (Rle_0_sqr (y / x)). lra.
Qed.

(** Polar form: a non-zero vector is its length times the unit vector of
    its [atan2] angle. *)
Lemma atan2_polar (x y : R) :
  (x, y) <> (0, 0) ->
  x = norm x y * cos (atan2 y x) /\ y = norm x y * sin (atan2 y x).
Proof.
  intros Hne.
  destruct (total_order_T 0 x) as [[Hx | Hx] | Hx].
  - rewrite atan2_pos_x by assumption.
    rewrite norm_factor by lra. rewrite Rabs_right by lra.
    rewrite cos_atan, sin_atan.
    assert (0 < sqrt (1 + (y / x)²)).
    { apply sqrt_lt_R0. pose proof (Rle_0_sqr (y / x)). lra. }
    split; field; lra.
  - subst x. unfold norm.
    replace (0 ^ 2 + y ^ 2) with (y ^ 2) by ring.
    destruct (total_order_T 0 y) as [[Hy | Hy] | Hy].
    + rewrite atan2_up by assumption. rewrite cos_PI2, sin_PI2.
      rewrite sqrt_pow2 by lra. split; ring.
    + subst y. congruence.
    + rewrite atan2_down by assumption.
      rewrite cos_neg, sin_neg, cos_PI2, sin_PI2.
      replace (y ^ 2) with ((- y) ^ 2) by ring.
      rewrite sqrt_pow2 by lra. split; ring.
  - assert (0 < sqrt (1 + (y / x)²)).
    { apply sqrt_lt_R0. pose proof (Rle_0_sqr (y / x)). lra. }
    rewrite norm_factor by lra. rewrite Rabs_left by lra.
    destruct (Rle_dec 0 y) as [Hy | Hy].
    + rewrite atan2_neg_x_up by assumption.
      rewrite neg_cos, neg_sin, cos_atan, sin_atan. split; field; lra.
    + rewrite atan2_neg_x_down by lra.
      replace (atan (y / x) - PI) with (- (- atan (y / x) + PI)) by ring.
      rewrite cos_neg, sin_neg, neg_cos, neg_sin, cos_neg, sin_neg.
      rewrite cos_atan, sin_atan. split; field; lra.
Qed.

(** ** Distances and unit vectors *)

Lemma dsq_nonneg (p q : point) : 0 <= dsq p q.
Proof. unfold dsq. apply Rplus_le_le_0_compat; apply pow2_ge_0. Qed.

Lemma distance_sqrt (p q : point) : distance p q = sqrt (dsq p q).
Proof. reflexivity. Qed.

Lemma distance_nonneg (p q : point) : 0 <= distance p q.
Proof. apply sqrt_pos. Qed.

Lemma distance_lt_iff (m p q : point) :
  distance m p < distance m q <-> dsq m p < dsq m q.
Proof.
  rewrite !distance_sqrt. split; intros H.
  - apply sqrt_lt_0_alt. exact H.
  - apply sqrt_lt_1_alt. split; [apply dsq_nonneg | exact H].
Qed.

Lemma distance_eq (p q : point) (d : R) :
  0 <= d -> dsq p q = d * d -> distance p q = d.
Proof.
  intros Hd Hsq. rewrite distance_sqrt.
  apply sqrt_lem_1; [apply dsq_nonneg | assumption | congruence].
Qed.

Lemma distance_le (p q : point) (d : R) :
  0 <= d -> dsq p q <= d * d -> distance p q <= d.
Proof.
  intros Hd H. rewrite distance_sqrt. rewrite <- (sqrt_square d) by assumption.
  apply sqrt_le_1_alt. exact H.
Qed.

Lemma distance_zero_iff (p q : point) : distance p q = 0 <-> p = q.
Proof.
  split.
  - intros H. rewrite distance_sqrt in H.
    apply sqrt_eq_0 in H; [| apply dsq_nonneg].
    unfold dsq in H. destruct p as [a b], q as [c d]; cbn [fst snd] in H.
    rewrite <- !Rsqr_pow2 in H. apply Rplus_sqr_eq_0 in H.
    f_equal; lra.
  - intros ->. apply distance_eq; [lra |]. unfold dsq. ring.
Qed.

Lemma distance_pos (p q : point) : p <> q -> 0 < distance p q.
Proof.
  intros H. destruct (distance_nonneg p q) as [Hlt | Heq]; [assumption |].
  exfalso. apply H. now apply distance_zero_iff.
Qed.

Lemma unit_vector_unit (p q : point) :
  p <> q -> dot (unit_vector p q) (unit_vector p q) = 1.
Proof.
  intros H. pose proof (distance_pos p q H) as HL.
  unfold dot, unit_vector; cbn [fst snd].
  assert (E : distance p q * distance p q = dsq p q).
  { rewrite distance_sqrt. apply sqrt_sqrt, dsq_nonneg. }
  unfold dsq in E.
  transitivity (((fst q - fst p) ^ 2 + (snd q - snd p) ^ 2)
                / (distance p q * distance p q)); [field; lra |].
  rewrite <- E. field. lra.
Qed.

Lemma unit_vector_scale (p q : point) :
  p <> q ->
  fst q - fst p = distance p q * fst (unit_vector p q) /\
  snd q - snd p = distance p q * snd (unit_vector p q).
Proof.
  intros H. pose proof (distance_pos p q H) as HL.
  unfold unit_vector; cbn [fst snd]. split; field; lra.
Qed.

Lemma unit_coordinate_bound (d : point) :
  dot d d = 1 -> Rabs (fst d) <= 1 /\ Rabs (snd d) <= 1.
Proof.
  unfold dot. intros H.
  pose proof (Rle_0_sqr (fst d)) as Hx. pose proof (Rle_0_sqr (snd d)) as Hy.
  unfold Rsqr in Hx, Hy.
  split; apply Rabs_le; split; nra.
Qed.

Lemma distance_move (p e : point) (a : R) :
  0 <= a -> dot e e = 1 -> distance p (move p a e) = a.
Proof.
  intros Ha He. apply distance_eq; [assumption |].
  unfold dsq, move, dot in *; cbn [fst snd].
  transitivity (a * a * (fst e * fst e + snd e * snd e)); [ring |].
  rewrite He. ring.
Qed.

Lemma unit_vector_move (p e : point) (a : R) :
  0 < a -> dot e e = 1 -> unit_vector p (move p a e) = e.
Proof.
  intros Ha He. unfold unit_vector.
  rewrite distance_move by (assumption || lra).
  destruct e as [ex ey]. unfold move; cbn [fst snd]. f_equal; field; lra.
Qed.

Lemma turn_move (p e1 e2 : point) (a b : R) :
  turn (move p a e1) p (move p b e2) = a * b * cross e1 e2.
Proof. unfold turn, move, cross; cbn [fst snd]. ring. Qed.

Lemma perpendicular_units (e1 e2 : point) :
  dot e1 e1 = 1 -> dot e2 e2 = 1 -> dot e1 e2 = 0 ->
  (cross e1 e2 = 1 /\ fst e2 = - snd e1 /\ snd e2 = fst e1) \/
  (cross e1 e2 = -1 /\ fst e2 = snd e1 /\ snd e2 = - fst e1).
Proof.
  destruct e1 as [a b], e2 as [c d]. unfold dot, cross; cbn [fst snd].
  intros H1 H2 H0.
  assert (Hsq : (a * d - b * c) * (a * d - b * c) = 1).
  { transitivity ((a * a + b * b) * (c * c + d * d)
                  - (a * c + b * d) * (a * c + b * d)); [ring |].
    rewrite H1, H2, H0. ring. }
  assert (Hc : c * (a * a + b * b)
               = - b * (a * d - b * c) + a * (a * c + b * d)) by ring.
  assert (Hd : d * (a * a + b * b)
               = a * (a * d - b * c) + b * (a * c + b * d)) by ring.
  rewrite H1, H0 in Hc, Hd.
  remember (a * d - b * c) as k eqn:Ek.
  assert (Hk : (k - 1) * (k + 1) = 0) by (ring_simplify; lra).
  apply Rmult_integral in Hk. destruct Hk as [Hk | Hk].
  - left. assert (K : k = 1) by lra. rewrite K in Hc, Hd.
    repeat split; lra.
  - right. assert (K : k = -1) by lra. rewrite K in Hc, Hd.
    repeat split; lra.
Qed.

Lemma distance_half_edge (a b c d ux uy : R) :
  c - a = 2 * ux -> d - b = 2 * uy -> ux * ux + uy * uy = 25 ->
  distance (a, b) (c, d) = 10.
Proof.
  intros Hx Hy Hu. apply distance_eq; [lra |]. unfold dsq; cbn [fst snd].
  rewrite Hx, Hy.
  transitivity (4 * (ux * ux + uy * uy)); [ring | rewrite Hu; ring].
Qed.

(** ** Angles between two directions *)

(** The four positions of a difference of two [atan2] angles whose sine
    does not vanish, with the signs of the half-angle sine and cosine. *)
Lemma angle_cases (D : R) :
  - (2 * PI) < D < 2 * PI -> sin D <> 0 ->
  (0 < D < PI /\ 0 < sin (D / 2) /\ 0 < cos (D / 2)) \/
  (PI < D < 2 * PI /\ 0 < sin (D / 2) /\ cos (D / 2) < 0) \/
  (- PI < D < 0 /\ sin (D / 2) < 0 /\ 0 < cos (D / 2)) \/
  (- (2 * PI) < D < - PI /\ sin (D / 2) < 0 /\ cos (D / 2) < 0).
Proof.
  intros [Hlo Hhi] Hs. pose proof PI_bounds as HPI.
  assert (N0 : D <> 0) by (intros ->; apply Hs, sin_0).
  assert (N1 : D <> PI) by (intros ->; apply Hs, sin_PI).
  assert (N2 : D <> - PI)
    by (intros ->; apply Hs; rewrite sin_neg, sin_PI; ring).
  destruct (Rlt_dec 0 D) as [Hp | Hn].
  - destruct (Rlt_dec D PI) as [H1 | H2].
    + left. repeat split; try lra.
      * apply sin_gt_0; lra.
      * apply cos_gt_0; lra.
    + right; left. repeat split; try lra.
      * apply sin_gt_0; lra.
      * apply cos_lt_0; lra.
  - destruct (Rlt_dec (- PI) D) as [H1 | H2].
    + right; right; left. repeat split; try lra.
      * apply sin_lt_0_var; lra.
      * apply cos_gt_0; lra.
    + right; right; right. repeat split; try lra.
      * apply sin_lt_0_var; lra.
      * rewrite <- cos_neg. apply cos_lt_0; lra.
Qed.

Lemma sin_double_half (D : R) : sin D = 2 * sin (D / 2) * cos (D / 2).
Proof.
  replace D with (2 * (D / 2)) at 1 by field. apply sin_2a.
Qed.

Section HalfAngles.

Variables a1 a2 : R.

Let b := (a1 + a2) / 2.
Let h := (a2 - a1) / 2.

Lemma cos_first : cos a1 = cos b * cos h + sin b * sin h.
Proof.
  replace a1 with (b - h) at 1 by (unfold b, h; field). apply cos_minus.
Qed.

Lemma sin_first : sin a1 = sin b * cos h - cos b * sin h.
Proof.
  replace a1 with (b - h) at 1 by (unfold b, h; field). apply sin_minus.
Qed.

Lemma cos_second : cos a2 = cos b * cos h - sin b * sin h.
Proof.
  replace a2 with (b + h) at 1 by (unfold b, h; field). apply cos_plus.
Qed.

Lemma sin_second : sin a2 = sin b * cos h + cos b * sin h.
Proof.
  replace a2 with (b + h) at 1 by (unfold b, h; field). apply sin_plus.
Qed.

End HalfAngles.

Lemma cos_minus_PI2 (a : R) : cos (a - PI / 2) = sin a.
Proof. rewrite cos_minus, cos_PI2, sin_PI2. ring. Qed.

Lemma sin_minus_PI2 (a : R) : sin (a - PI / 2) = - cos a.
Proof. rewrite sin_minus, cos_PI2, sin_PI2. ring. Qed.

Lemma cos_plus_PI2 (a : R) : cos (a + PI / 2) = - sin a.
Proof. rewrite cos_plus, cos_PI2, sin_PI2. ring. Qed.

Lemma sin_plus_PI2 (a : R) : sin (a + PI / 2) = cos a.
Proof. rewrite sin_plus, cos_PI2, sin_PI2. ring. Qed.

Lemma half_sine_zero (a1 a2 : R) :
  - PI < a1 <= PI -> - PI < a2 <= PI ->
  (sin (Rabs (a2 - a1) / 2) = 0 <-> a1 = a2).
Proof.
  intros H1 H2. pose proof PI_bounds as HPI. split.
  - intros Hs. pose proof (Rabs_pos (a2 - a1)) as Hp.
    assert (Hb : Rabs (a2 - a1) < 2 * PI).
    { apply Rabs_def1; lra. }
    destruct Hp as [Hlt | Heq].
    + exfalso. assert (0 < sin (Rabs (a2 - a1) / 2)) by (apply sin_gt_0; lra).
      lra.
    + unfold Rabs in Heq. destruct (Rcase_abs (a2 - a1)); lra.
  - intros ->. replace (a2 - a2) with 0 by ring. rewrite Rabs_R0.
    replace (0 / 2) with 0 by field. apply sin_0.
Qed.

Lemma sin_zero_in_range (D : R) :
  - (2 * PI) < D < 2 * PI -> sin D = 0 -> D = 0 \/ D = PI \/ D = - PI.
Proof.
  intros HD Hs. pose proof PI_bounds as HPI.
  destruct (Req_dec_T D 0) as [| N0]; [now left |].
  destruct (Req_dec_T D PI) as [| N1]; [now right; left |].
  destruct (Req_dec_T D (- PI)) as [| N2]; [now right; right |].
  exfalso.
  destruct (Rlt_dec 0 D).
  - destruct (Rlt_dec D PI).
    + assert (0 < sin D) by (apply sin_gt_0; lra). lra.
    + assert (sin D < 0) by (apply sin_lt_0; lra). lra.
  - destruct (Rlt_dec (- PI) D).
    + assert (sin D < 0) by (apply sin_lt_0_var; lra). lra.
    + assert (H : 0 < sin (D + 2 * PI)) by (apply sin_gt_0; lra).
      rewrite sin_plus, sin_2PI, cos_2PI in H. lra.
Qed.

Lemma polar_cross_dot (x1 y1 x2 y2 : R) :
  (x1, y1) <> (0, 0) -> (x2, y2) <> (0, 0) ->
  let D := atan2 y2 x2 - atan2 y1 x1 in
  x1 * y2 - y1 * x2 = norm x1 y1 * norm x2 y2 * sin D /\
  x1 * x2 + y1 * y2 = norm x1 y1 * norm x2 y2 * cos D.
Proof.
  intros H1 H2 D.
  destruct (atan2_polar _ _ H1) as [Ex1 Ey1].
  destruct (atan2_polar _ _ H2) as [Ex2 Ey2].
  unfold D. rewrite sin_minus, cos_minus.
  set (a1 := atan2 y1 x1) in *. set (a2 := atan2 y2 x2) in *.
  set (L1 := norm x1 y1) in *. set (L2 := norm x2 y2) in *.
  split.
  - rewrite Ex1, Ey1, Ex2, Ey2 at 1. ring.
  - rewrite Ex1, Ey1, Ex2, Ey2 at 1. ring.
Qed.

Lemma angle_difference_cases (x1 y1 x2 y2 : R) :
  (x1, y1) <> (0, 0) -> (x2, y2) <> (0, 0) ->
  x1 * y2 - y1 * x2 = 0 ->
  let D := atan2 y2 x2 - atan2 y1 x1 in
  (0 < x1 * x2 + y1 * y2 /\ D = 0) \/
  (x1 * x2 + y1 * y2 < 0 /\ (D = PI \/ D = - PI)).
Proof.
  intros H1 H2 Hc D.
  destruct (polar_cross_dot x1 y1 x2 y2 H1 H2) as [Ec Ed]. fold D in Ec, Ed.
  pose proof (norm_pos _ _ H1) as P1. pose proof (norm_pos _ _ H2) as P2.
  assert (PL : 0 < norm x1 y1 * norm x2 y2) by now apply Rmult_lt_0_compat.
  pose proof (atan2_bounds y1 x1). pose proof (atan2_bounds y2 x2).
  pose proof PI_bounds.
  assert (Hs : sin D = 0).
  { rewrite Hc in Ec. symmetry in Ec. apply Rmult_integral in Ec.
    destruct Ec; lra. }
  destruct (sin_zero_in_range D) as [E | [E | E]];
    [unfold D; lra | exact Hs | | |].
  - left. split; [| exact E]. rewrite Ed, E, cos_0. lra.
  - right. split; [| now left]. rewrite Ed, E, cos_PI. lra.
  - right. split; [| now right]. rewrite Ed, E, cos_neg, cos_PI. lra.
Qed.

(** ** The fillet calculator in vector terms *)

Lemma fillet_result_eq (ms : modelspace) (r sa ea : R)
    (A B A' B' o1 o2 o3 o4 o1' o2' o3' o4' : R) :
  A = A' -> B = B' -> o1 = o1' -> o2 = o2' -> o3 = o3' -> o4 = o4' ->
  @Ok (modelspace * (point * point))
     (add_arc ms (round A 3, round B 3) r sa ea,
      ((round (round A 3 + o1) 3, round (round B 3 + o2) 3),
       (round (round A 3 + o3) 3, round (round B 3 + o4) 3))) =
  Ok (add_arc ms (round A' 3, round B' 3) r sa ea,
      ((round (round A' 3 + o1') 3, round (round B' 3 + o2') 3),
       (round (round A' 3 + o3') 3, round (round B' 3 + o4') 3))).
Proof. intros; subst; reflexivity. Qed.

Lemma center_choice (x0 y0 x1 y1 x2 y2 d c s : R) :
  dsq ((x0 + x2) / 2, (y0 + y2) / 2) (x1 - d * c, y1 - d * s) -
  dsq ((x0 + x2) / 2, (y0 + y2) / 2) (x1 + d * c, y1 + d * s) =
  2 * d * (((x0 - x1) + (x2 - x1)) * c + ((y0 - y1) + (y2 - y1)) * s).
Proof. unfold dsq; cbn [fst snd]. field. Qed.

(** On a corner that is not flat, and for a positive radius, [add_fillet]
    succeeds and returns the rounded centre and tangent points of
    [fillet_points]. *)
Lemma add_fillet_exact (ms : modelspace) (p0 p1 p2 : point) (r : R) :
  turn p0 p1 p2 <> 0 -> 0 < r ->
  add_fillet ms p0 p1 p2 r =
  Ok (add_arc ms (fst (fillet_points p0 p1 p2 r)) r
              (fst (arc_angles p0 p1 p2)) (snd (arc_angles p0 p1 p2)),
      snd (fillet_points p0 p1 p2 r)).
Proof.
  destruct p0 as [x0 y0], p1 as [x1 y1], p2 as [x2 y2].
  unfold turn; cbn [fst snd]. intros Hturn Hr.
  pose proof (fun d c s => center_choice x0 y0 x1 y1 x2 y2 d c s) as Hchoice.
  set (u1 := x0 - x1) in *. set (w1 := y0 - y1) in *.
  set (u2 := x2 - x1) in *. set (w2 := y2 - y1) in *.
  assert (Hv1 : (u1, w1) <> (0, 0)).
  { intros E. injection E as E1 E2. apply Hturn. rewrite E1, E2. ring. }
  assert (Hv2 : (u2, w2) <> (0, 0)).
  { intros E. injection E as E1 E2. apply Hturn. rewrite E1, E2. ring. }
  pose proof (norm_pos _ _ Hv1) as HL1.
  pose proof (norm_pos _ _ Hv2) as HL2.
  destruct (atan2_polar _ _ Hv1) as [Hx1 Hy1].
  destruct (atan2_polar _ _ Hv2) as [Hx2 Hy2].
  pose proof (atan2_bounds w1 u1) as Hb1.
  pose proof (atan2_bounds w2 u2) as Hb2.
  unfold add_fillet, fillet_points, arc_angles, exact_center, side,
    unit_vector, turn, cross.
  cbn [fst snd].
  change (distance (x1, y1) (x0, y0)) with (norm u1 w1).
  change (distance (x1, y1) (x2, y2)) with (norm u2 w2).
  fold u1 w1 u2 w2.
  set (L1 := norm u1 w1) in *. set (L2 := norm u2 w2) in *.
  set (a1 := atan2 w1 u1) in *. set (a2 := atan2 w2 u2) in *.
  pose proof (cos_first a1 a2) as C1. pose proof (sin_first a1 a2) as S1.
  pose proof (cos_second a1 a2) as C2. pose proof (sin_second a1 a2) as S2.
  pose proof (sin2 ((a1 + a2) / 2)) as Pb.
  pose proof (sin2 ((a2 - a1) / 2)) as Ph.
  unfold Rsqr in Pb, Ph.
  pose proof (sin_double_half (a2 - a1)) as HD.
  pose proof (angle_cases (a2 - a1)) as Hcases.
  set (Cb := cos ((a1 + a2) / 2)) in *. set (Sb := sin ((a1 + a2) / 2)) in *.
  set (Ch := cos ((a2 - a1) / 2)) in *. set (Sh := sin ((a2 - a1) / 2)) in *.
  assert (Hcross : u1 * w2 - w1 * u2 = L1 * L2 * (2 * Sh * Ch)).
  { rewrite Hx1, Hy1, Hx2, Hy2, C1, S1, C2, S2.
    transitivity (L1 * L2 * (2 * Sh * Ch) * (Cb * Cb + Sb * Sb)); [ring |].
    replace (Cb * Cb + Sb * Sb) with 1 by lra. ring. }
  assert (HsD : sin (a2 - a1) <> 0).
  { rewrite HD. intros E. apply Hturn. rewrite Hcross, E. ring. }
  assert (E1 : u1 / L1 = Cb * Ch + Sb * Sh)
    by (rewrite <- C1, Hx1 at 1; field; lra).
  assert (F1 : w1 / L1 = Sb * Ch - Cb * Sh)
    by (rewrite <- S1, Hy1 at 1; field; lra).
  assert (E2 : u2 / L2 = Cb * Ch - Sb * Sh)
    by (rewrite <- C2, Hx2 at 1; field; lra).
  assert (F2 : w2 / L2 = Sb * Ch + Cb * Sh)
    by (rewrite <- S2, Hy2 at 1; field; lra).
  assert (Hmid : (u1 + u2) * Cb + (w1 + w2) * Sb = (L1 + L2) * Ch).
  { rewrite Hx1, Hy1, Hx2, Hy2, C1, S1, C2, S2.
    transitivity ((L1 + L2) * Ch * (Cb * Cb + Sb * Sb)); [ring |].
    replace (Cb * Cb + Sb * Sb) with 1 by lra. ring. }
  assert (Ecr : u1 / L1 * (w2 / L2) - w1 / L1 * (u2 / L2) = 2 * Sh * Ch).
  { rewrite E1, F1, E2, F2.
    transitivity (2 * Sh * Ch * (Cb * Cb + Sb * Sb)); [ring |].
    replace (Cb * Cb + Sb * Sb) with 1 by lra. ring. }
  rewrite Ecr, E1, F1, E2, F2.
  pose proof PI_bounds as HPI.
  assert (Hrange : - (2 * PI) < a2 - a1 < 2 * PI) by lra.
  destruct (Hcases Hrange HsD)
    as [[HDr [HSh HCh]] | [[HDr [HSh HCh]] | [[HDr [HSh HCh]] |
        [HDr [HSh HCh]]]]].
  - (* 0 < D < PI *)
    rewrite (Rabs_right (a2 - a1)) by lra. fold Sh.
    unfold fdiv. destruct (Req_dec_T Sh 0) as [Z | _]; [exfalso; lra |].
    cbn [bind].
    assert (Hd : 0 < r / Sh) by (apply Rdiv_lt_0_compat; lra).
    unfold a_diff.
    destruct (Rlt_dec (a2 - a1) (- PI)) as [Z | _]; [exfalso; lra |].
    destruct (Rlt_dec PI (a2 - a1)) as [Z | _]; [exfalso; lra |].
    destruct (Rlt_dec 0 (a2 - a1)) as [_ | Z]; [| exfalso; lra].
    destruct (Rlt_dec _ _) as [Hc | _].
    { exfalso. apply distance_lt_iff in Hc.
      specialize (Hchoice (r / Sh) Cb Sb). rewrite Hmid in Hchoice.
      assert (0 < 2 * (r / Sh) * ((L1 + L2) * Ch)).
      { apply Rmult_lt_0_compat; [lra | apply Rmult_lt_0_compat; lra]. }
      lra. }
    destruct (Rlt_dec 0 (u1 * w2 - w1 * u2)) as [_ | Z].
    2:{ exfalso. apply Z. rewrite Hcross.
        repeat apply Rmult_lt_0_compat; lra. }
    cbn [fst snd].
    rewrite !cos_minus_PI2, !sin_minus_PI2, !cos_plus_PI2, !sin_plus_PI2.
    rewrite C1, S1, C2, S2.
    rewrite (Rabs_right (2 * Sh * Ch))
      by (apply Rle_ge; left; repeat apply Rmult_lt_0_compat; lra).
    unfold round_point; cbn [fst snd].
    apply fillet_result_eq; field; lra.
  - (* PI < D < 2 PI *)
    rewrite (Rabs_right (a2 - a1)) by lra. fold Sh.
    unfold fdiv. destruct (Req_dec_T Sh 0) as [Z | _]; [exfalso; lra |].
    cbn [bind].
    assert (Hd : 0 < r / Sh) by (apply Rdiv_lt_0_compat; lra).
    unfold a_diff.
    destruct (Rlt_dec (a2 - a1) (- PI)) as [Z | _]; [exfalso; lra |].
    destruct (Rlt_dec PI (a2 - a1)) as [_ | Z]; [| exfalso; lra].
    destruct (Rlt_dec 0 (a2 - a1 - 2 * PI)) as [Z | _]; [exfalso; lra |].
    destruct (Rlt_dec _ _) as [_ | Hc].
    2:{ exfalso. apply Hc. apply distance_lt_iff.
        specialize (Hchoice (r / Sh) Cb Sb). rewrite Hmid in Hchoice.
        assert (0 < 2 * (r / Sh) * ((L1 + L2) * - Ch)).
        { apply Rmult_lt_0_compat; [lra | apply Rmult_lt_0_compat; lra]. }
        lra. }
    assert (Hneg : 0 < L1 * L2 * (2 * Sh * - Ch)).
    { apply Rmult_lt_0_compat; [apply Rmult_lt_0_compat; lra |].
      apply Rmult_lt_0_compat; lra. }
    destruct (Rlt_dec 0 (u1 * w2 - w1 * u2)) as [Z | _].
    { exfalso. rewrite Hcross in Z. lra. }
    cbn [fst snd].
    rewrite !cos_minus_PI2, !sin_minus_PI2, !cos_plus_PI2, !sin_plus_PI2.
    rewrite C1, S1, C2, S2.
    rewrite (Rabs_left (2 * Sh * Ch)).
    2:{ assert (0 < 2 * Sh * - Ch) by (apply Rmult_lt_0_compat; lra). lra. }
    unfold round_point; cbn [fst snd].
    apply fillet_result_eq; field; lra.
  - (* - PI < D < 0 *)
    rewrite (Rabs_left (a2 - a1)) by lra.
    replace (- (a2 - a1) / 2) with (- ((a2 - a1) / 2)) by field.
    rewrite sin_neg. fold Sh.
    unfold fdiv. destruct (Req_dec_T (- Sh) 0) as [Z | _]; [exfalso; lra |].
    cbn [bind].
    assert (Hd : 0 < r / - Sh) by (apply Rdiv_lt_0_compat; lra).
    unfold a_diff.
    destruct (Rlt_dec (a2 - a1) (- PI)) as [Z | _]; [exfalso; lra |].
    destruct (Rlt_dec PI (a2 - a1)) as [Z | _]; [exfalso; lra |].
    destruct (Rlt_dec 0 (a2 - a1)) as [Z | _]; [exfalso; lra |].
    destruct (Rlt_dec _ _) as [Hc | _].
    { exfalso. apply distance_lt_iff in Hc.
      specialize (Hchoice (r / - Sh) Cb Sb). rewrite Hmid in Hchoice.
      assert (0 < 2 * (r / - Sh) * ((L1 + L2) * Ch)).
      { apply Rmult_lt_0_compat; [lra | apply Rmult_lt_0_compat; lra]. }
      lra. }
    assert (Hneg : 0 < L1 * L2 * (2 * - Sh * Ch)).
    { apply Rmult_lt_0_compat; [apply Rmult_lt_0_compat; lra |].
      apply Rmult_lt_0_compat; lra. }
    destruct (Rlt_dec 0 (u1 * w2 - w1 * u2)) as [Z | _].
    { exfalso. rewrite Hcross in Z. lra. }
    cbn [fst snd].
    rewrite !cos_minus_PI2, !sin_minus_PI2, !cos_plus_PI2, !sin_plus_PI2.
    rewrite C1, S1, C2, S2.
    rewrite (Rabs_left (2 * Sh * Ch)).
    2:{ assert (0 < 2 * - Sh * Ch) by (apply Rmult_lt_0_compat; lra). lra. }
    unfold round_point; cbn [fst snd].
    apply fillet_result_eq; field; lra.
  - (* - 2 PI < D < - PI *)
    rewrite (Rabs_left (a2 - a1)) by lra.
    replace (- (a2 - a1) / 2) with (- ((a2 - a1) / 2)) by field.
    rewrite sin_neg. fold Sh.
    unfold fdiv. destruct (Req_dec_T (- Sh) 0) as [Z | _]; [exfalso; lra |].
    cbn [bind].
    assert (Hd : 0 < r / - Sh) by (apply Rdiv_lt_0_compat; lra).
    unfold a_diff.
    destruct (Rlt_dec (a2 - a1) (- PI)) as [_ | Z]; [| exfalso; lra].
    destruct (Rlt_dec 0 (a2 - a1 + 2 * PI)) as [_ | Z]; [| exfalso; lra].
    destruct (Rlt_dec _ _) as [_ | Hc].
    2:{ exfalso. apply Hc. apply distance_lt_iff.
        specialize (Hchoice (r / - Sh) Cb Sb). rewrite Hmid in Hchoice.
        assert (0 < 2 * (r / - Sh) * ((L1 + L2) * - Ch)).
        { apply Rmult_lt_0_compat; [lra | apply Rmult_lt_0_compat; lra]. }
        lra. }
    assert (Hpos : 0 < L1 * L2 * (2 * - Sh * - Ch)).
    { apply Rmult_lt_0_compat; [apply Rmult_lt_0_compat; lra |].
      apply Rmult_lt_0_compat; lra. }
    destruct (Rlt_dec 0 (u1 * w2 - w1 * u2)) as [_ | Z].
    2:{ exfalso. apply Z. rewrite Hcross. lra. }
    cbn [fst snd].
    rewrite !cos_minus_PI2, !sin_minus_PI2, !cos_plus_PI2, !sin_plus_PI2.
    rewrite C1, S1, C2, S2.
    rewrite (Rabs_right (2 * Sh * Ch)).
    2:{ assert (0 < 2 * - Sh * - Ch) by (apply Rmult_lt_0_compat; lra). lra. }
    unfold round_point; cbn [fst snd].
    apply fillet_result_eq; field; lra.
Qed.

Lemma add_fillet_inv (ms : modelspace) (p0 p1 p2 : point) (r : R)
    (ms' : modelspace) (new_p : point * point) :
  add_fillet ms p0 p1 p2 r = Ok (ms', new_p) ->
  exists c sa ea,
    ms' = ms ++ [ARC c r sa ea] /\
    rounded_point c /\ rounded_point (fst new_p) /\ rounded_point (snd new_p).
Proof.
  unfold add_fillet, fdiv.
  destruct (Req_dec_T _ 0) as [_ | _]; cbn [bind]; [discriminate |].
  intros H. injection H as <- <-. unfold add_arc.
  do 3 eexists. split; [reflexivity |].
  repeat split; cbn [fst snd]; apply rounded_round.
Qed.

Lemma add_fillet_raises (ms : modelspace) (p0 p1 p2 : point) (r : R) :
  divisor p0 p1 p2 = 0 -> add_fillet ms p0 p1 p2 r = Raise ZeroDivisionError.
Proof.
  unfold divisor, add_fillet, fdiv; cbn [fst snd]. intros H.
  destruct (Req_dec_T _ 0) as [_ | N]; [reflexivity | contradiction].
Qed.

Lemma add_fillet_returns (ms : modelspace) (p0 p1 p2 : point) (r : R) :
  divisor p0 p1 p2 <> 0 -> exists res, add_fillet ms p0 p1 p2 r = Ok res.
Proof.
  unfold divisor, add_fillet, fdiv; cbn [fst snd]. intros H.
  destruct (Req_dec_T _ 0) as [Z | _]; [contradiction |].
  cbn [bind]. eexists. reflexivity.
Qed.

(** ** Right-angle corners *)

(** The fillet of a right-angle corner: centre at [p1 + r (e1 + e2)],
    tangent points one radius back along each edge. *)
Lemma fillet_points_right_angle (p1 e1 e2 : point) (a b r : R) :
  0 < a -> 0 < b ->
  dot e1 e1 = 1 -> dot e2 e2 = 1 -> dot e1 e2 = 0 ->
  fillet_points (move p1 a e1) p1 (move p1 b e2) r =
  let c := round_point (move p1 r (fst e1 + fst e2, snd e1 + snd e2)) in
  (c, (round_point (move c (- r) e2), round_point (move c (- r) e1))).
Proof.
  intros Ha Hb H1 H2 H0.
  unfold fillet_points, exact_center, side.
  rewrite !unit_vector_move by assumption. rewrite turn_move.
  assert (Hab : 0 < a * b) by (apply Rmult_lt_0_compat; assumption).
  destruct (perpendicular_units e1 e2 H1 H2 H0)
    as [[Hc [Ex Ey]] | [Hc [Ex Ey]]];
    rewrite Hc.
  - rewrite Rabs_right by lra.
    destruct (Rlt_dec 0 (a * b * 1)) as [_ | Z]; [| exfalso; lra].
    cbv zeta.
    replace (r / 1) with r by field.
    fold (move p1 r (fst e1 + fst e2, snd e1 + snd e2)).
    set (c := round_point _).
    f_equal; f_equal; apply round_point_eq; unfold move; cbn [fst snd];
      rewrite ?Ex, ?Ey; ring.
  - replace (Rabs (-1)) with 1 by (rewrite Rabs_left; lra).
    destruct (Rlt_dec 0 (a * b * -1)) as [Z | _]; [exfalso; lra |].
    cbv zeta.
    replace (r / 1) with r by field.
    fold (move p1 r (fst e1 + fst e2, snd e1 + snd e2)).
    set (c := round_point _).
    f_equal; f_equal; apply round_point_eq; unfold move; cbn [fst snd];
      rewrite ?Ex, ?Ey; ring.
Qed.

Lemma degrees_PI : degrees PI = 180.
Proof. unfold degrees. field. apply PI_neq0. Qed.

Lemma degrees_neg_PI2 : degrees (- (PI / 2)) = -90.
Proof. unfold degrees. field. apply PI_neq0. Qed.

Lemma right_corner_angles :
  arc_angles (0, 10) (0, 0) (10, 0) = (180, -90).
Proof.
  unfold arc_angles; cbn [fst snd].
  replace (10 - 0) with 10 by lra. replace (0 - 0) with 0 by lra.
  rewrite atan2_up by lra. rewrite atan2_right by lra.
  unfold a_diff. pose proof PI_bounds.
  destruct (Rlt_dec (0 - PI / 2) (- PI)) as [Z | _]; [exfalso; lra |].
  destruct (Rlt_dec PI (0 - PI / 2)) as [Z | _]; [exfalso; lra |].
  destruct (Rlt_dec 0 (0 - PI / 2)) as [Z | _]; [exfalso; lra |].
  replace (PI / 2 + PI / 2) with PI by field.
  replace (0 - PI / 2) with (- (PI / 2)) by field.
  now rewrite degrees_PI, degrees_neg_PI2.
Qed.

Lemma right_corner_points (r : R) :
  rounded r ->
  fillet_points (0, 10) (0, 0) (10, 0) r = ((r, r), ((0, r), (r, 0))).
Proof.
  intros Hr.
  replace (0, 10) with (move (0, 0) 10 (0, 1))
    by (unfold move; cbn [fst snd]; f_equal; lra).
  replace (10, 0) with (move (0, 0) 10 (1, 0))
    by (unfold move; cbn [fst snd]; f_equal; lra).
  rewrite fillet_points_right_angle; try (unfold dot; cbn [fst snd]; lra).
  cbv zeta. unfold move, round_point; cbn [fst snd].
  rewrite (rounded_eq (0 + r * (0 + 1)) r); [| lra | assumption].
  rewrite (rounded_eq (0 + r * (1 + 0)) r); [| lra | assumption].
  rewrite (rounded_eq (r + - r * 1) 0); [| lra | apply rounded_IZR].
  rewrite (rounded_eq (r + - r * 0) r); [| lra | assumption].
  reflexivity.
Qed.

(** C4.  On the right-angle corner p0 = (0,10), p1 = (0,0), p2 = (10,0)
    with radius 5, [add_fillet] emits an arc of centre (5,5) and returns
    the tangent points (0,5) and (5,0), in that order. *)
Theorem C4_right_angle_fillet (ms : modelspace) :
  add_fillet ms (0, 10) (0, 0) (10, 0) 5 =
  Ok (ms ++ [ARC (5, 5) 5 180 (-90)], ((0, 5), (5, 0))).
Proof.
  rewrite add_fillet_exact.
  - rewrite right_corner_angles, right_corner_points by apply rounded_IZR.
    reflexivity.
  - unfold turn; cbn [fst snd]. lra.
  - lra.
Qed.

(** ** Tangency of the fillet *)

Lemma line_distance_near (c c' a b : point) :
  a <> b -> near (1 / 2000) c' c ->
  Rabs (line_distance c' a b - line_distance c a b) <= 1 / 1000.
Proof.
  intros Hab [Hx Hy]. pose proof (distance_pos a b Hab) as HL.
  destruct (unit_vector_scale a b Hab) as [Ex Ey].
  pose proof (unit_coordinate_bound _ (unit_vector_unit a b Hab)) as [Bx By].
  unfold line_distance. rewrite Ex, Ey.
  set (L := distance a b) in *. set (dx := fst (unit_vector a b)) in *.
  set (dy := snd (unit_vector a b)) in *.
  replace (Rabs (L * dx * (snd c' - snd a) - L * dy * (fst c' - fst a)) / L)
    with (Rabs (dx * (snd c' - snd a) - dy * (fst c' - fst a))).
  2:{ replace (L * dx * (snd c' - snd a) - L * dy * (fst c' - fst a))
        with (L * (dx * (snd c' - snd a) - dy * (fst c' - fst a))) by ring.
      rewrite Rabs_mult, (Rabs_right L) by lra. field. lra. }
  replace (Rabs (L * dx * (snd c - snd a) - L * dy * (fst c - fst a)) / L)
    with (Rabs (dx * (snd c - snd a) - dy * (fst c - fst a))).
  2:{ replace (L * dx * (snd c - snd a) - L * dy * (fst c - fst a))
        with (L * (dx * (snd c - snd a) - dy * (fst c - fst a))) by ring.
      rewrite Rabs_mult, (Rabs_right L) by lra. field. lra. }
  eapply Rle_trans; [apply Rabs_triang_inv2 |].
  replace (dx * (snd c' - snd a) - dy * (fst c' - fst a)
           - (dx * (snd c - snd a) - dy * (fst c - fst a)))
    with (dx * (snd c' - snd c) + - (dy * (fst c' - fst c))) by ring.
  eapply Rle_trans; [apply Rabs_triang |].
  rewrite Rabs_Ropp, !Rabs_mult.
  assert (Rabs dx * Rabs (snd c' - snd c) <= 1 * (1 / 2000)).
  { apply Rmult_le_compat; try apply Rabs_pos; assumption. }
  assert (Rabs dy * Rabs (fst c' - fst c) <= 1 * (1 / 2000)).
  { apply Rmult_le_compat; try apply Rabs_pos; assumption. }
  lra.
Qed.

Section Tangency.

Variables p0 p1 p2 : point.
Variable r : R.
Hypothesis Hturn : turn p0 p1 p2 <> 0.
Hypothesis Hr : 0 < r.

Let d1 := unit_vector p1 p0.
Let d2 := unit_vector p1 p2.
Let L1 := distance p1 p0.
Let L2 := distance p1 p2.
Let c := exact_center p0 p1 p2 r.
Let tau := tangent_length p0 p1 p2 r.

Lemma corner_apart : p1 <> p0 /\ p1 <> p2.
Proof.
  split; intros E; apply Hturn; unfold turn; rewrite E; ring.
Qed.

Lemma edges_positive : 0 < L1 /\ 0 < L2.
Proof. destruct corner_apart. split; now apply distance_pos. Qed.

Lemma directions_unit : dot d1 d1 = 1 /\ dot d2 d2 = 1.
Proof. destruct corner_apart. split; now apply unit_vector_unit. Qed.

Lemma turn_cross : turn p0 p1 p2 = L1 * L2 * cross d1 d2.
Proof.
  destruct corner_apart as [H1 H2].
  destruct (unit_vector_scale p1 p0 H1) as [E1 F1].
  destruct (unit_vector_scale p1 p2 H2) as [E2 F2].
  unfold turn. rewrite E1, F1, E2, F2. unfold cross, d1, d2, L1, L2. ring.
Qed.

Lemma cross_nonzero : cross d1 d2 <> 0.
Proof. intros E. apply Hturn. rewrite turn_cross, E. ring. Qed.

Lemma side_sign : side p0 p1 p2 * Rabs (cross d1 d2) = cross d1 d2.
Proof.
  destruct edges_positive as [H1 H2].
  assert (HL : 0 < L1 * L2) by now apply Rmult_lt_0_compat.
  pose proof cross_nonzero as Hc. pose proof turn_cross as Ht.
  unfold side. destruct (Rlt_dec 0 (turn p0 p1 p2)) as [Hp | Hn].
  - rewrite Ht in Hp.
    assert (0 < cross d1 d2).
    { destruct (Rlt_dec 0 (cross d1 d2)) as [|N]; [assumption |].
      exfalso. assert (cross d1 d2 < 0) by lra.
      assert (0 < L1 * L2 * - cross d1 d2)
        by (apply Rmult_lt_0_compat; lra).
      lra. }
    rewrite Rabs_right by lra. ring.
  - rewrite Ht in Hn.
    assert (cross d1 d2 < 0).
    { destruct (Rlt_dec (cross d1 d2) 0) as [|N]; [assumption |].
      exfalso. assert (0 < cross d1 d2) by lra.
      apply Hn. now apply Rmult_lt_0_compat. }
    rewrite Rabs_left by lra. ring.
Qed.

Lemma dot_above : -1 < dot d1 d2.
Proof.
  destruct directions_unit as [U1 U2]. pose proof cross_nonzero as Hc.
  unfold dot, cross in *.
  set (a := fst d1) in *. set (b := snd d1) in *.
  set (e := fst d2) in *. set (f := snd d2) in *.
  assert (Hl : (a * f - b * e) * (a * f - b * e)
               + (a * e + b * f) * (a * e + b * f) = 1).
  { transitivity ((a * a + b * b) * (e * e + f * f)); [ring |].
    rewrite U1, U2. ring. }
  assert (0 < (a * f - b * e) * (a * f - b * e)).
  { destruct (Rlt_dec 0 (a * f - b * e)).
    - now apply Rmult_lt_0_compat.
    - replace ((a * f - b * e) * (a * f - b * e))
        with ((- (a * f - b * e)) * (- (a * f - b * e))) by ring.
      apply Rmult_lt_0_compat; lra. }
  nra.
Qed.

Lemma tangent_length_pos : 0 < tau.
Proof.
  unfold tau, tangent_length. fold d1 d2.
  pose proof dot_above. pose proof cross_nonzero as Hc.
  apply Rmult_lt_0_compat; [| lra].
  apply Rdiv_lt_0_compat; [assumption |]. now apply Rabs_pos_lt.
Qed.

Lemma exact_center_distance :
  line_distance c p1 p0 = r /\ line_distance c p1 p2 = r.
Proof.
  destruct corner_apart as [H1 H2]. destruct edges_positive as [P1 P2].
  destruct (unit_vector_scale p1 p0 H1) as [E1 F1].
  destruct (unit_vector_scale p1 p2 H2) as [E2 F2].
  pose proof cross_nonzero as Hc.
  assert (Habs : 0 < Rabs (cross d1 d2)) by now apply Rabs_pos_lt.
  unfold line_distance, c, exact_center; cbn [fst snd].
  rewrite E1, F1, E2, F2. fold d1 d2 L1 L2.
  set (k := r / Rabs (cross d1 d2)).
  assert (Hk : 0 < k) by now apply Rdiv_lt_0_compat.
  split.
  - replace (L1 * fst d1 * (snd p1 + k * (snd d1 + snd d2) - snd p1)
             - L1 * snd d1 * (fst p1 + k * (fst d1 + fst d2) - fst p1))
      with (L1 * k * cross d1 d2) by (unfold cross; ring).
    rewrite !Rabs_mult, (Rabs_right L1), (Rabs_right k) by lra.
    unfold k. field. lra.
  - replace (L2 * fst d2 * (snd p1 + k * (snd d1 + snd d2) - snd p1)
             - L2 * snd d2 * (fst p1 + k * (fst d1 + fst d2) - fst p1))
      with (L2 * k * - cross d1 d2) by (unfold cross; ring).
    rewrite !Rabs_mult, Rabs_Ropp, (Rabs_right L2), (Rabs_right k) by lra.
    unfold k. field. lra.
Qed.

(** One radius away from the exact centre, across each edge, lies the
    point of that edge at the tangent length from the corner. *)
Lemma exact_tangent_points :
  let s := side p0 p1 p2 in
  (fst c + r * (s * snd d1), snd c + r * (- s * fst d1)) = move p1 tau d1 /\
  (fst c + r * (- s * snd d2), snd c + r * (s * fst d2)) = move p1 tau d2.
Proof.
  destruct directions_unit as [U1 U2]. pose proof cross_nonzero as Hc.
  pose proof side_sign as Hs.
  assert (Habs : Rabs (cross d1 d2) <> 0) by now apply Rabs_no_R0.
  unfold c, tau, exact_center, tangent_length, move; cbn [fst snd].
  fold d1 d2. cbv zeta.
  set (k := r / Rabs (cross d1 d2)).
  assert (Ers : forall x, r * (side p0 p1 p2 * x) = k * cross d1 d2 * x).
  { intros x. rewrite <- Hs. unfold k. field. assumption. }
  assert (Ersn : forall x, r * (- side p0 p1 p2 * x) = - (k * cross d1 d2 * x)).
  { intros x. rewrite <- Hs. unfold k. field. assumption. }
  rewrite !Ers, !Ersn. unfold dot, cross in *.
  set (a := fst d1) in *. set (b := snd d1) in *.
  set (e := fst d2) in *. set (f := snd d2) in *.
  split; f_equal.
  - assert (k * (a + e) + k * (a * f - b * e) * b
            - k * (1 + (a * e + b * f)) * a
            = k * e * (1 - (a * a + b * b))) by ring.
    rewrite U1 in H. lra.
  - assert (k * (b + f) + - (k * (a * f - b * e) * a)
            - k * (1 + (a * e + b * f)) * b
            = k * f * (1 - (a * a + b * b))) by ring.
    rewrite U1 in H. lra.
  - assert (k * (a + e) + - (k * (a * f - b * e) * f)
            - k * (1 + (a * e + b * f)) * e
            = k * a * (1 - (e * e + f * f))) by ring.
    rewrite U2 in H. lra.
  - assert (k * (b + f) + k * (a * f - b * e) * e
            - k * (1 + (a * e + b * f)) * f
            = k * b * (1 - (e * e + f * f))) by ring.
    rewrite U2 in H. lra.
Qed.

(** The point at the tangent length is on the edge when the edge is
    long enough. *)
Lemma tangent_on_segment :
  (tau <= L1 -> on_segment p0 p1 (move p1 tau d1)) /\
  (tau <= L2 -> on_segment p1 p2 (move p1 tau d2)).
Proof.
  destruct corner_apart as [H1 H2]. destruct edges_positive as [P1 P2].
  destruct (unit_vector_scale p1 p0 H1) as [E1 F1].
  destruct (unit_vector_scale p1 p2 H2) as [E2 F2].
  pose proof tangent_length_pos as Ht. fold d1 d2 L1 L2 in E1, F1, E2, F2.
  split; intros Hle.
  - exists (1 - tau / L1). split.
    + assert (0 < tau / L1) by now apply Rdiv_lt_0_compat.
      assert (tau / L1 <= 1).
      { apply Rmult_le_reg_r with L1; [assumption |].
        replace (tau / L1 * L1) with tau by (field; lra). lra. }
      lra.
    + unfold move. f_equal.
      * replace (fst p1 - fst p0) with (- (L1 * fst d1)) by lra.
        replace (fst p0) with (fst p1 + L1 * fst d1) by lra. field. lra.
      * replace (snd p1 - snd p0) with (- (L1 * snd d1)) by lra.
        replace (snd p0) with (snd p1 + L1 * snd d1) by lra. field. lra.
  - exists (tau / L2). split.
    + assert (0 < tau / L2) by now apply Rdiv_lt_0_compat.
      assert (tau / L2 <= 1).
      { apply Rmult_le_reg_r with L2; [assumption |].
        replace (tau / L2 * L2) with tau by (field; lra). lra. }
      lra.
    + unfold move. f_equal.
      * rewrite E2. field. lra.
      * rewrite F2. field. lra.
Qed.

End Tangency.

(** C1 (amended).  For three non-collinear points and a positive radius,
    [add_fillet] emits an arc whose centre is the rounding of a point at
    distance exactly [r] from both edge lines, so that the emitted centre is
    within 0.001 of that distance; each returned tangent point is, per
    coordinate, within 0.001 of the point of its edge line at the tangent
    length from the corner [p1], towards [p0] for the first and towards [p2]
    for the second; that point is on the edge segment whenever the tangent
    length does not exceed the edge length. *)
Theorem C1_fillet_tangent_to_edge_lines
    (ms : modelspace) (p0 p1 p2 : point) (r : R) :
  turn p0 p1 p2 <> 0 -> 0 < r ->
  exists c sa ea t1 t2,
    add_fillet ms p0 p1 p2 r = Ok (ms ++ [ARC c r sa ea], (t1, t2)) /\
    c = round_point (exact_center p0 p1 p2 r) /\
    line_distance (exact_center p0 p1 p2 r) p1 p0 = r /\
    line_distance (exact_center p0 p1 p2 r) p1 p2 = r /\
    Rabs (line_distance c p1 p0 - r) <= 1 / 1000 /\
    Rabs (line_distance c p1 p2 - r) <= 1 / 1000 /\
    let tau := tangent_length p0 p1 p2 r in
    0 < tau /\
    near (1 / 1000) t1 (move p1 tau (unit_vector p1 p0)) /\
    near (1 / 1000) t2 (move p1 tau (unit_vector p1 p2)) /\
    (tau <= distance p1 p0 -> near_segment (1 / 1000) p0 p1 t1) /\
    (tau <= distance p1 p2 -> near_segment (1 / 1000) p1 p2 t2).
Proof.
  intros Hturn Hr.
  destruct (corner_apart p0 p1 p2 Hturn) as [A1 A2].
  destruct (exact_center_distance p0 p1 p2 r Hturn Hr) as [D1 D2].
  destruct (exact_tangent_points p0 p1 p2 r Hturn) as [T1 T2].
  destruct (tangent_on_segment p0 p1 p2 r Hturn Hr) as [S1 S2].
  pose proof (tangent_length_pos p0 p1 p2 r Hturn Hr) as Htau.
  rewrite (add_fillet_exact ms p0 p1 p2 r Hturn Hr).
  unfold fillet_points; cbn [fst snd]. unfold add_arc.
  set (c := exact_center p0 p1 p2 r) in *.
  set (tau := tangent_length p0 p1 p2 r) in *.
  assert (N1 : near (1 / 1000)
                 (round_point
                    (fst (round_point c)
                     + r * (side p0 p1 p2 * snd (unit_vector p1 p0)),
                     snd (round_point c)
                     + r * (- side p0 p1 p2 * fst (unit_vector p1 p0))))
                 (move p1 tau (unit_vector p1 p0))).
  { rewrite <- T1. apply near_offset. }
  assert (N2 : near (1 / 1000)
                 (round_point
                    (fst (round_point c)
                     + r * (- side p0 p1 p2 * snd (unit_vector p1 p2)),
                     snd (round_point c)
                     + r * (side p0 p1 p2 * fst (unit_vector p1 p2))))
                 (move p1 tau (unit_vector p1 p2))).
  { rewrite <- T2. apply near_offset. }
  do 5 eexists. split; [reflexivity |].
  split; [reflexivity |]. split; [exact D1 |]. split; [exact D2 |].
  split.
  { pose proof (line_distance_near c (round_point c) p1 p0 A1
                  (near_round_point c)) as Q.
    rewrite D1 in Q. exact Q. }
  split.
  { pose proof (line_distance_near c (round_point c) p1 p2 A2
                  (near_round_point c)) as Q.
    rewrite D2 in Q. exact Q. }
  cbv zeta. split; [exact Htau |]. split; [exact N1 |]. split; [exact N2 |].
  split; intros Hle.
  - eexists. split; [apply S1; exact Hle | exact N1].
  - eexists. split; [apply S2; exact Hle | exact N2].
Qed.

Lemma C1_witness :
  exists c sa ea t1 t2,
    add_fillet [] (0, 10) (0, 0) (10, 0) 5
      = Ok ([] ++ [ARC c 5 sa ea], (t1, t2)) /\
    c = round_point (exact_center (0, 10) (0, 0) (10, 0) 5) /\
    line_distance (exact_center (0, 10) (0, 0) (10, 0) 5) (0, 0) (0, 10) = 5 /\
    line_distance (exact_center (0, 10) (0, 0) (10, 0) 5) (0, 0) (10, 0) = 5 /\
    Rabs (line_distance c (0, 0) (0, 10) - 5) <= 1 / 1000 /\
    Rabs (line_distance c (0, 0) (10, 0) - 5) <= 1 / 1000 /\
    let tau := tangent_length (0, 10) (0, 0) (10, 0) 5 in
    0 < tau /\
    near (1 / 1000) t1 (move (0, 0) tau (unit_vector (0, 0) (0, 10))) /\
    near (1 / 1000) t2 (move (0, 0) tau (unit_vector (0, 0) (10, 0))) /\
    (tau <= distance (0, 0) (0, 10) ->
     near_segment (1 / 1000) (0, 10) (0, 0) t1) /\
    (tau <= distance (0, 0) (10, 0) ->
     near_segment (1 / 1000) (0, 0) (10, 0) t2).
Proof.
  apply (C1_fillet_tangent_to_edge_lines [] (0, 10) (0, 0) (10, 0) 5).
  - unfold turn; cbn [fst snd]. lra.
  - lra.
Defined.

(** C1 as stated fails: with radius 20 on a corner whose edges have length
    10, the first tangent point is (0,20), ten units beyond the end of the
    segment from p0 to p1. *)
Lemma C1_counterexample :
  turn (0, 10) (0, 0) (10, 0) <> 0 /\ 0 < 20 /\
  exists ms' t2,
    add_fillet [] (0, 10) (0, 0) (10, 0) 20 = Ok (ms', ((0, 20), t2)) /\
    ~ near_segment (1 / 1000) (0, 10) (0, 0) (0, 20).
Proof.
  split; [unfold turn; cbn [fst snd]; lra |]. split; [lra |].
  do 2 eexists. split.
  - rewrite add_fillet_exact;
      [| unfold turn; cbn [fst snd]; lra | lra].
    rewrite right_corner_points by apply rounded_IZR. cbn [fst snd].
    reflexivity.
  - intros [q [[t [Ht ->]] [_ Hy]]]. cbn [fst snd] in Hy.
    apply Rabs_le_both in Hy. lra.
Qed.

(** ** The singular case of the fillet *)

(** C6 (amended).  For a vertex distinct from both neighbours, the divisor
    [sin (|angle2 - angle1| / 2)] is zero exactly when the two edges leave
    the vertex in the same direction (angular difference 0); at a
    straight-through vertex (angular difference PI) it is 1.  Nothing
    guards the division: [add_fillet] raises [ZeroDivisionError] when the
    divisor is zero and returns otherwise. *)
Theorem C6_divisor_zero_iff_same_direction (p0 p1 p2 : point) :
  p0 <> p1 -> p2 <> p1 ->
  (divisor p0 p1 p2 = 0 <-> turn p0 p1 p2 = 0 /\ 0 < edge_dot p0 p1 p2) /\
  (turn p0 p1 p2 = 0 -> edge_dot p0 p1 p2 < 0 -> divisor p0 p1 p2 = 1) /\
  (forall ms r, divisor p0 p1 p2 = 0 ->
                add_fillet ms p0 p1 p2 r = Raise ZeroDivisionError) /\
  (forall ms r, divisor p0 p1 p2 <> 0 ->
                exists res, add_fillet ms p0 p1 p2 r = Ok res).
Proof.
  intros N0 N2.
  destruct p0 as [x0 y0], p1 as [x1 y1], p2 as [x2 y2].
  assert (H1 : (x0 - x1, y0 - y1) <> (0, 0)).
  { intros E. injection E as E1 E2. apply N0. f_equal; lra. }
  assert (H2 : (x2 - x1, y2 - y1) <> (0, 0)).
  { intros E. injection E as E1 E2. apply N2. f_equal; lra. }
  pose proof (atan2_bounds (y0 - y1) (x0 - x1)) as B1.
  pose proof (atan2_bounds (y2 - y1) (x2 - x1)) as B2.
  pose proof (half_sine_zero _ _ B1 B2) as Hz.
  pose proof (angle_difference_cases _ _ _ _ H1 H2) as Hcases.
  destruct (polar_cross_dot _ _ _ _ H1 H2) as [Ec Ed].
  pose proof (norm_pos _ _ H1) as P1. pose proof (norm_pos _ _ H2) as P2.
  unfold divisor, turn, edge_dot; cbn [fst snd].
  set (a1 := atan2 (y0 - y1) (x0 - x1)) in *.
  set (a2 := atan2 (y2 - y1) (x2 - x1)) in *.
  split; [| split; [| split]].
  - rewrite Hz. split.
    + intros E. rewrite Ec, Ed. replace (a2 - a1) with 0 by lra.
      rewrite sin_0, cos_0. split; [ring |].
      rewrite Rmult_1_r. now apply Rmult_lt_0_compat.
    + intros [Ht Hd]. destruct (Hcases Ht) as [[_ E] | [Hneg _]]; lra.
  - intros Ht Hd. destruct (Hcases Ht) as [[Hpos _] | [_ [E | E]]]; [lra | |].
    + rewrite E. rewrite Rabs_right by (pose proof PI_bounds; lra).
      apply sin_PI2.
    + rewrite E. rewrite Rabs_left by (pose proof PI_bounds; lra).
      replace (- - PI / 2) with (PI / 2) by field. apply sin_PI2.
  - intros ms r. exact (add_fillet_raises ms (x0, y0) (x1, y1) (x2, y2) r).
  - intros ms r. exact (add_fillet_returns ms (x0, y0) (x1, y1) (x2, y2) r).
Qed.

Lemma C6_witness :
  (divisor (2, 0) (0, 0) (1, 0) = 0 <->
   turn (2, 0) (0, 0) (1, 0) = 0 /\ 0 < edge_dot (2, 0) (0, 0) (1, 0)) /\
  (turn (2, 0) (0, 0) (1, 0) = 0 -> edge_dot (2, 0) (0, 0) (1, 0) < 0 ->
   divisor (2, 0) (0, 0) (1, 0) = 1) /\
  (forall ms r, divisor (2, 0) (0, 0) (1, 0) = 0 ->
                add_fillet ms (2, 0) (0, 0) (1, 0) r
                  = Raise ZeroDivisionError) /\
  (forall ms r, divisor (2, 0) (0, 0) (1, 0) <> 0 ->
                exists res, add_fillet ms (2, 0) (0, 0) (1, 0) r = Ok res).
Proof.
  apply (C6_divisor_zero_iff_same_direction (2, 0) (0, 0) (1, 0));
    intros E; injection E; lra.
Defined.

(** C6 as stated fails at a straight-through vertex: the edges are
    collinear, yet the divisor is 1 and the fillet is computed. *)
Lemma C6_counterexample :
  turn (-1, 0) (0, 0) (1, 0) = 0 /\
  divisor (-1, 0) (0, 0) (1, 0) = 1 /\
  exists res, add_fillet [] (-1, 0) (0, 0) (1, 0) 5 = Ok res.
Proof.
  assert (Hd : divisor (-1, 0) (0, 0) (1, 0) = 1).
  { unfold divisor; cbn [fst snd].
    replace (0 - 0) with 0 by lra. replace (-1 - 0) with (-1) by lra.
    replace (1 - 0) with 1 by lra.
    rewrite (atan2_left (-1)) by lra. rewrite (atan2_right 1) by lra.
    rewrite Rabs_left by (pose proof PI_bounds; lra).
    replace (- (0 - PI) / 2) with (PI / 2) by field. apply sin_PI2. }
  split; [unfold turn; cbn [fst snd]; lra |]. split; [exact Hd |].
  apply add_fillet_returns. rewrite Hd. lra.
Qed.

(** ** One iteration of the rebuild loop *)

Lemma Rgtb_true (a b : R) : a > b -> Rgtb a b = true.
Proof.
  intros H. unfold Rgtb.
  destruct (Rgt_dec a b); [reflexivity | contradiction].
Qed.

Lemma Rgtb_false (a b : R) : a <= b -> Rgtb a b = false.
Proof.
  intros H. unfold Rgtb.
  destruct (Rgt_dec a b); [exfalso; lra | reflexivity].
Qed.

Lemma Rneb_true (a b : R) : a <> b -> Rneb a b = true.
Proof.
  intros H. unfold Rneb.
  destruct (Req_dec_T a b); [contradiction | reflexivity].
Qed.

Lemma Rneb_false (a b : R) : a = b -> Rneb a b = false.
Proof.
  intros H. unfold Rneb.
  destruct (Req_dec_T a b); [reflexivity | contradiction].
Qed.

Lemma index_nil {A : Type} (k : Z) : index (@nil A) k = Raise IndexError.
Proof.
  unfold index. cbn [length Z.of_nat]. rewrite Z.add_0_r.
  destruct (k <? 0)%Z eqn:E; [rewrite E; reflexivity |].
  rewrite E. now destruct (Z.to_nat k).
Qed.

Lemma index_eq {A : Type} (l : list A) (k : Z) (a b : A) :
  index l k = Ok a -> a = b -> index l k = Ok b.
Proof. intros H <-. exact H. Qed.

(** Reads a point of a literal list, up to ring equations on its
    coordinates. *)
Ltac index_tac :=
  eapply index_eq;
    [reflexivity | apply injective_projections; cbn [fst snd]; ring].

Lemma index_nth {A : Type} (l : list A) (k : nat) (d : A) :
  (k < length l)%nat -> index l (Z.of_nat k) = Ok (nth k l d).
Proof.
  intros Hk. unfold index.
  destruct (Z.of_nat k <? 0)%Z eqn:E; [apply Z.ltb_lt in E; lia |].
  rewrite E, Nat2Z.id.
  destruct (nth_error l k) as [a |] eqn:En.
  - f_equal. symmetry. now apply nth_error_nth.
  - apply nth_error_None in En. lia.
Qed.

Lemma index_prev {A : Type} (l : list A) (i : nat) (d : A) :
  (i < length l)%nat ->
  index l (Z.of_nat i - 1)
    = Ok (nth (if (i =? 0)%nat then length l - 1 else i - 1)%nat l d).
Proof.
  intros Hi. destruct i as [| j].
  - cbn [Nat.eqb]. unfold index.
    change (Z.of_nat 0 - 1)%Z with (-1)%Z. cbn [Z.ltb Z.compare].
    destruct (-1 + Z.of_nat (length l) <? 0)%Z eqn:E;
      [apply Z.ltb_lt in E; lia |].
    replace (Z.to_nat (-1 + Z.of_nat (length l))) with (length l - 1)%nat
      by lia.
    destruct (nth_error l (length l - 1)) as [a |] eqn:En.
    + f_equal. symmetry. now apply nth_error_nth.
    + apply nth_error_None in En. lia.
  - cbn [Nat.eqb].
    replace (Z.of_nat (S j) - 1)%Z with (Z.of_nat j) by lia.
    replace (S j - 1)%nat with j by lia. apply index_nth. lia.
Qed.

Lemma index_next {A : Type} (l : list A) (i : nat) (d : A) :
  (i < length l)%nat ->
  index l ((Z.of_nat i + 1) mod Z.of_nat (length l))
    = Ok (nth ((i + 1) mod length l)%nat l d).
Proof.
  intros Hi.
  replace ((Z.of_nat i + 1) mod Z.of_nat (length l))%Z
    with (Z.of_nat ((i + 1) mod length l)).
  - apply index_nth. apply Nat.mod_upper_bound. lia.
  - rewrite Nat2Z.inj_mod. f_equal. lia.
Qed.

(** The loop body once its three points are read: [add_fillet] is called
    under the guard [r != 0], with the radius chosen by lines 96-101. *)
Lemma body_unfold (radius : R) (skip : bool) (points : list point) (i : nat)
    (st : loop_state) (p0 p1 p2 : point) :
  index points (Z.of_nat i - 1) = Ok p0 ->
  index points (Z.of_nat i) = Ok p1 ->
  index points ((Z.of_nat i + 1) mod Z.of_nat (length points)) = Ok p2 ->
  let q0 := round_point p0 in
  let q1 := round_point p1 in
  let q2 := round_point p2 in
  let r := vertex_radius radius skip q0 q1 q2 in
  body radius skip points i st =
  if Rneb r 0
  then res <- add_fillet (space st) q0 q1 q2 r ;; Ok (fillet_step i st res)
  else Ok (after_pass i st q1).
Proof.
  intros H0 H1 H2 q0 q1 q2 r. unfold body. rewrite H0, H1, H2. cbn [bind].
  fold q0 q1 q2 r. destruct (Rneb r 0).
  - destruct (add_fillet _ _ _ _ r) as [res |]; cbn [bind]; [| reflexivity].
    unfold fillet_step. destruct (i =? 0)%nat; cbn [negb]; [reflexivity |].
    destruct (Rneb _ 0); reflexivity.
  - unfold after_pass. destruct (i =? 0)%nat; reflexivity.
Qed.

Lemma body_fillet (radius : R) (skip : bool) (points : list point) (i : nat)
    (st : loop_state) (p0 p1 p2 : point) :
  index points (Z.of_nat i - 1) = Ok p0 ->
  index points (Z.of_nat i) = Ok p1 ->
  index points ((Z.of_nat i + 1) mod Z.of_nat (length points)) = Ok p2 ->
  let q0 := round_point p0 in
  let q1 := round_point p1 in
  let q2 := round_point p2 in
  let r := vertex_radius radius skip q0 q1 q2 in
  0 < r -> turn q0 q1 q2 <> 0 ->
  body radius skip points i st = Ok (after_fillet i st q0 q1 q2 r).
Proof.
  intros H0 H1 H2 q0 q1 q2 r Hr Ht.
  rewrite (body_unfold radius skip points i st p0 p1 p2 H0 H1 H2).
  cbv zeta. fold q0 q1 q2 r. rewrite (Rneb_true r 0) by lra.
  rewrite (add_fillet_exact _ _ _ _ _ Ht Hr). reflexivity.
Qed.

Lemma body_pass (radius : R) (skip : bool) (points : list point) (i : nat)
    (st : loop_state) (p0 p1 p2 : point) :
  index points (Z.of_nat i - 1) = Ok p0 ->
  index points (Z.of_nat i) = Ok p1 ->
  index points ((Z.of_nat i + 1) mod Z.of_nat (length points)) = Ok p2 ->
  vertex_radius radius skip (round_point p0) (round_point p1) (round_point p2)
    = 0 ->
  body radius skip points i st = Ok (after_pass i st (round_point p1)).
Proof.
  intros H0 H1 H2 Hr.
  unfold body. rewrite H0, H1, H2. cbn [bind]. rewrite Hr.
  rewrite (Rneb_false 0 0) by reflexivity.
  unfold after_pass. destruct (i =? 0)%nat; reflexivity.
Qed.

(** The two ways an iteration can end well: a fillet, or a sharp vertex. *)
Lemma body_inv (radius : R) (skip : bool) (points : list point) (i : nat)
    (st st' : loop_state) :
  body radius skip points i st = Ok st' ->
  exists p0 p1 p2,
    index points (Z.of_nat i - 1) = Ok p0 /\
    index points (Z.of_nat i) = Ok p1 /\
    index points ((Z.of_nat i + 1) mod Z.of_nat (length points)) = Ok p2 /\
    let q0 := round_point p0 in
    let q1 := round_point p1 in
    let q2 := round_point p2 in
    let r := vertex_radius radius skip q0 q1 q2 in
    (r <> 0 /\
     exists ms1 t1 t2,
       add_fillet (space st) q0 q1 q2 r = Ok (ms1, (t1, t2)) /\
       st' = if (i =? 0)%nat then mkState ms1 (nb_lines st) t1 t2
             else if Rneb (distance (memory st) t1) 0
                  then mkState (add_line ms1 (memory st) t1)
                               (S (nb_lines st)) (first st) t2
                  else mkState ms1 (nb_lines st) (first st) t2)
    \/ (r = 0 /\ st' = after_pass i st q1).
Proof.
  unfold body.
  destruct (index points (Z.of_nat i - 1)) as [p0 |]; cbn [bind];
    [| discriminate].
  destruct (index points (Z.of_nat i)) as [p1 |]; cbn [bind]; [| discriminate].
  destruct (index points _) as [p2 |]; cbn [bind]; [| discriminate].
  intros H. exists p0, p1, p2. repeat split. cbv zeta.
  set (r := vertex_radius _ _ _ _ _) in *.
  unfold Rneb at 1 in H. destruct (Req_dec_T r 0) as [Hr | Hr].
  - right. split; [assumption |]. unfold after_pass.
    destruct (i =? 0)%nat; cbn [negb] in H; congruence.
  - left. split; [assumption |].
    destruct (add_fillet _ _ _ _ r) as [[ms1 [t1 t2]] |]; cbn [bind] in H;
      [| discriminate].
    exists ms1, t1, t2. split; [reflexivity |]. cbn [fst snd] in H.
    destruct (i =? 0)%nat; cbn [negb] in H; [congruence |].
    destruct (Rneb _ 0); congruence.
Qed.

Lemma body_returns (radius : R) (skip : bool) (points : list point) (i : nat)
    (st : loop_state) :
  (i < length points)%nat -> regular radius skip points i ->
  exists st', body radius skip points i st = Ok st'.
Proof.
  intros Hi Hreg.
  rewrite (body_unfold radius skip points i st _ _ _
             (index_prev points i (0, 0) Hi) (index_nth points i (0, 0) Hi)
             (index_next points i (0, 0) Hi)).
  cbv zeta. unfold regular, triple in Hreg.
  destruct Hreg as [Hz | Hd].
  - rewrite Hz, (Rneb_false 0 0) by reflexivity. eexists. reflexivity.
  - destruct (Rneb _ 0); [| eexists; reflexivity].
    destruct (add_fillet_returns (space st) _ _ _
                (vertex_radius radius skip
                   (round_point (nth (if (i =? 0)%nat then length points - 1
                                      else i - 1)%nat points (0, 0)))
                   (round_point (nth i points (0, 0)))
                   (round_point (nth ((i + 1) mod length points)%nat
                                     points (0, 0)))) Hd) as [res Hres].
    rewrite Hres. cbn [bind]. eexists. reflexivity.
Qed.

Lemma Rmin_zero_left (a b : R) : a = 0 -> 0 <= b -> Rmin a b = 0.
Proof. intros -> Hb. now apply Rmin_left. Qed.

Lemma Rmin_zero_right (a b : R) : b = 0 -> 0 <= a -> Rmin a b = 0.
Proof. intros -> Ha. now apply Rmin_right. Qed.

Lemma vertex_radius_zero_edge (radius : R) (skip : bool) (p0 p1 p2 : point) :
  0 <= radius ->
  distance p0 p1 = 0 \/ distance p1 p2 = 0 ->
  vertex_radius radius skip p0 p1 p2 = 0.
Proof.
  intros Hr Hz. unfold vertex_radius.
  pose proof (distance_nonneg p0 p1). pose proof (distance_nonneg p1 p2).
  assert (Hg : Rgtb (distance p0 p1) (2 * radius)
               && Rgtb (distance p1 p2) (2 * radius) = false).
  { destruct Hz as [Z | Z]; rewrite Z.
    - rewrite Rgtb_false by lra. reflexivity.
    - rewrite (Rgtb_false 0) by lra. apply andb_false_r. }
  rewrite Hg. destruct skip; cbn [negb]; [reflexivity |].
  destruct Hz as [Z | Z].
  - rewrite Rmin_zero_left by assumption. field.
  - rewrite Rmin_zero_right by assumption. field.
Qed.

(** C3 (amended).  With both adjacent edges of length 6 and radius 5, the
    radius used is 3 when skip = False and 0 when skip = True; in the
    latter case the iteration adds no arc, only the line to the vertex,
    and not even that at the first vertex.  For a positive radius and
    skip = True a vertex is filleted at the configured radius exactly when
    both edges exceed twice the radius; for skip = False the radius used
    equals the configured one exactly when both edges are at least twice
    the radius. *)
Theorem C3_vertex_radius_policy :
  (forall p0 p1 p2,
     distance p0 p1 = 6 -> distance p1 p2 = 6 ->
     vertex_radius 5 false p0 p1 p2 = 3 /\ vertex_radius 5 true p0 p1 p2 = 0) /\
  (forall points i st p0 p1 p2,
     index points (Z.of_nat i - 1) = Ok p0 ->
     index points (Z.of_nat i) = Ok p1 ->
     index points ((Z.of_nat i + 1) mod Z.of_nat (length points)) = Ok p2 ->
     let q0 := round_point p0 in
     let q1 := round_point p1 in
     let q2 := round_point p2 in
     distance q0 q1 = 6 -> distance q1 q2 = 6 ->
     body 5 false points i st
       = (res <- add_fillet (space st) q0 q1 q2 3 ;; Ok (fillet_step i st res))
     /\ body 5 true points i st = Ok (after_pass i st q1)) /\
  (forall radius p0 p1 p2,
     0 < radius ->
     (vertex_radius radius true p0 p1 p2 = radius <->
      distance p0 p1 > 2 * radius /\ distance p1 p2 > 2 * radius) /\
     (vertex_radius radius false p0 p1 p2 = radius <->
      distance p0 p1 >= 2 * radius /\ distance p1 p2 >= 2 * radius)).
Proof.
  assert (Six : forall p0 p1 p2,
     distance p0 p1 = 6 -> distance p1 p2 = 6 ->
     vertex_radius 5 false p0 p1 p2 = 3 /\ vertex_radius 5 true p0 p1 p2 = 0).
  { intros p0 p1 p2 E1 E2. unfold vertex_radius. rewrite E1, E2.
    rewrite Rgtb_false by lra. cbn [andb negb].
    rewrite Rmin_left by lra. split; [field | reflexivity]. }
  split; [exact Six | split].
  - intros points i st p0 p1 p2 H0 H1 H2 q0 q1 q2 E1 E2.
    destruct (Six q0 q1 q2 E1 E2) as [Ef Et].
    pose proof (body_unfold 5 false points i st p0 p1 p2 H0 H1 H2) as Bf.
    pose proof (body_unfold 5 true points i st p0 p1 p2 H0 H1 H2) as Bt.
    cbv zeta in Bf, Bt. fold q0 q1 q2 in Bf, Bt.
    rewrite Ef in Bf. rewrite Et in Bt.
    rewrite (Rneb_true 3 0) in Bf by lra.
    rewrite (Rneb_false 0 0) in Bt by reflexivity.
    split; assumption.
  - intros radius p0 p1 p2 Hr. unfold vertex_radius.
    set (a := distance p0 p1). set (b := distance p1 p2).
    unfold Rgtb.
    destruct (Rgt_dec a (2 * radius)) as [Ha | Ha];
      destruct (Rgt_dec b (2 * radius)) as [Hb | Hb];
      cbn [andb negb]; (split; [split; [lra | intros [? ?]; lra] |]);
      unfold Rmin; destruct (Rle_dec a b); split; intros; try split; lra.
Qed.

Lemma C3_witness :
  (vertex_radius 5 false (6, 0) (0, 0) (0, 6) = 3 /\
   vertex_radius 5 true (6, 0) (0, 0) (0, 6) = 0) /\
  (body 5 false [(6, 0); (0, 0); (0, 6)] 1 (mkState [] 0 (0, 0) (0, 0))
     = (res <- add_fillet [] (round_point (6, 0)) (round_point (0, 0))
                          (round_point (0, 6)) 3 ;;
        Ok (fillet_step 1 (mkState [] 0 (0, 0) (0, 0)) res))
   /\ body 5 true [(6, 0); (0, 0); (0, 6)] 1 (mkState [] 0 (0, 0) (0, 0))
      = Ok (after_pass 1 (mkState [] 0 (0, 0) (0, 0)) (round_point (0, 0)))) /\
  ((vertex_radius 5 true (6, 0) (0, 0) (0, 6) = 5 <->
    distance (6, 0) (0, 0) > 2 * 5 /\ distance (0, 0) (0, 6) > 2 * 5) /\
   (vertex_radius 5 false (6, 0) (0, 0) (0, 6) = 5 <->
    distance (6, 0) (0, 0) >= 2 * 5 /\ distance (0, 0) (0, 6) >= 2 * 5)).
Proof.
  assert (E1 : distance (6, 0) (0, 0) = 6)
    by (apply distance_eq; [lra | unfold dsq; cbn [fst snd]; ring]).
  assert (E2 : distance (0, 0) (0, 6) = 6)
    by (apply distance_eq; [lra | unfold dsq; cbn [fst snd]; ring]).
  assert (R6 : round_point (6, 0) = (6, 0))
    by (apply round_point_id; split; apply rounded_IZR).
  assert (R0 : round_point (0, 0) = (0, 0))
    by (apply round_point_id; split; apply rounded_IZR).
  assert (R6' : round_point (0, 6) = (0, 6))
    by (apply round_point_id; split; apply rounded_IZR).
  destruct C3_vertex_radius_policy as [P1 [P2 P3]].
  split; [apply P1; assumption |]. split.
  - apply (P2 [(6, 0); (0, 0); (0, 6)] 1%nat (mkState [] 0 (0, 0) (0, 0))
              (6, 0) (0, 0) (0, 6)); try reflexivity.
    + rewrite R6, R0. exact E1.
    + rewrite R0, R6'. exact E2.
  - apply P3. lra.
Defined.

(** C3 as stated fails for skip = False when the shorter edge is exactly
    twice the radius: the vertex is filleted with the configured radius 5
    although the edges, of length 10, do not exceed 2 x 5. *)
Lemma C3_counterexample :
  vertex_radius 5 false (10, 0) (0, 0) (0, 10) = 5 /\
  ~ (distance (10, 0) (0, 0) > 2 * 5 /\ distance (0, 0) (0, 10) > 2 * 5).
Proof.
  assert (E1 : distance (10, 0) (0, 0) = 10)
    by (apply distance_eq; [lra | unfold dsq; cbn [fst snd]; ring]).
  assert (E2 : distance (0, 0) (0, 10) = 10)
    by (apply distance_eq; [lra | unfold dsq; cbn [fst snd]; ring]).
  split.
  - unfold vertex_radius. rewrite E1, E2. rewrite Rgtb_false by lra.
    cbn [andb negb]. rewrite Rmin_left by lra. field.
  - rewrite E1. lra.
Qed.

(** ** The loop over a contour *)

Lemma for_range_seq_invariant {S : Type} (f : nat -> S -> result S)
    (Inv : nat -> S -> Prop) (len start : nat) (st st' : S) :
  (forall i s s', (start <= i < start + len)%nat ->
                  Inv i s -> f i s = Ok s' -> Inv (Datatypes.S i) s') ->
  Inv start st ->
  for_range f (seq start len) st = Ok st' ->
  Inv (start + len)%nat st'.
Proof.
  revert start st. induction len as [| len IH]; intros start st Hstep H0 Hrun.
  - cbn in Hrun. injection Hrun as <-. now rewrite Nat.add_0_r.
  - cbn [seq for_range] in Hrun.
    destruct (f start st) as [s1 |] eqn:E; cbn [bind] in Hrun; [| discriminate].
    replace (start + Datatypes.S len)%nat with (Datatypes.S start + len)%nat
      by lia.
    apply (IH (Datatypes.S start) s1).
    + intros i s s' Hi. apply Hstep. lia.
    + apply (Hstep start st s1); [lia | assumption | assumption].
    + assumption.
Qed.

Lemma for_range_returns {S : Type} (f : nat -> S -> result S)
    (range : list nat) (st : S) :
  (forall i s, In i range -> exists s', f i s = Ok s') ->
  exists st', for_range f range st = Ok st'.
Proof.
  revert st. induction range as [| i rest IH]; intros st H.
  - now exists st.
  - cbn [for_range]. destruct (H i st (or_introl eq_refl)) as [s1 E].
    rewrite E. cbn [bind]. apply IH. intros j s Hj. apply H. now right.
Qed.

Lemma sound_line (m t : point) :
  rounded_point m -> rounded_point t ->
  sound (LINE (fst m, snd m, 0) (fst t, snd t, 0)).
Proof.
  intros [Hm1 Hm2] [Ht1 Ht2]. unfold sound, emitted, arc_radius_nonzero, coords.
  unfold px, py, pz; cbn [fst snd].
  repeat split; try reflexivity. repeat constructor; assumption.
Qed.

Lemma sound_arc (c : point) (r sa ea : R) :
  rounded_point c -> r <> 0 -> sound (ARC c r sa ea).
Proof.
  intros [Hc1 Hc2] Hr. unfold sound, emitted, arc_radius_nonzero, coords.
  repeat split; try assumption. repeat constructor; assumption.
Qed.

Section LoopInvariant.

Variables (radius : R) (skip : bool) (points : list point).
Variables (ms0 : modelspace) (first0 : point).

Definition loop_inv (i : nat) (st : loop_state) : Prop :=
  (exists out, space st = ms0 ++ out /\ Forall sound out) /\
  (i <> 0%nat -> rounded_point (memory st)) /\
  (first st = first0 \/ rounded_point (first st)).

Lemma body_keeps_inv (i : nat) (st st' : loop_state) :
  loop_inv i st -> body radius skip points i st = Ok st' ->
  loop_inv (S i) st'.
Proof.
  intros [[out [Hsp Hout]] [Hmem Hfirst]] Hbody.
  destruct (body_inv _ _ _ _ _ _ Hbody)
    as [p0 [p1 [p2 [_ [_ [_ [[Hr [ms1 [t1 [t2 [Hf ->]]]]] | [Hr ->]]]]]]]].
  - destruct (add_fillet_inv _ _ _ _ _ _ _ Hf)
      as [c [sa [ea [-> [Hc [Ht1 Ht2]]]]]].
    cbn [fst snd] in Ht1, Ht2.
    set (r := vertex_radius _ _ _ _ _) in *.
    assert (Harc : Forall sound (out ++ [ARC c r sa ea])).
    { apply Forall_app. split; [assumption |].
      constructor; [| constructor]. now apply sound_arc. }
    destruct (i =? 0)%nat eqn:Ei.
    + split; [| split]; cbn [space memory first].
      * exists (out ++ [ARC c r sa ea]).
        split; [now rewrite Hsp, <- app_assoc | exact Harc].
      * intros _. exact Ht2.
      * now right.
    + apply Nat.eqb_neq in Ei. specialize (Hmem Ei).
      destruct (Rneb _ 0); (split; [| split]); cbn [space memory first];
        try (intros _; exact Ht2); try exact Hfirst.
      * exists ((out ++ [ARC c r sa ea]) ++
                [LINE (fst (memory st), snd (memory st), 0)
                      (fst t1, snd t1, 0)]).
        split; [unfold add_line; now rewrite Hsp, <- !app_assoc |].
        apply Forall_app. split; [exact Harc |].
        constructor; [| constructor]. now apply sound_line.
      * exists (out ++ [ARC c r sa ea]).
        split; [now rewrite Hsp, <- app_assoc | exact Harc].
  - unfold after_pass. destruct (i =? 0)%nat eqn:Ei.
    + split; [| split]; cbn [space memory first]; try exact Hfirst.
      * exists out. now split.
      * intros _. apply rounded_round_point.
    + apply Nat.eqb_neq in Ei. specialize (Hmem Ei).
      split; [| split]; cbn [space memory first]; try exact Hfirst.
      * exists (out ++ [LINE (fst (memory st), snd (memory st), 0)
                             (fst (round_point p1), snd (round_point p1), 0)]).
        split; [unfold add_line; now rewrite Hsp, <- app_assoc |].
        apply Forall_app. split; [assumption |].
        constructor; [| constructor].
        apply sound_line; [assumption | apply rounded_round_point].
      * intros _. apply rounded_round_point.
Qed.

End LoopInvariant.

Lemma rebuild_nil (radius : R) (skip : bool) (ms : modelspace) (nb : nat) :
  rebuild radius skip [] ms nb = Raise IndexError.
Proof. unfold rebuild. now rewrite index_nil. Qed.

(** A non-empty contour without singular vertex is rebuilt: no exception. *)
Lemma rebuild_returns (radius : R) (skip : bool) (points : list point)
    (ms : modelspace) (nb : nat) :
  points <> [] ->
  (forall i, (i < length points)%nat -> regular radius skip points i) ->
  exists m0 st,
    index points (-1) = Ok m0 /\
    for_range (body radius skip points) (seq 0 (length points))
              (mkState ms nb (hd (0, 0) points) m0) = Ok st /\
    rebuild radius skip points ms nb
      = Ok (add_line (space st) (memory st) (first st), S (nb_lines st)).
Proof.
  intros Hne Hreg. destruct points as [| p l]; [contradiction |].
  assert (Hlen : (0 < length (p :: l))%nat) by (cbn; lia).
  pose proof (index_prev (p :: l) 0 (0, 0) Hlen) as Hm.
  change (Z.of_nat 0 - 1)%Z with (-1)%Z in Hm. cbn [Nat.eqb] in Hm.
  destruct (for_range_returns (body radius skip (p :: l))
              (seq 0 (length (p :: l)))
              (mkState ms nb (hd (0, 0) (p :: l))
                       (nth (length (p :: l) - 1) (p :: l) (0, 0))))
    as [st Hst].
  { intros i s Hin. apply in_seq in Hin. apply body_returns; [lia |].
    apply Hreg. lia. }
  eexists. exists st. split; [exact Hm |]. split; [exact Hst |].
  unfold rebuild. rewrite Hm. cbn [bind].
  change (0 <? length (p :: l))%nat with true. cbv iota.
  rewrite Hst. reflexivity.
Qed.

(** A contour that is rebuilt without an exception is not empty; the
    drawing grows by sound arcs and lines, followed by the closing line
    from a rounded point to the recorded first point, which is rounded
    unless it is still the raw first vertex. *)
Lemma rebuild_inv (radius : R) (skip : bool) (points : list point)
    (ms : modelspace) (nb : nat) (ms' : modelspace) (nb' : nat) :
  rebuild radius skip points ms nb = Ok (ms', nb') ->
  points <> [] /\
  exists out m f,
    ms' = ms ++ out ++ [LINE (fst m, snd m, 0) (fst f, snd f, 0)] /\
    Forall sound out /\ rounded_point m /\
    (f = hd (0, 0) points \/ rounded_point f).
Proof.
  unfold rebuild. destruct points as [| p l].
  - rewrite index_nil. discriminate.
  - intros H. split; [discriminate |].
    destruct (index (p :: l) (-1)) as [m0 |]; cbn [bind] in H; [| discriminate].
    destruct (for_range _ _ _) as [st |] eqn:Hloop; cbn [bind] in H;
      [| discriminate].
    change (0 <? length (p :: l))%nat with true in *. cbv iota in H, Hloop.
    injection H as <- <-.
    apply (for_range_seq_invariant _
             (loop_inv ms (hd (0, 0) (p :: l)))) in Hloop.
    + destruct Hloop as [[out [Hsp Hout]] [Hmem Hfirst]].
      exists out, (memory st), (first st).
      split; [unfold add_line; now rewrite Hsp, <- app_assoc |].
      split; [assumption |]. split; [apply Hmem; discriminate | assumption].
    + intros i s s' _. apply body_keeps_inv.
    + split; [| split]; cbn [space memory first].
      * exists []. split; [now rewrite app_nil_r | constructor].
      * intros Z. now contradiction Z.
      * now left.
Qed.

Lemma rebuild_emitted (radius : R) (skip : bool) (points : list point)
    (ms : modelspace) (nb : nat) (out : modelspace) (nb' : nat) :
  rebuild radius skip points ms nb = Ok (ms ++ out, nb') ->
  Forall emitted out.
Proof.
  intros H. destruct (rebuild_inv _ _ _ _ _ _ _ H)
    as [_ [out' [m [f [E [Hout _]]]]]].
  apply app_inv_head in E. subst out.
  apply Forall_app. split.
  - eapply Forall_impl; [| exact Hout]. intros e He. apply He.
  - constructor; [| constructor]. cbn [emitted]. unfold pz; cbn [snd]. tauto.
Qed.

(** When the first vertex is already rounded, so is every coordinate of
    the rebuilt contour. *)
Lemma rebuild_coords_rounded (radius : R) (skip : bool) (points : list point)
    (ms : modelspace) (nb : nat) (out : modelspace) (nb' : nat) :
  rebuild radius skip points ms nb = Ok (ms ++ out, nb') ->
  rounded_point (hd (0, 0) points) ->
  Forall (fun e => Forall rounded (coords e)) out.
Proof.
  intros H Hhd. destruct (rebuild_inv _ _ _ _ _ _ _ H)
    as [_ [out' [m [f [E [Hout [Hm Hf]]]]]]].
  apply app_inv_head in E. subst out.
  apply Forall_app. split.
  - eapply Forall_impl; [| exact Hout]. intros e He. apply He.
  - assert (Hf' : rounded_point f) by (destruct Hf as [-> | Hf]; assumption).
    constructor; [| constructor].
    apply (sound_line m f Hm Hf').
Qed.

(** A contour of one point: the only vertex has two edges of length zero,
    is left sharp, and the closing line has length zero. *)
Lemma rebuild_single_point (radius : R) (skip : bool) (ms : modelspace)
    (nb : nat) :
  0 <= radius ->
  rebuild radius skip [(0, 0)] ms nb
    = Ok (ms ++ [LINE (0, 0, 0) (0, 0, 0)], S nb).
Proof.
  intros Hr. unfold rebuild.
  change (index [(0, 0)] (-1)) with (@Ok point (0, 0)). cbn [bind].
  change (seq 0 (length [(0, 0)])) with [0%nat]. cbn [for_range].
  assert (R0 : round_point (0, 0) = (0, 0))
    by (apply round_point_id; split; apply rounded_IZR).
  rewrite (body_pass radius skip [(0, 0)] 0 _ (0, 0) (0, 0) (0, 0));
    try reflexivity.
  - cbn [bind]. unfold after_pass. cbn [Nat.eqb space memory first nb_lines].
    change (0 <? length [(0, 0)])%nat with true. cbv iota.
    rewrite R0. reflexivity.
  - apply vertex_radius_zero_edge; [assumption |]. left.
    rewrite R0. now apply distance_zero_iff.
Qed.

(** The divisor of line 41 at a vertex distinct from both neighbours. *)
Lemma divisor_zero_iff (p0 p1 p2 : point) :
  p0 <> p1 -> p2 <> p1 ->
  (divisor p0 p1 p2 = 0 <-> turn p0 p1 p2 = 0 /\ 0 < edge_dot p0 p1 p2).
Proof.
  intros N0 N2.
  destruct p0 as [x0 y0], p1 as [x1 y1], p2 as [x2 y2].
  assert (H1 : (x0 - x1, y0 - y1) <> (0, 0)).
  { intros E. injection E as E1 E2. apply N0. f_equal; lra. }
  assert (H2 : (x2 - x1, y2 - y1) <> (0, 0)).
  { intros E. injection E as E1 E2. apply N2. f_equal; lra. }
  pose proof (atan2_bounds (y0 - y1) (x0 - x1)) as B1.
  pose proof (atan2_bounds (y2 - y1) (x2 - x1)) as B2.
  pose proof (half_sine_zero _ _ B1 B2) as Hz.
  pose proof (angle_difference_cases _ _ _ _ H1 H2) as Hcases.
  destruct (polar_cross_dot _ _ _ _ H1 H2) as [Ec Ed].
  pose proof (norm_pos _ _ H1) as P1. pose proof (norm_pos _ _ H2) as P2.
  unfold divisor, turn, edge_dot; cbn [fst snd].
  set (a1 := atan2 (y0 - y1) (x0 - x1)) in *.
  set (a2 := atan2 (y2 - y1) (x2 - x1)) in *.
  rewrite Hz. split.
  - intros E. rewrite Ec, Ed. replace (a2 - a1) with 0 by lra.
    rewrite sin_0, cos_0. split; [ring |].
    rewrite Rmult_1_r. now apply Rmult_lt_0_compat.
  - intros [Ht Hd]. destruct (Hcases Ht) as [[_ E] | [Hneg _]]; lra.
Qed.

Lemma divisor_nonzero (p0 p1 p2 : point) :
  turn p0 p1 p2 <> 0 -> divisor p0 p1 p2 <> 0.
Proof.
  intros Hturn Hd. destruct (corner_apart p0 p1 p2 Hturn) as [A0 A2].
  apply divisor_zero_iff in Hd; [| congruence | congruence].
  destruct Hd as [Ht _]. contradiction.
Qed.

(** A vertex that is not regular stops the loop. *)
Lemma body_raises (radius : R) (skip : bool) (points : list point) (i : nat)
    (st : loop_state) :
  (i < length points)%nat -> ~ regular radius skip points i ->
  body radius skip points i st = Raise ZeroDivisionError.
Proof.
  intros Hi Hreg.
  rewrite (body_unfold radius skip points i st _ _ _
             (index_prev points i (0, 0) Hi) (index_nth points i (0, 0) Hi)
             (index_next points i (0, 0) Hi)).
  cbv zeta. unfold regular, triple in Hreg.
  rewrite Rneb_true by tauto.
  rewrite add_fillet_raises; [reflexivity |].
  destruct (Req_dec_T (divisor
     (round_point (nth (if (i =? 0)%nat then length points - 1
                        else i - 1)%nat points (0, 0)))
     (round_point (nth i points (0, 0)))
     (round_point (nth ((i + 1) mod length points)%nat points (0, 0)))) 0)
    as [Z | N]; [exact Z | tauto].
Qed.

Lemma regular_dec (radius : R) (skip : bool) (points : list point) (i : nat) :
  regular radius skip points i \/ ~ regular radius skip points i.
Proof.
  unfold regular. destruct (triple points i) as [[q0 q1] q2].
  destruct (Req_dec_T (vertex_radius radius skip q0 q1 q2) 0);
    destruct (Req_dec_T (divisor q0 q1 q2) 0); tauto.
Qed.

Lemma for_range_raises (radius : R) (skip : bool) (points : list point)
    (range : list nat) (st : loop_state) :
  (forall i, In i range -> (i < length points)%nat) ->
  (exists i, In i range /\ ~ regular radius skip points i) ->
  for_range (body radius skip points) range st = Raise ZeroDivisionError.
Proof.
  revert st. induction range as [| j rest IH]; intros st Hlt [i [Hin Hi]].
  - contradiction.
  - cbn [for_range].
    destruct (regular_dec radius skip points j) as [Hj | Hj].
    + destruct (body_returns radius skip points j st
                  (Hlt j (or_introl eq_refl)) Hj) as [s1 E].
      rewrite E. cbn [bind]. apply IH.
      * intros k Hk. apply Hlt. now right.
      * destruct Hin as [<- | Hin]; [contradiction |]. now exists i.
    + rewrite body_raises; [reflexivity | | assumption].
      apply Hlt. now left.
Qed.

Lemma rebuild_raises (radius : R) (skip : bool) (points : list point)
    (ms : modelspace) (nb : nat) :
  (exists i, (i < length points)%nat /\ ~ regular radius skip points i) ->
  rebuild radius skip points ms nb = Raise ZeroDivisionError.
Proof.
  intros [i [Hi Hn]]. unfold rebuild.
  pose proof (index_prev points 0 (0, 0)) as Hm.
  change (Z.of_nat 0 - 1)%Z with (-1)%Z in Hm.
  rewrite Hm by lia. cbn [bind].
  rewrite for_range_raises; [reflexivity | |].
  - intros k Hk. apply in_seq in Hk. lia.
  - exists i. split; [apply in_seq; lia | assumption].
Qed.

Lemma divisor_same_neighbour (q0 q1 : point) : divisor q0 q1 q0 = 0.
Proof.
  unfold divisor. cbv zeta.
  rewrite Rminus_diag, Rabs_R0.
  replace (0 / 2) with 0 by field. apply sin_0.
Qed.

(** The states of a loop that ran to its end, one before each index and
    the last one. *)
Lemma for_range_run {S : Type} (f : nat -> S -> result S)
    (len start : nat) (st st' : S) :
  for_range f (seq start len) st = Ok st' ->
  exists run : nat -> S,
    run start = st /\
    (forall i, (start <= i < start + len)%nat ->
               f i (run i) = Ok (run (Datatypes.S i))) /\
    run (start + len)%nat = st'.
Proof.
  revert start st. induction len as [| len IH]; intros start st Hrun.
  - cbn in Hrun. injection Hrun as <-. exists (fun _ => st).
    split; [reflexivity |]. split; [intros i Hi; lia | reflexivity].
  - cbn [seq for_range] in Hrun.
    destruct (f start st) as [s1 |] eqn:E; cbn [bind] in Hrun; [| discriminate].
    destruct (IH (Datatypes.S start) s1 Hrun) as [run [H0 [Hstep Hend]]].
    exists (fun i => if (i <=? start)%nat then st else run i).
    split; [now rewrite Nat.leb_refl |]. split.
    + intros i Hi. destruct (Nat.eq_dec i start) as [-> | Ne].
      * rewrite Nat.leb_refl.
        replace (Datatypes.S start <=? start)%nat with false
          by (symmetry; apply Nat.leb_gt; lia).
        now rewrite H0.
      * replace (i <=? start)%nat with false
          by (symmetry; apply Nat.leb_gt; lia).
        replace (Datatypes.S i <=? start)%nat with false
          by (symmetry; apply Nat.leb_gt; lia).
        apply Hstep. lia.
    + replace (start + Datatypes.S len <=? start)%nat with false
        by (symmetry; apply Nat.leb_gt; lia).
      now rewrite Nat.add_succ_r.
Qed.

(** C5 (amended).  At a filleted vertex of index [i > 0] the line from the
    current position to the first tangent point is added exactly when
    their distance is not zero.  The rebuild of a contour returns exactly
    when the contour is not empty and none of its vertices is singular (a
    filleted vertex with a zero divisor).  When it returns, the loop has
    run its body at every index, in order, from the state set up by lines
    86-89; at every filleted vertex after the first the connecting line is
    there or not according to the distance; and after the loop the closing
    line from the current position to the recorded first point is added
    whatever its length. *)
Theorem C5_connecting_and_closing_lines
    (radius : R) (skip : bool) (points : list point) :
  (forall i st p0 p1 p2 ms1 t1 t2,
     i <> 0%nat ->
     index points (Z.of_nat i - 1) = Ok p0 ->
     index points (Z.of_nat i) = Ok p1 ->
     index points ((Z.of_nat i + 1) mod Z.of_nat (length points)) = Ok p2 ->
     let q0 := round_point p0 in
     let q1 := round_point p1 in
     let q2 := round_point p2 in
     let r := vertex_radius radius skip q0 q1 q2 in
     r <> 0 ->
     add_fillet (space st) q0 q1 q2 r = Ok (ms1, (t1, t2)) ->
     exists st',
       body radius skip points i st = Ok st' /\
       (distance (memory st) t1 <> 0 ->
        space st' = add_line ms1 (memory st) t1) /\
       (distance (memory st) t1 = 0 -> space st' = ms1)) /\
  (forall ms nb,
     (exists res, rebuild radius skip points ms nb = Ok res) <->
     points <> [] /\
     forall i, (i < length points)%nat -> regular radius skip points i) /\
  (forall ms nb ms' nb',
     rebuild radius skip points ms nb = Ok (ms', nb') ->
     exists (m0 : point) (run : nat -> loop_state),
       index points (-1) = Ok m0 /\
       run 0%nat = mkState ms nb (hd (0, 0) points) m0 /\
       (forall i, (i < length points)%nat ->
          body radius skip points i (run i) = Ok (run (S i))) /\
       (forall i, (0 < i < length points)%nat ->
          let '(q0, q1, q2) := triple points i in
          let r := vertex_radius radius skip q0 q1 q2 in
          r <> 0 ->
          exists ms1 t1 t2,
            add_fillet (space (run i)) q0 q1 q2 r = Ok (ms1, (t1, t2)) /\
            (distance (memory (run i)) t1 <> 0 ->
             space (run (S i)) = add_line ms1 (memory (run i)) t1) /\
            (distance (memory (run i)) t1 = 0 -> space (run (S i)) = ms1)) /\
       ms' = add_line (space (run (length points)))
                      (memory (run (length points)))
                      (first (run (length points))) /\
       nb' = S (nb_lines (run (length points)))).
Proof.
  assert (Step : forall i st p0 p1 p2 ms1 t1 t2,
     i <> 0%nat ->
     index points (Z.of_nat i - 1) = Ok p0 ->
     index points (Z.of_nat i) = Ok p1 ->
     index points ((Z.of_nat i + 1) mod Z.of_nat (length points)) = Ok p2 ->
     let q0 := round_point p0 in
     let q1 := round_point p1 in
     let q2 := round_point p2 in
     let r := vertex_radius radius skip q0 q1 q2 in
     r <> 0 ->
     add_fillet (space st) q0 q1 q2 r = Ok (ms1, (t1, t2)) ->
     exists st',
       body radius skip points i st = Ok st' /\
       (distance (memory st) t1 <> 0 ->
        space st' = add_line ms1 (memory st) t1) /\
       (distance (memory st) t1 = 0 -> space st' = ms1)).
  { intros i st p0 p1 p2 ms1 t1 t2 Hi H0 H1 H2 q0 q1 q2 r Hr Hf.
    rewrite (body_unfold radius skip points i st p0 p1 p2 H0 H1 H2).
    cbv zeta. fold q0 q1 q2 r. rewrite (Rneb_true r 0) by assumption.
    rewrite Hf. cbn [bind]. eexists. split; [reflexivity |].
    unfold fillet_step; cbn [fst snd].
    apply Nat.eqb_neq in Hi. rewrite Hi.
    split; intros Hd.
    + rewrite Rneb_true by assumption. reflexivity.
    + rewrite Rneb_false by assumption. reflexivity. }
  split; [exact Step |]. split.
  - intros ms nb. split.
    + intros [res Hres]. destruct points as [| p l].
      * rewrite rebuild_nil in Hres. discriminate Hres.
      * split; [discriminate |]. intros i Hi.
        destruct (regular_dec radius skip (p :: l) i) as [Hreg | Hn];
          [assumption |].
        rewrite rebuild_raises in Hres by (exists i; now split).
        discriminate Hres.
    + intros [Hne Hreg].
      destruct (rebuild_returns radius skip points ms nb Hne Hreg)
        as [m0 [st [_ [_ E]]]].
      eexists. exact E.
  - intros ms nb ms' nb' H. unfold rebuild in H.
    destruct points as [| p l]; [rewrite index_nil in H; discriminate H |].
    destruct (index (p :: l) (-1)) as [m0 |] eqn:Hm; cbn [bind] in H;
      [| discriminate].
    destruct (for_range _ _ _) as [st |] eqn:Hloop; cbn [bind] in H;
      [| discriminate].
    change (0 <? length (p :: l))%nat with true in *. cbv iota in H, Hloop.
    injection H as <- <-.
    destruct (for_range_run _ _ _ _ _ Hloop) as [run [H0 [Hstep Hend]]].
    cbn [Nat.add] in Hend.
    exists m0, run. split; [reflexivity |]. split; [exact H0 |].
    split; [intros i Hi; apply Hstep; lia |].
    split; [| rewrite Hend; now split].
    intros i Hi.
    assert (Hlt : (i < length (p :: l))%nat) by lia.
    pose proof (index_prev (p :: l) i (0, 0) Hlt) as I0.
    pose proof (index_nth (p :: l) i (0, 0) Hlt) as I1.
    pose proof (index_next (p :: l) i (0, 0) Hlt) as I2.
    unfold triple. cbv zeta. intros Hr.
    assert (Hb : body radius skip (p :: l) i (run i) = Ok (run (S i)))
      by (apply Hstep; lia).
    destruct (add_fillet (space (run i))
                (round_point (nth (if (i =? 0)%nat
                                   then length (p :: l) - 1 else i - 1)%nat
                                  (p :: l) (0, 0)))
                (round_point (nth i (p :: l) (0, 0)))
                (round_point (nth ((i + 1) mod length (p :: l))%nat
                                  (p :: l) (0, 0)))
                (vertex_radius radius skip
                   (round_point (nth (if (i =? 0)%nat
                                      then length (p :: l) - 1 else i - 1)%nat
                                     (p :: l) (0, 0)))
                   (round_point (nth i (p :: l) (0, 0)))
                   (round_point (nth ((i + 1) mod length (p :: l))%nat
                                     (p :: l) (0, 0)))))
      as [[ms1 [t1 t2]] |] eqn:Hf.
    + exists ms1, t1, t2. split; [reflexivity |].
      assert (Hi0 : i <> 0%nat) by lia.
      destruct (Step i (run i) _ _ _ ms1 t1 t2 Hi0 I0 I1 I2 Hr Hf)
        as [st' [Hb' [Hl Hn]]].
      rewrite Hb in Hb'. injection Hb' as <-. now split.
    + exfalso.
      rewrite (body_unfold radius skip (p :: l) i (run i) _ _ _ I0 I1 I2)
        in Hb.
      cbv zeta in Hb. rewrite (Rneb_true _ 0 Hr), Hf in Hb.
      discriminate Hb.
Qed.

Lemma C5_witness :
  (exists st',
     body 2 true [(0, 10); (0, 0); (10, 0)] 1 (mkState [] 0 (0, 0) (0, 7))
       = Ok st' /\
     (distance (0, 7) (0, 2) <> 0 ->
      space st' = add_line ([] ++ [ARC (2, 2) 2 180 (-90)]) (0, 7) (0, 2)) /\
     (distance (0, 7) (0, 2) = 0 ->
      space st' = [] ++ [ARC (2, 2) 2 180 (-90)])) /\
  exists ms' nb',
    rebuild 2 true [(0, 10); (0, 0); (10, 0)] [] 0 = Ok (ms', nb') /\
    exists (m0 : point) (run : nat -> loop_state),
      index [(0, 10); (0, 0); (10, 0)] (-1) = Ok m0 /\
      run 0%nat = mkState [] 0 (hd (0, 0) [(0, 10); (0, 0); (10, 0)]) m0 /\
      (forall i, (i < 3)%nat ->
         body 2 true [(0, 10); (0, 0); (10, 0)] i (run i) = Ok (run (S i))) /\
      (forall i, (0 < i < 3)%nat ->
         let '(q0, q1, q2) := triple [(0, 10); (0, 0); (10, 0)] i in
         let r := vertex_radius 2 true q0 q1 q2 in
         r <> 0 ->
         exists ms1 t1 t2,
           add_fillet (space (run i)) q0 q1 q2 r = Ok (ms1, (t1, t2)) /\
           (distance (memory (run i)) t1 <> 0 ->
            space (run (S i)) = add_line ms1 (memory (run i)) t1) /\
           (distance (memory (run i)) t1 = 0 -> space (run (S i)) = ms1)) /\
      ms' = add_line (space (run 3%nat)) (memory (run 3%nat))
                     (first (run 3%nat)) /\
      nb' = S (nb_lines (run 3%nat)).
Proof.
  assert (Ra : round_point (0, 10) = (0, 10))
    by (apply round_point_id; split; apply rounded_IZR).
  assert (Rb : round_point (0, 0) = (0, 0))
    by (apply round_point_id; split; apply rounded_IZR).
  assert (Rc : round_point (10, 0) = (10, 0))
    by (apply round_point_id; split; apply rounded_IZR).
  assert (E1 : distance (0, 10) (0, 0) = 10)
    by (apply distance_eq; [lra | unfold dsq; cbn [fst snd]; ring]).
  assert (E2 : distance (0, 0) (10, 0) = 10)
    by (apply distance_eq; [lra | unfold dsq; cbn [fst snd]; ring]).
  assert (Hv : vertex_radius 2 true (0, 10) (0, 0) (10, 0) = 2).
  { unfold vertex_radius. rewrite E1, E2. rewrite Rgtb_true by lra.
    reflexivity. }
  assert (Hreg : forall i, (i < length [(0, 10); (0, 0); (10, 0)])%nat ->
                   regular 2 true [(0, 10); (0, 0); (10, 0)] i).
  { intros i Hi. unfold regular.
    destruct i as [| [| [| i]]]; [| | | cbn in Hi; lia].
    - change (triple [(0, 10); (0, 0); (10, 0)] 0)
        with (round_point (10, 0), round_point (0, 10), round_point (0, 0)).
      cbv beta iota. right. rewrite Ra, Rb, Rc. apply divisor_nonzero.
      unfold turn; cbn [fst snd]. lra.
    - change (triple [(0, 10); (0, 0); (10, 0)] 1)
        with (round_point (0, 10), round_point (0, 0), round_point (10, 0)).
      cbv beta iota. right. rewrite Ra, Rb, Rc. apply divisor_nonzero.
      unfold turn; cbn [fst snd]. lra.
    - change (triple [(0, 10); (0, 0); (10, 0)] 2)
        with (round_point (0, 0), round_point (10, 0), round_point (0, 10)).
      cbv beta iota. right. rewrite Ra, Rb, Rc. apply divisor_nonzero.
      unfold turn; cbn [fst snd]. lra. }
  destruct (C5_connecting_and_closing_lines 2 true
              [(0, 10); (0, 0); (10, 0)]) as [P1 [P2 P3]].
  split.
  - apply (P1 1%nat (mkState [] 0 (0, 0) (0, 7)) (0, 10) (0, 0) (10, 0)
              ([] ++ [ARC (2, 2) 2 180 (-90)]) (0, 2) (2, 0));
      try reflexivity; try discriminate.
    + rewrite Ra, Rb, Rc, Hv. lra.
    + rewrite Ra, Rb, Rc, Hv. cbn [space].
      rewrite add_fillet_exact; [| unfold turn; cbn [fst snd]; lra | lra].
      rewrite right_corner_angles, right_corner_points by apply rounded_IZR.
      reflexivity.
  - destruct (proj2 (P2 [] 0%nat)) as [[ms' nb'] Hres].
    { split; [discriminate | exact Hreg]. }
    exists ms', nb'. split; [exact Hres |].
    exact (P3 [] 0%nat ms' nb' Hres).
Defined.

(** C5 as stated fails: a contour that is not empty need not get its
    closing line.  On the contour (0,0), (20,0) with radius 5 the first
    vertex is filleted, both its neighbours are the other vertex, the
    divisor of line 41 is zero and [add_fillet] raises inside the loop:
    line 116 is not reached and no entity is added. *)
Lemma C5_counterexample :
  [(0, 0); (20, 0)] <> @nil point /\
  (forall ms nb,
     rebuild 5 true [(0, 0); (20, 0)] ms nb = Raise ZeroDivisionError) /\
  main [LWPOLYLINE 0 [(0, 0); (20, 0)]] 5 true = Raise ZeroDivisionError.
Proof.
  assert (R0 : round_point (0, 0) = (0, 0))
    by (apply round_point_id; split; apply rounded_IZR).
  assert (R1 : round_point (20, 0) = (20, 0))
    by (apply round_point_id; split; apply rounded_IZR).
  assert (D : distance (20, 0) (0, 0) = 20)
    by (apply distance_eq; [lra | unfold dsq; cbn [fst snd]; ring]).
  assert (D' : distance (0, 0) (20, 0) = 20)
    by (apply distance_eq; [lra | unfold dsq; cbn [fst snd]; ring]).
  assert (H : forall ms nb,
     rebuild 5 true [(0, 0); (20, 0)] ms nb = Raise ZeroDivisionError).
  { intros ms nb. apply rebuild_raises.
    exists 0%nat. split; [cbn; lia |]. unfold regular.
    change (triple [(0, 0); (20, 0)] 0)
      with (round_point (20, 0), round_point (0, 0), round_point (20, 0)).
    cbv beta iota. rewrite divisor_same_neighbour, R0, R1.
    intros [Hz | Hd]; [| now apply Hd].
    unfold vertex_radius in Hz. rewrite D, D' in Hz.
    rewrite Rgtb_true in Hz by lra. cbn [andb] in Hz. lra. }
  split; [discriminate |]. split; [exact H |].
  unfold main. cbn [filter is_contour rebuild_all get_points].
  rewrite Rabs_right by lra. rewrite H. reflexivity.
Qed.

(** C10.  With the radius made non-negative by [main], a vertex with an
    adjacent edge of length zero gets radius 0 under either policy (for
    skip = False because half the shorter edge is 0); a vertex of radius 0
    goes through the branch without fillet, so that [add_fillet] is not
    called for it; and every arc that a rebuilt contour adds has a non-zero
    radius. *)
Theorem C10_no_zero_radius_fillet (radius : R) (skip : bool) :
  (forall p0 p1 p2,
     distance p0 p1 = 0 \/ distance p1 p2 = 0 ->
     Rmin (distance p0 p1) (distance p1 p2) / 2 = 0 /\
     vertex_radius (Rabs radius) skip p0 p1 p2 = 0) /\
  (forall points i st p0 p1 p2,
     index points (Z.of_nat i - 1) = Ok p0 ->
     index points (Z.of_nat i) = Ok p1 ->
     index points ((Z.of_nat i + 1) mod Z.of_nat (length points)) = Ok p2 ->
     vertex_radius (Rabs radius) skip
       (round_point p0) (round_point p1) (round_point p2) = 0 ->
     body (Rabs radius) skip points i st
       = Ok (after_pass i st (round_point p1))) /\
  (forall points ms nb ms' nb',
     rebuild (Rabs radius) skip points ms nb = Ok (ms', nb') ->
     exists out, ms' = ms ++ out /\ Forall arc_radius_nonzero out).
Proof.
  split; [| split].
  - intros p0 p1 p2 Hz. split.
    + pose proof (distance_nonneg p0 p1). pose proof (distance_nonneg p1 p2).
      destruct Hz as [Z | Z].
      * rewrite Rmin_zero_left by assumption. field.
      * rewrite Rmin_zero_right by assumption. field.
    + apply vertex_radius_zero_edge; [apply Rabs_pos | assumption].
  - intros points i st p0 p1 p2 H0 H1 H2 Hz.
    exact (body_pass _ _ _ _ _ p0 p1 p2 H0 H1 H2 Hz).
  - intros points ms nb ms' nb' H.
    destruct (rebuild_inv _ _ _ _ _ _ _ H) as [_ [out [m [f [E [Hout _]]]]]].
    exists (out ++ [LINE (fst m, snd m, 0) (fst f, snd f, 0)]).
    split; [exact E |]. apply Forall_app. split.
    + eapply Forall_impl; [| exact Hout]. intros e He. apply He.
    + constructor; [exact I | constructor].
Qed.

Lemma C10_witness :
  (Rmin (distance (0, 0) (0, 0)) (distance (0, 0) (1, 0)) / 2 = 0 /\
   vertex_radius (Rabs 5) false (0, 0) (0, 0) (1, 0) = 0) /\
  body (Rabs 5) false [(0, 0); (0, 0); (1, 0)] 1 (mkState [] 0 (0, 0) (0, 0))
    = Ok (after_pass 1 (mkState [] 0 (0, 0) (0, 0)) (round_point (0, 0))) /\
  exists out, [] ++ [LINE (0, 0, 0) (0, 0, 0)] = [] ++ out /\
              Forall arc_radius_nonzero out.
Proof.
  assert (Z : distance (0, 0) (0, 0) = 0) by now apply distance_zero_iff.
  assert (R0 : round_point (0, 0) = (0, 0))
    by (apply round_point_id; split; apply rounded_IZR).
  destruct (C10_no_zero_radius_fillet 5 false) as [P1 [P2 P3]].
  split; [apply P1; now left |]. split.
  - apply (P2 [(0, 0); (0, 0); (1, 0)] 1%nat (mkState [] 0 (0, 0) (0, 0))
              (0, 0) (0, 0) (1, 0)); try reflexivity.
    rewrite R0. apply P1. left. exact Z.
  - apply (P3 [(0, 0)] [] 0%nat ([] ++ [LINE (0, 0, 0) (0, 0, 0)]) 1%nat).
    apply rebuild_single_point. apply Rabs_pos.
Defined.

(** ** The sanitizer *)

Lemma flatten_flat (e : entity) :
  (forall z, dxf_elevation (flatten e) = Some z -> z = 0) /\
  (forall s, dxf_start (flatten e) = Some s -> pz s = 0) /\
  (forall t, dxf_end (flatten e) = Some t -> pz t = 0).
Proof.
  destruct e as [c r a b | s t | z pts | l | n [z |] [s |] [t |] c0];
    unfold flatten; cbn; repeat split; intros x Hx;
    try discriminate Hx; injection Hx as <-; reflexivity.
Qed.

Lemma flatten_emitted (e : entity) : emitted e -> flatten e = e.
Proof.
  destruct e as [c r a b | s t | | |]; cbn [emitted]; try tauto.
  intros [Hs Ht]. destruct s as [[sx sy] sz], t as [[tx ty] tz].
  unfold pz in *; cbn [snd] in *. subst. reflexivity.
Qed.

Lemma checks_emitted (ms : modelspace) :
  Forall emitted ms -> cleaned (checks ms) = ms.
Proof.
  intros H. unfold checks; cbn [cleaned].
  induction H as [| e l He Hl IH]; [reflexivity |].
  cbn [map filter]. rewrite (flatten_emitted e He).
  destruct e; cbn [emitted] in He; try contradiction;
    cbn [is_type dxftype String.eqb negb]; cbn; now rewrite IH.
Qed.

Lemma flatten_center (e : entity) : dxf_center (flatten e) = dxf_center e.
Proof.
  destruct e as [c r a b | s t | z pts | l | n [z |] [s |] [t |] c0];
    reflexivity.
Qed.

(** C9 (amended).  After [checks], every entity left in the drawing has
    elevation 0 and start and end points with z = 0, whenever it has these
    attributes, and no entity of type POINT is left.  The sanitizer sets
    no other coordinate: every entity left is an entity of the input after
    lines 63-68, with the centre it had, z included. *)
Theorem C9_sanitized_drawing (ms : modelspace) (e : entity) :
  In e (cleaned (checks ms)) ->
  (forall z, dxf_elevation e = Some z -> z = 0) /\
  (forall s, dxf_start e = Some s -> pz s = 0) /\
  (forall t, dxf_end e = Some t -> pz t = 0) /\
  dxftype e <> "POINT"%string /\
  exists e0, In e0 ms /\ e = flatten e0 /\ dxf_center e = dxf_center e0.
Proof.
  unfold checks; cbn [cleaned]. intros Hin.
  apply filter_In in Hin. destruct Hin as [Hmap Hty].
  apply in_map_iff in Hmap. destruct Hmap as [e0 [<- Hin0]].
  destruct (flatten_flat e0) as [H1 [H2 H3]].
  split; [assumption |]. split; [assumption |]. split; [assumption |].
  split.
  - unfold is_type in Hty. intros E. rewrite E in Hty. discriminate Hty.
  - exists e0. split; [assumption |]. split; [reflexivity |].
    apply flatten_center.
Qed.

Lemma C9_witness :
  (forall z, dxf_elevation (LINE (1, 2, 0) (4, 5, 0)) = Some z -> z = 0) /\
  (forall s, dxf_start (LINE (1, 2, 0) (4, 5, 0)) = Some s -> pz s = 0) /\
  (forall t, dxf_end (LINE (1, 2, 0) (4, 5, 0)) = Some t -> pz t = 0) /\
  dxftype (LINE (1, 2, 0) (4, 5, 0)) <> "POINT"%string /\
  exists e0,
    In e0 [LINE (1, 2, 3) (4, 5, 6); POINT (7, 8, 9)] /\
    LINE (1, 2, 0) (4, 5, 0) = flatten e0 /\
    dxf_center (LINE (1, 2, 0) (4, 5, 0)) = dxf_center e0.
Proof.
  apply (C9_sanitized_drawing [LINE (1, 2, 3) (4, 5, 6); POINT (7, 8, 9)]).
  left. reflexivity.
Defined.

(** C9 as stated fails: [checks] sets the z of start and end and the
    elevation only.  An arc read from the file with its centre at z = 3
    has none of the three attributes; it goes through the sanitizer as it
    is and stays in the drawing with z = 3. *)
Lemma C9_counterexample :
  let e := OTHER "ARC" None None None (Some (0, 0, 3)) in
  cleaned (checks [LINE (1, 2, 3) (4, 5, 6); e; POINT (7, 8, 9)])
    = [LINE (1, 2, 0) (4, 5, 0); e] /\
  warnings (checks [LINE (1, 2, 3) (4, 5, 6); e; POINT (7, 8, 9)])
    = ["POINT"%string] /\
  dxf_center e = Some (0, 0, 3) /\
  pz (0, 0, 3) <> 0.
Proof.
  cbv zeta. split; [reflexivity |]. split; [reflexivity |].
  split; [reflexivity |]. unfold pz; cbn [snd]. lra.
Qed.

(** ** The driver *)

Lemma delete_entity_head (e : entity) (ms : modelspace) :
  delete_entity (e :: ms) e = ms.
Proof.
  cbn [delete_entity]. destruct (entity_eq_dec e e); [reflexivity | congruence].
Qed.

Lemma main_single (elev : R) (pts : list point) (radius : R) (skip : bool)
    (out : modelspace) (n : nat) :
  rebuild (Rabs radius) skip pts [LWPOLYLINE elev pts] 0
    = Ok ([LWPOLYLINE elev pts] ++ out, n) ->
  main [LWPOLYLINE elev pts] radius skip = Ok (checks out, n).
Proof.
  intros H. unfold main. cbn [filter is_contour rebuild_all get_points].
  rewrite H. cbn [bind fst snd app]. now rewrite delete_entity_head.
Qed.

(** An empty contour anywhere among the contours stops the driver. *)
Lemma rebuild_all_empty_contour (radius : R) (skip : bool)
    (contours : list entity) (ms : modelspace) (nb : nat) :
  Exists (fun c => get_points c = []) contours ->
  exists e, rebuild_all radius skip contours ms nb = Raise e.
Proof.
  intros H. revert ms nb. induction H as [c l Hc | c l _ IH]; intros ms nb.
  - cbn [rebuild_all]. rewrite Hc, rebuild_nil. now exists IndexError.
  - cbn [rebuild_all].
    destruct (rebuild radius skip (get_points c) ms nb) as [res | e];
      cbn [bind]; [apply IH | now exists e].
Qed.

Lemma main_empty_contour (ms : modelspace) (elev radius : R) (skip : bool) :
  In (LWPOLYLINE elev []) ms -> exists e, main ms radius skip = Raise e.
Proof.
  intros Hin. unfold main.
  destruct (rebuild_all_empty_contour (Rabs radius) skip
              (filter is_contour ms) ms 0) as [e He].
  - apply Exists_exists. exists (LWPOLYLINE elev []). split; [| reflexivity].
    apply filter_In. now split.
  - rewrite He. now exists e.
Qed.

(** C7 (the code fails the claim).  A contour whose vertex list is empty
    is not skipped: line 89 reads [points[-1]] outside the guards of lines
    86 and 115, and [main] stops with [IndexError]. *)
Theorem C7_empty_contour_raises (elev radius : R) (skip : bool) :
  main [LWPOLYLINE elev []] radius skip = Raise IndexError.
Proof.
  unfold main. cbn [filter is_contour rebuild_all get_points].
  now rewrite rebuild_nil.
Qed.

(** C8 (the code fails the claim).  On a contour whose first vertex is
    left sharp, the closing line ends at the first vertex as read from the
    file, not at its rounding: here the x coordinate 0.0004 is emitted,
    and rounding it gives 0. *)
Theorem C8_unrounded_closing_point :
  exists rep,
    main [LWPOLYLINE 0 [(4 / 10000, 0); (1, 0); (1, 1)]] 5 true
      = Ok (rep, 1%nat) /\
    cleaned rep = [LINE (0, 0, 0) (1, 0, 0);
                   LINE (1, 0, 0) (1, 1, 0);
                   LINE (1, 1, 0) (4 / 10000, 0, 0)] /\
    In (4 / 10000) (coords (LINE (1, 1, 0) (4 / 10000, 0, 0))) /\
    round (4 / 10000) 3 <> 4 / 10000.
Proof.
  set (pts := [(4 / 10000, 0); (1, 0); (1, 1)]).
  assert (Ra : round_point (4 / 10000, 0) = (0, 0)).
  { unfold round_point; cbn [fst snd]. rewrite round_small.
    now rewrite (rounded_IZR 0). }
  assert (Rb : round_point (1, 0) = (1, 0))
    by (apply round_point_id; split; apply rounded_IZR).
  assert (Rc : round_point (1, 1) = (1, 1))
    by (apply round_point_id; split; apply rounded_IZR).
  assert (Sharp : forall p q a b,
            dsq p q <= 10 * 10 -> vertex_radius 5 true p q (a, b) = 0).
  { intros p q a b H. unfold vertex_radius.
    rewrite Rgtb_false by (apply distance_le; lra). reflexivity. }
  assert (Hre : rebuild (Rabs 5) true pts [LWPOLYLINE 0 pts] 0
                = Ok ([LWPOLYLINE 0 pts] ++
                      [LINE (0, 0, 0) (1, 0, 0);
                       LINE (1, 0, 0) (1, 1, 0);
                       LINE (1, 1, 0) (4 / 10000, 0, 0)], 1%nat)).
  { rewrite Rabs_right by lra. unfold rebuild.
    change (index pts (-1)) with (@Ok point (1, 1)). cbn [bind].
    change (seq 0 (length pts)) with [0; 1; 2]%nat.
    change (0 <? length pts)%nat with true. cbv iota. cbn [for_range].
    rewrite (body_pass 5 true pts 0 _ (1, 1) (4 / 10000, 0) (1, 0));
      try reflexivity.
    2:{ rewrite Ra, Rb, Rc. apply Sharp. unfold dsq; cbn [fst snd]. lra. }
    cbn [bind]. unfold after_pass at 1.
    cbn [Nat.eqb space memory first nb_lines].
    rewrite (body_pass 5 true pts 1 _ (4 / 10000, 0) (1, 0) (1, 1));
      try reflexivity.
    2:{ rewrite Ra, Rb, Rc. apply Sharp. unfold dsq; cbn [fst snd]. lra. }
    cbn [bind]. unfold after_pass at 1.
    cbn [Nat.eqb space memory first nb_lines].
    rewrite (body_pass 5 true pts 2 _ (1, 0) (1, 1) (4 / 10000, 0));
      try reflexivity.
    2:{ rewrite Ra, Rb, Rc. apply Sharp. unfold dsq; cbn [fst snd]. lra. }
    cbn [bind]. unfold after_pass at 1.
    cbn [Nat.eqb space memory first nb_lines].
    rewrite Ra, Rb, Rc. unfold add_line, pts.
    rewrite <- !app_assoc. cbn [app fst snd hd]. reflexivity. }
  eexists. split; [apply main_single; exact Hre |].
  split.
  - apply checks_emitted. apply (rebuild_emitted _ _ _ _ _ _ _ Hre).
  - split.
    + cbn [coords]. unfold px, py; cbn [fst snd]. right; right; left.
      reflexivity.
    + rewrite round_small. lra.
Qed.

(** ** Squares *)

Section Corner.

(** A corner [q] of the square with the quarter edges [u], towards the
    previous vertex, and [v], towards the next one; [r0], [r1], [r2] are
    the vertices as read, before rounding. *)
Variables qx qy ux uy vx vy : R.
Variables r0 r1 r2 : point.
Hypothesis Rux : rounded ux.
Hypothesis Ruy : rounded uy.
Hypothesis Rvx : rounded vx.
Hypothesis Rvy : rounded vy.
Hypothesis Hu : ux * ux + uy * uy = 25.
Hypothesis Hv : vx * vx + vy * vy = 25.
Hypothesis Huv : ux * vx + uy * vy = 0.

Let p0 : point := (qx + 4 * ux, qy + 4 * uy).
Let p1 : point := (qx, qy).
Let p2 : point := (qx + 4 * vx, qy + 4 * vy).

Hypothesis E0 : round_point r0 = p0.
Hypothesis E1 : round_point r1 = p1.
Hypothesis E2 : round_point r2 = p2.

Lemma corner_origin_rounded : rounded qx /\ rounded qy.
Proof.
  pose proof (rounded_round_point r1) as [Hx Hy]. rewrite E1 in Hx, Hy.
  split; assumption.
Qed.

Lemma corner_fillet_points :
  fillet_points p0 p1 p2 5 =
  ((qx + ux + vx, qy + uy + vy), ((qx + ux, qy + uy), (qx + vx, qy + vy))).
Proof.
  destruct corner_origin_rounded as [Rqx Rqy].
  replace p0 with (move p1 20 (ux / 5, uy / 5))
    by (unfold move, p0, p1; cbn [fst snd]; f_equal; field).
  replace p2 with (move p1 20 (vx / 5, vy / 5))
    by (unfold move, p2, p1; cbn [fst snd]; f_equal; field).
  rewrite fillet_points_right_angle;
    try (unfold dot; cbn [fst snd]; lra).
  cbv zeta. unfold move, round_point, p1; cbn [fst snd].
  rewrite (rounded_eq _ (qx + ux + vx)); [| field | rounded_tac].
  rewrite (rounded_eq _ (qy + uy + vy)); [| field | rounded_tac].
  rewrite (rounded_eq _ (qx + ux)); [| field | rounded_tac].
  rewrite (rounded_eq _ (qy + uy)); [| field | rounded_tac].
  rewrite (rounded_eq _ (qx + vx)); [| field | rounded_tac].
  rewrite (rounded_eq _ (qy + vy)); [| field | rounded_tac].
  reflexivity.
Qed.

Lemma corner_edge_in : distance p0 p1 = 20.
Proof.
  apply distance_eq; [lra |]. unfold dsq, p0, p1; cbn [fst snd].
  transitivity (16 * (ux * ux + uy * uy)); [ring | rewrite Hu; ring].
Qed.

Lemma corner_edge_out : distance p1 p2 = 20.
Proof.
  apply distance_eq; [lra |]. unfold dsq, p1, p2; cbn [fst snd].
  transitivity (16 * (vx * vx + vy * vy)); [ring | rewrite Hv; ring].
Qed.

Lemma corner_radius (skip : bool) : vertex_radius 5 skip p0 p1 p2 = 5.
Proof.
  unfold vertex_radius. rewrite corner_edge_in, corner_edge_out.
  rewrite Rgtb_true by lra. reflexivity.
Qed.

Lemma corner_turn : turn p0 p1 p2 <> 0.
Proof.
  unfold turn, p0, p1, p2; cbn [fst snd]. intros E.
  assert (Hk : ux * vy - uy * vx = 0) by lra.
  assert (Hsq : (ux * vy - uy * vx) * (ux * vy - uy * vx) = 625).
  { transitivity ((ux * ux + uy * uy) * (vx * vx + vy * vy)
                  - (ux * vx + uy * vy) * (ux * vx + uy * vy)); [ring |].
    rewrite Hu, Hv, Huv. ring. }
  rewrite Hk in Hsq. lra.
Qed.

(** One loop iteration on a corner of the square. *)
Lemma corner_step (skip : bool) (points : list point) (i : nat)
    (st : loop_state) :
  index points (Z.of_nat i - 1) = Ok r0 ->
  index points (Z.of_nat i) = Ok r1 ->
  index points ((Z.of_nat i + 1) mod Z.of_nat (length points)) = Ok r2 ->
  body 5 skip points i st =
  Ok (let ms := add_arc (space st) (qx + ux + vx, qy + uy + vy) 5
                        (fst (arc_angles p0 p1 p2))
                        (snd (arc_angles p0 p1 p2)) in
      if (i =? 0)%nat
      then mkState ms (nb_lines st) (qx + ux, qy + uy) (qx + vx, qy + vy)
      else if Rneb (distance (memory st) (qx + ux, qy + uy)) 0
           then mkState (add_line ms (memory st) (qx + ux, qy + uy))
                        (S (nb_lines st)) (first st) (qx + vx, qy + vy)
           else mkState ms (nb_lines st) (first st) (qx + vx, qy + vy)).
Proof.
  intros H0 H1 H2.
  pose proof (body_fillet 5 skip points i st r0 r1 r2 H0 H1 H2) as B.
  cbv zeta in B. rewrite E0, E1, E2, corner_radius in B.
  rewrite B; [| lra | apply corner_turn].
  unfold after_fillet, fillet_step. rewrite corner_fillet_points. reflexivity.
Qed.

End Corner.

(** The connecting line between two corners spans half an edge, so it is
    not degenerate. *)
Ltac half_edge u v :=
  rewrite Rneb_true
    by (rewrite (distance_half_edge _ _ _ _ u v); [lra | ring | ring | lra]).

Section Square.

(** A contour of four vertices [a], [b], [c], [d] that round to the
    corners of a square of side 20. *)
Variables ox oy ux uy vx vy : R.
Variables a b c d : point.
Hypothesis Rux : rounded ux.
Hypothesis Ruy : rounded uy.
Hypothesis Rvx : rounded vx.
Hypothesis Rvy : rounded vy.
Hypothesis Hu : ux * ux + uy * uy = 25.
Hypothesis Hv : vx * vx + vy * vy = 25.
Hypothesis Huv : ux * vx + uy * vy = 0.
Hypothesis Ha : round_point a = (ox, oy).
Hypothesis Hb : round_point b = (ox + 4 * ux, oy + 4 * uy).
Hypothesis Hc : round_point c = (ox + 4 * ux + 4 * vx, oy + 4 * uy + 4 * vy).
Hypothesis Hd : round_point d = (ox + 4 * vx, oy + 4 * vy).

Let pts : list point := [a; b; c; d].

(** Side conditions of [corner_step] on the four corners. *)
Ltac corner_tac :=
  first
    [ solve [rounded_tac]
    | lra
    | reflexivity
    | match goal with
      | |- round_point a = _ => rewrite Ha
      | |- round_point b = _ => rewrite Hb
      | |- round_point c = _ => rewrite Hc
      | |- round_point d = _ => rewrite Hd
      end;
      apply injective_projections; cbn [fst snd]; ring ].

Lemma rebuild_square (skip : bool) (ms : modelspace) (nb : nat) :
  exists out,
    rebuild 5 skip pts ms nb = Ok (ms ++ out, (4 + nb)%nat) /\
    length out = 8%nat /\
    count_type "ARC" out = 4%nat /\
    count_type "LINE" out = 4%nat /\
    Forall (fun e => is_type "LINE" e = true -> line_length e = 10) out.
Proof.
  eexists. split.
  - unfold rebuild.
    change (index pts (-1)) with (@Ok point d). cbn [bind].
    change (seq 0 (length pts)) with [0; 1; 2; 3]%nat.
    change (0 <? length pts)%nat with true. cbv iota.
    cbn [for_range].
    (* vertex 0 *)
    rewrite (corner_step ox oy vx vy ux uy d a b); try corner_tac.
    cbn [bind Nat.eqb space nb_lines first memory]. cbv zeta.
    (* vertex 1 *)
    rewrite (corner_step (ox + 4 * ux) (oy + 4 * uy) (- ux) (- uy) vx vy
               a b c);
      try corner_tac.
    cbn [bind Nat.eqb space nb_lines first memory]. cbv zeta.
    half_edge ux uy.
    (* vertex 2 *)
    rewrite (corner_step (ox + 4 * ux + 4 * vx) (oy + 4 * uy + 4 * vy)
               (- vx) (- vy) (- ux) (- uy) b c d);
      try corner_tac.
    cbn [bind Nat.eqb space nb_lines first memory]. cbv zeta.
    half_edge vx vy.
    (* vertex 3 *)
    rewrite (corner_step (ox + 4 * vx) (oy + 4 * vy) ux uy (- vx) (- vy)
               c d a);
      try corner_tac.
    cbn [bind Nat.eqb space nb_lines first memory]. cbv zeta.
    half_edge (- ux) (- uy).
    cbn [bind space nb_lines first memory].
    unfold add_line, add_arc. rewrite <- !app_assoc. cbn [app fst snd].
    reflexivity.
  - split; [reflexivity |]. split; [reflexivity |]. split; [reflexivity |].
    repeat constructor; intros H; try discriminate H;
      cbn [line_length]; unfold px, py; cbn [fst snd];
      first [ apply (distance_half_edge _ _ _ _ ux uy); [ring | ring | lra]
            | apply (distance_half_edge _ _ _ _ vx vy); [ring | ring | lra]
            | apply (distance_half_edge _ _ _ _ (- ux) (- uy));
              [ring | ring | lra]
            | apply (distance_half_edge _ _ _ _ (- vx) (- vy));
              [ring | ring | lra] ].
Qed.

End Square.


(** From one rebuilt contour to the drawing that [main] saves. *)
Lemma main_rebuilt (elev : R) (points : list point) (skip : bool)
    (P : modelspace -> Prop) (n : nat) :
  (exists out,
     rebuild 5 skip points [LWPOLYLINE elev points] 0
       = Ok ([LWPOLYLINE elev points] ++ out, n) /\ P out) ->
  exists rep,
    main [LWPOLYLINE elev points] 5 skip = Ok (rep, n) /\ P (cleaned rep).
Proof.
  intros [out [Hre HP]]. exists (checks out). split.
  - apply main_single. rewrite Rabs_right by lra. exact Hre.
  - rewrite (checks_emitted out) by (eapply rebuild_emitted; exact Hre).
    exact HP.
Qed.



(** The same for an axis-aligned square anywhere in the plane: rounding
    moves its four corners together. *)
Lemma axis_aligned_square (x0 y0 elev : R) (skip : bool) :
  exists rep,
    main [LWPOLYLINE elev [(x0, y0); (x0 + 20, y0);
                           (x0 + 20, y0 + 20); (x0, y0 + 20)]] 5 skip
      = Ok (rep, 4%nat) /\
    length (cleaned rep) = 8%nat /\
    count_type "ARC" (cleaned rep) = 4%nat /\
    count_type "LINE" (cleaned rep) = 4%nat /\
    Forall (fun e => is_type "LINE" e = true -> line_length e = 10)
           (cleaned rep).
Proof.
  assert (Shift : forall x, round (x + 20) 3 = round x 3 + 20).
  { intros x. replace 20 with (IZR 20000 / 1000) by lra.
    now apply round_shift. }
  apply (main_rebuilt _ _ _
         (fun out =>
           length out = 8%nat /\
           count_type "ARC" out = 4%nat /\
           count_type "LINE" out = 4%nat /\
           Forall (fun e => is_type "LINE" e = true -> line_length e = 10)
                  out)).
  apply (rebuild_square (round x0 3) (round y0 3) 5 0 0 5);
    try apply rounded_IZR; try lra;
    unfold round_point; cbn [fst snd]; rewrite ?Shift;
    apply injective_projections; cbn [fst snd]; lra.
Qed.

(** ** The distance function *)

Lemma distance_sym (p q : point) : distance p q = distance q p.
Proof. unfold distance. f_equal. ring. Qed.

Lemma distance_square (p q : point) : distance p q * distance p q = dsq p q.
Proof. rewrite distance_sqrt. apply sqrt_sqrt, dsq_nonneg. Qed.

Lemma distance_triangle (p q s : point) :
  distance p s <= distance p q + distance q s.
Proof.
  pose proof (distance_nonneg p q) as Hpq.
  pose proof (distance_nonneg q s) as Hqs.
  pose proof (distance_square p q) as Epq.
  pose proof (distance_square q s) as Eqs.
  apply distance_le; [lra |].
  set (a := distance p q) in *. set (b := distance q s) in *.
  unfold dsq in *.
  set (u := fst q - fst p) in *. set (v := snd q - snd p) in *.
  set (w := fst s - fst q) in *. set (z := snd s - snd q) in *.
  replace (fst s - fst p) with (u + w) by (unfold u, w; ring).
  replace (snd s - snd p) with (v + z) by (unfold v, z; ring).
  assert (Hcs : u * w + v * z <= a * b).
  { destruct (Rle_dec (u * w + v * z) 0) as [Hn | Hp].
    - pose proof (Rmult_le_pos a b Hpq Hqs). lra.
    - apply Rnot_le_lt in Hp.
      assert (Hsq : (u * w + v * z) * (u * w + v * z) <= (a * b) * (a * b)).
      { replace (a * b * (a * b)) with ((a * a) * (b * b)) by ring.
        rewrite Epq, Eqs.
        assert (0 <= (u * z - v * w) * (u * z - v * w))
          by (apply Rle_0_sqr).
        nra. }
      destruct (Rle_dec (u * w + v * z) (a * b)) as [|N]; [assumption |].
      exfalso. apply Rnot_le_lt in N.
      pose proof (Rmult_le_pos a b Hpq Hqs).
      assert ((a * b) * (a * b) < (u * w + v * z) * (u * w + v * z)).
      { apply Rmult_le_0_lt_compat; assumption. }
      lra. }
  nra.
Qed.

(** X1. [distance] is a metric on the plane: never negative, zero
    exactly between equal points, symmetric, and it satisfies the triangle
    inequality. *)
Theorem X1_distance_is_a_metric (p q s : point) :
  0 <= distance p q /\
  (distance p q = 0 <-> p = q) /\
  distance p q = distance q p /\
  distance p s <= distance p q + distance q s.
Proof.
  split; [apply distance_nonneg |].
  split; [apply distance_zero_iff |].
  split; [apply distance_sym | apply distance_triangle].
Qed.

Lemma X1_witness :
  0 <= distance (0, 0) (3, 4) /\
  (distance (0, 0) (3, 4) = 0 <-> (0, 0) = (3, 4)) /\
  distance (0, 0) (3, 4) = distance (3, 4) (0, 0) /\
  distance (0, 0) (6, 8) <= distance (0, 0) (3, 4) + distance (3, 4) (6, 8).
Proof. exact (X1_distance_is_a_metric (0, 0) (3, 4) (6, 8)). Defined.

(** ** Orientation of a corner and of its arc *)

(** The normalised difference of two angles whose plain difference has a
    non-zero sine: strictly between -PI and PI, not zero, equal to the
    plain difference up to a full turn, and odd in its arguments. *)
Lemma a_diff_spec (a1 a2 : R) :
  - PI < a1 <= PI -> - PI < a2 <= PI -> sin (a2 - a1) <> 0 ->
  (- PI < a_diff a1 a2 < 0 \/ 0 < a_diff a1 a2 < PI) /\
  (a_diff a1 a2 = a2 - a1 \/ a_diff a1 a2 = a2 - a1 + 2 * PI \/
   a_diff a1 a2 = a2 - a1 - 2 * PI) /\
  a_diff a2 a1 = - a_diff a1 a2.
Proof.
  intros H1 H2 Hs. pose proof PI_bounds as HPI.
  assert (N0 : a2 - a1 <> 0) by (intros E; apply Hs; rewrite E; apply sin_0).
  assert (N1 : a2 - a1 <> PI) by (intros E; apply Hs; rewrite E; apply sin_PI).
  assert (N2 : a2 - a1 <> - PI)
    by (intros E; apply Hs; rewrite E, sin_neg, sin_PI; ring).
  unfold a_diff.
  destruct (Rlt_dec (a2 - a1) (- PI)) as [A | A];
    destruct (Rlt_dec (a1 - a2) (- PI)) as [B | B]; try (exfalso; lra).
  - destruct (Rlt_dec PI (a1 - a2)) as [C | C]; [| exfalso; lra].
    split; [right; lra | split; [right; left; lra | lra]].
  - destruct (Rlt_dec PI (a2 - a1)) as [C | C]; [| exfalso; lra].
    split; [left; lra | split; [right; right; lra | lra]].
  - destruct (Rlt_dec PI (a2 - a1)) as [C | C]; [exfalso; lra |].
    destruct (Rlt_dec PI (a1 - a2)) as [E | E]; [exfalso; lra |].
    split; [| split; [left; lra | lra]].
    destruct (Rlt_dec 0 (a2 - a1)); [right | left]; lra.
Qed.

(** The two direction angles of a corner that is not flat. *)
Lemma corner_angles (p0 p1 p2 : point) :
  turn p0 p1 p2 <> 0 ->
  let angle1 := atan2 (snd p0 - snd p1) (fst p0 - fst p1) in
  let angle2 := atan2 (snd p2 - snd p1) (fst p2 - fst p1) in
  0 < distance p1 p0 /\ 0 < distance p1 p2 /\
  turn p0 p1 p2 = distance p1 p0 * distance p1 p2 * sin (angle2 - angle1) /\
  edge_dot p0 p1 p2 = distance p1 p0 * distance p1 p2 * cos (angle2 - angle1) /\
  sin (angle2 - angle1) <> 0.
Proof.
  destruct p0 as [x0 y0], p1 as [x1 y1], p2 as [x2 y2].
  intros Hturn a1 a2. unfold turn, edge_dot in *; cbn [fst snd] in *.
  assert (Hv1 : (x0 - x1, y0 - y1) <> (0, 0)).
  { intros E. injection E as E1 E2. apply Hturn. rewrite E1, E2. ring. }
  assert (Hv2 : (x2 - x1, y2 - y1) <> (0, 0)).
  { intros E. injection E as E1 E2. apply Hturn. rewrite E1, E2. ring. }
  pose proof (norm_pos _ _ Hv1) as HL1.
  pose proof (norm_pos _ _ Hv2) as HL2.
  destruct (polar_cross_dot _ _ _ _ Hv1 Hv2) as [Ec Ed].
  fold a1 a2 in Ec, Ed.
  change (distance (x1, y1) (x0, y0)) with (norm (x0 - x1) (y0 - y1)).
  change (distance (x1, y1) (x2, y2)) with (norm (x2 - x1) (y2 - y1)).
  repeat split; try assumption.
  intros E. apply Hturn. rewrite Ec, E. ring.
Qed.

Lemma turn_reverse (p0 p1 p2 : point) : turn p2 p1 p0 = - turn p0 p1 p2.
Proof. unfold turn. ring. Qed.

Lemma degrees_minus (a b : R) : degrees a - degrees b = degrees (a - b).
Proof. unfold degrees. field. apply PI_neq0. Qed.

Lemma degrees_2PI : degrees (2 * PI) = 360.
Proof. unfold degrees. field. apply PI_neq0. Qed.

Lemma unit_dot (p0 p1 p2 : point) :
  0 < distance p1 p0 -> 0 < distance p1 p2 ->
  dot (unit_vector p1 p0) (unit_vector p1 p2) =
  edge_dot p0 p1 p2 / (distance p1 p0 * distance p1 p2).
Proof.
  intros H1 H2. unfold dot, unit_vector, edge_dot; cbn [fst snd].
  field. lra.
Qed.

(** The sign of the normalised angular difference is the sign of the
    cross product of the two edge vectors. *)
Lemma a_diff_sign (p0 p1 p2 : point) :
  turn p0 p1 p2 <> 0 ->
  let angle1 := atan2 (snd p0 - snd p1) (fst p0 - fst p1) in
  let angle2 := atan2 (snd p2 - snd p1) (fst p2 - fst p1) in
  (0 < a_diff angle1 angle2 <-> 0 < turn p0 p1 p2).
Proof.
  intros Hturn a1 a2.
  destruct (corner_angles p0 p1 p2 Hturn) as (HL1 & HL2 & Et & _ & Hs).
  fold a1 a2 in Et, Hs.
  pose proof (atan2_bounds (snd p0 - snd p1) (fst p0 - fst p1)) as B1.
  pose proof (atan2_bounds (snd p2 - snd p1) (fst p2 - fst p1)) as B2.
  fold a1 in B1. fold a2 in B2.
  destruct (a_diff_spec a1 a2 B1 B2 Hs) as (Hrange & Hval & _).
  assert (PL : 0 < distance p1 p0 * distance p1 p2)
    by now apply Rmult_lt_0_compat.
  assert (Esin : sin (a_diff a1 a2) = sin (a2 - a1)).
  { destruct Hval as [-> | [-> | ->]]; [reflexivity | |].
    - rewrite sin_plus, sin_2PI, cos_2PI. ring.
    - unfold Rminus at 1. rewrite sin_plus, sin_neg, cos_neg, sin_2PI, cos_2PI.
      ring. }
  rewrite Et, <- Esin.
  destruct Hrange as [[Ha Hb] | [Ha Hb]].
  - assert (sin (a_diff a1 a2) < 0) by (apply sin_lt_0_var; lra).
    split; intros H0; [lra | exfalso; nra].
  - assert (0 < sin (a_diff a1 a2)) by (apply sin_gt_0; lra).
    split; intros H0; [nra | lra].
Qed.

(** X2. The test of line 31 is an orientation test: at a corner that is
    not flat, the normalised angular difference is positive exactly when
    the edge towards [p2] is counter-clockwise from the edge towards [p0]
    (the cross product of the two edge vectors is positive); it is never
    zero and lies strictly between -PI and PI. *)
Theorem X2_angle_test_is_orientation (p0 p1 p2 : point) :
  turn p0 p1 p2 <> 0 ->
  let angle1 := atan2 (snd p0 - snd p1) (fst p0 - fst p1) in
  let angle2 := atan2 (snd p2 - snd p1) (fst p2 - fst p1) in
  (0 < a_diff angle1 angle2 <-> 0 < turn p0 p1 p2) /\
  a_diff angle1 angle2 <> 0 /\
  - PI < a_diff angle1 angle2 < PI.
Proof.
  intros Hturn a1 a2.
  destruct (corner_angles p0 p1 p2 Hturn) as (_ & _ & _ & _ & Hs).
  fold a1 a2 in Hs.
  pose proof (atan2_bounds (snd p0 - snd p1) (fst p0 - fst p1)) as B1.
  pose proof (atan2_bounds (snd p2 - snd p1) (fst p2 - fst p1)) as B2.
  fold a1 in B1. fold a2 in B2.
  destruct (a_diff_spec a1 a2 B1 B2 Hs) as (Hrange & _ & _).
  split; [exact (a_diff_sign p0 p1 p2 Hturn) |]. split; lra.
Qed.

Lemma X2_witness :
  let p0 := (0, 10) in let p1 := (0, 0) in let p2 := (10, 0) in
  turn p0 p1 p2 <> 0 /\
  ((0 < a_diff (atan2 (snd p0 - snd p1) (fst p0 - fst p1))
               (atan2 (snd p2 - snd p1) (fst p2 - fst p1)) <->
    0 < turn p0 p1 p2) /\
   a_diff (atan2 (snd p0 - snd p1) (fst p0 - fst p1))
          (atan2 (snd p2 - snd p1) (fst p2 - fst p1)) <> 0 /\
   - PI < a_diff (atan2 (snd p0 - snd p1) (fst p0 - fst p1))
                 (atan2 (snd p2 - snd p1) (fst p2 - fst p1)) < PI).
Proof.
  cbv zeta.
  assert (H : turn (0, 10) (0, 0) (10, 0) <> 0)
    by (unfold turn; cbn [fst snd]; lra).
  split; [exact H |].
  exact (X2_angle_test_is_orientation (0, 10) (0, 0) (10, 0) H).
Defined.

Lemma cos_shift_2PI (x : R) : cos (x + 2 * PI) = cos x /\ cos (x - 2 * PI) = cos x.
Proof.
  split.
  - rewrite cos_plus, sin_2PI, cos_2PI. ring.
  - unfold Rminus. rewrite cos_plus, sin_neg, cos_neg, sin_2PI, cos_2PI. ring.
Qed.

(** X3. The emitted arc is the short one.  At a corner that is not flat,
    of interior angle theta (0 < theta < PI, its cosine the scalar
    product of the two unit edge vectors), the end angle of the arc is
    the start angle plus 180 - theta degrees, up to one full turn: drawn
    counter-clockwise from its start angle, the arc sweeps the supplement
    of the corner angle, never the complementary long arc. *)
Theorem X3_arc_sweeps_supplement (p0 p1 p2 : point) :
  turn p0 p1 p2 <> 0 ->
  exists theta : R,
    0 < theta < PI /\
    cos theta = dot (unit_vector p1 p0) (unit_vector p1 p2) /\
    (snd (arc_angles p0 p1 p2) - fst (arc_angles p0 p1 p2)
       = 180 - degrees theta \/
     snd (arc_angles p0 p1 p2) - fst (arc_angles p0 p1 p2)
       = 180 - degrees theta - 360).
Proof.
  intros Hturn.
  destruct (corner_angles p0 p1 p2 Hturn) as (HL1 & HL2 & _ & Ed & Hs).
  cbv zeta in Ed, Hs.
  pose proof (atan2_bounds (snd p0 - snd p1) (fst p0 - fst p1)) as B1.
  pose proof (atan2_bounds (snd p2 - snd p1) (fst p2 - fst p1)) as B2.
  unfold arc_angles.
  set (a1 := atan2 (snd p0 - snd p1) (fst p0 - fst p1)) in *.
  set (a2 := atan2 (snd p2 - snd p1) (fst p2 - fst p1)) in *.
  destruct (a_diff_spec a1 a2 B1 B2 Hs) as (Hrange & Hval & _).
  assert (Ecos : cos (a_diff a1 a2) = cos (a2 - a1)).
  { destruct Hval as [-> | [-> | ->]]; [reflexivity | |];
      apply cos_shift_2PI. }
  assert (Edot : dot (unit_vector p1 p0) (unit_vector p1 p2) = cos (a2 - a1)).
  { rewrite unit_dot by assumption. rewrite Ed. field. lra. }
  pose proof PI_bounds as HPI.
  cbv zeta.
  destruct (Rlt_dec 0 (a_diff a1 a2)) as [Hp | Hn]; cbn [fst snd].
  - exists (a_diff a1 a2).
    split; [lra |]. split; [congruence |].
    rewrite <- degrees_PI, <- degrees_2PI, !degrees_minus.
    destruct Hval as [E | [E | E]].
    + right. f_equal. lra.
    + left. f_equal. lra.
    + exfalso. lra.
  - exists (- a_diff a1 a2).
    split; [lra |]. split; [rewrite cos_neg; congruence |].
    rewrite <- degrees_PI, <- degrees_2PI, !degrees_minus.
    destruct Hval as [E | [E | E]].
    + right. f_equal. lra.
    + exfalso. lra.
    + left. f_equal. lra.
Qed.

Lemma X3_witness :
  turn (0, 10) (0, 0) (10, 0) <> 0 /\
  exists theta : R,
    0 < theta < PI /\
    cos theta = dot (unit_vector (0, 0) (0, 10)) (unit_vector (0, 0) (10, 0)) /\
    (snd (arc_angles (0, 10) (0, 0) (10, 0))
       - fst (arc_angles (0, 10) (0, 0) (10, 0)) = 180 - degrees theta \/
     snd (arc_angles (0, 10) (0, 0) (10, 0))
       - fst (arc_angles (0, 10) (0, 0) (10, 0)) = 180 - degrees theta - 360).
Proof.
  assert (H : turn (0, 10) (0, 0) (10, 0) <> 0)
    by (unfold turn; cbn [fst snd]; lra).
  split; [exact H |].
  exact (X3_arc_sweeps_supplement (0, 10) (0, 0) (10, 0) H).
Defined.

Lemma side_reverse (p0 p1 p2 : point) :
  turn p0 p1 p2 <> 0 -> side p2 p1 p0 = - side p0 p1 p2.
Proof.
  intros H. unfold side. rewrite turn_reverse.
  destruct (Rlt_dec 0 (- turn p0 p1 p2)), (Rlt_dec 0 (turn p0 p1 p2));
    lra.
Qed.

Lemma exact_center_reverse (p0 p1 p2 : point) (r : R) :
  exact_center p2 p1 p0 r = exact_center p0 p1 p2 r.
Proof.
  unfold exact_center.
  assert (E : Rabs (cross (unit_vector p1 p2) (unit_vector p1 p0)) =
              Rabs (cross (unit_vector p1 p0) (unit_vector p1 p2))).
  { rewrite <- Rabs_Ropp. f_equal. unfold cross. ring. }
  cbv zeta. rewrite E. f_equal; ring.
Qed.

Lemma arc_angles_reverse (p0 p1 p2 : point) :
  turn p0 p1 p2 <> 0 -> arc_angles p2 p1 p0 = arc_angles p0 p1 p2.
Proof.
  intros Hturn.
  destruct (corner_angles p0 p1 p2 Hturn) as (_ & _ & _ & _ & Hs).
  cbv zeta in Hs.
  pose proof (atan2_bounds (snd p0 - snd p1) (fst p0 - fst p1)) as B1.
  pose proof (atan2_bounds (snd p2 - snd p1) (fst p2 - fst p1)) as B2.
  unfold arc_angles.
  set (a1 := atan2 (snd p0 - snd p1) (fst p0 - fst p1)) in *.
  set (a2 := atan2 (snd p2 - snd p1) (fst p2 - fst p1)) in *.
  destruct (a_diff_spec a1 a2 B1 B2 Hs) as (Hrange & _ & Hodd).
  cbv zeta. rewrite Hodd.
  destruct (Rlt_dec 0 (- a_diff a1 a2)), (Rlt_dec 0 (a_diff a1 a2));
    try reflexivity; exfalso; lra.
Qed.

(** X4. The fillet of a corner does not depend on the direction of
    travel: on a corner that is not flat and for a positive radius,
    [add_fillet] called on the reversed triple succeeds as on the triple,
    adds the very same arc (centre, radius, start and end angle) and
    returns the same two tangent points in the opposite order. *)
Theorem X4_fillet_of_reversed_corner (ms : modelspace) (p0 p1 p2 : point)
    (r : R) :
  turn p0 p1 p2 <> 0 -> 0 < r ->
  exists (arc : entity) (t0 t2 : point),
    add_fillet ms p0 p1 p2 r = Ok (ms ++ [arc], (t0, t2)) /\
    add_fillet ms p2 p1 p0 r = Ok (ms ++ [arc], (t2, t0)).
Proof.
  intros Hturn Hr.
  assert (Hturn' : turn p2 p1 p0 <> 0) by (rewrite turn_reverse; lra).
  rewrite (add_fillet_exact ms p0 p1 p2 r Hturn Hr).
  rewrite (add_fillet_exact ms p2 p1 p0 r Hturn' Hr).
  rewrite (arc_angles_reverse p0 p1 p2 Hturn).
  unfold fillet_points. cbv zeta. cbn [fst snd].
  rewrite exact_center_reverse, (side_reverse p0 p1 p2 Hturn).
  unfold add_arc.
  eexists _, _, _. split; [reflexivity |].
  f_equal. f_equal. f_equal; apply round_point_eq; cbn [fst snd]; ring.
Qed.

Lemma X4_witness :
  turn (0, 10) (0, 0) (10, 0) <> 0 /\ 0 < 5 /\
  exists (arc : entity) (t0 t2 : point),
    add_fillet [] (0, 10) (0, 0) (10, 0) 5 = Ok ([] ++ [arc], (t0, t2)) /\
    add_fillet [] (10, 0) (0, 0) (0, 10) 5 = Ok ([] ++ [arc], (t2, t0)).
Proof.
  assert (H : turn (0, 10) (0, 0) (10, 0) <> 0)
    by (unfold turn; cbn [fst snd]; lra).
  assert (Hr : 0 < 5) by lra.
  split; [exact H |]. split; [exact Hr |].
  exact (X4_fillet_of_reversed_corner [] (0, 10) (0, 0) (10, 0) 5 H Hr).
Defined.

(** ** Straight-through vertices *)



(** ** The returned points are the ends of the arc *)

Lemma arc_point_degrees (c : point) (r a : R) :
  arc_point c r (degrees a) = (fst c + r * cos a, snd c + r * sin a).
Proof.
  unfold arc_point, degrees.
  replace (a * 180 / PI * PI / 180) with a by (field; apply PI_neq0).
  reflexivity.
Qed.

(** X6. The points returned by [add_fillet] are the two ends of the arc
    it adds.  Whenever the call returns, each returned point is, within
    0.0005 per coordinate, the point of the arc's circle at one of the two
    angles of the arc; at a corner that is not flat the first returned
    point is the end of the arc and the second its start when the cross
    product of the edge vectors is positive, and the other way round when
    it is negative. *)
Theorem X6_returned_points_are_arc_ends
    (ms : modelspace) (p0 p1 p2 : point) (r : R)
    (ms' : modelspace) (t1 t2 : point) :
  add_fillet ms p0 p1 p2 r = Ok (ms', (t1, t2)) ->
  exists c sa ea,
    ms' = ms ++ [ARC c r sa ea] /\
    ((near (1 / 2000) t1 (arc_point c r sa) /\
      near (1 / 2000) t2 (arc_point c r ea)) \/
     (near (1 / 2000) t1 (arc_point c r ea) /\
      near (1 / 2000) t2 (arc_point c r sa))) /\
    (0 < turn p0 p1 p2 ->
     near (1 / 2000) t1 (arc_point c r ea) /\
     near (1 / 2000) t2 (arc_point c r sa)) /\
    (turn p0 p1 p2 < 0 ->
     near (1 / 2000) t1 (arc_point c r sa) /\
     near (1 / 2000) t2 (arc_point c r ea)).
Proof.
  intros H.
  assert (Hsign : turn p0 p1 p2 <> 0 ->
     (0 < a_diff (atan2 (snd p0 - snd p1) (fst p0 - fst p1))
                 (atan2 (snd p2 - snd p1) (fst p2 - fst p1))
      <-> 0 < turn p0 p1 p2))
    by (intros Ht; exact (a_diff_sign p0 p1 p2 Ht)).
  unfold add_fillet, fdiv in H. cbn [fst snd] in H.
  destruct (Req_dec_T _ 0) as [_ | _]; cbn [bind] in H; [discriminate |].
  set (pos := Rlt_dec 0 _) in *.
  injection H as <- <- <-. unfold add_arc.
  do 3 eexists. split; [reflexivity |].
  destruct pos as [Hp | Hn]; rewrite !arc_point_degrees.
  - assert (N : forall q : point, near (1 / 2000) (round_point q) q)
      by exact near_round_point.
    split; [right; split; apply (N (_, _)) |]. split.
    + intros _. split; apply (N (_, _)).
    + intros Ht. exfalso. apply Hsign in Hp; lra.
  - assert (N : forall q : point, near (1 / 2000) (round_point q) q)
      by exact near_round_point.
    split; [left; split; apply (N (_, _)) |]. split.
    + intros Ht. exfalso. apply Hn. apply Hsign; lra.
    + intros _. split; apply (N (_, _)).
Qed.

Lemma add_fillet_right_corner (ms : modelspace) :
  add_fillet ms (0, 10) (0, 0) (10, 0) 5 =
  Ok (ms ++ [ARC (5, 5) 5 180 (-90)], ((0, 5), (5, 0))).
Proof.
  rewrite add_fillet_exact.
  - rewrite right_corner_angles, right_corner_points by apply rounded_IZR.
    reflexivity.
  - unfold turn; cbn [fst snd]. lra.
  - lra.
Qed.

Lemma X6_witness :
  add_fillet [] (0, 10) (0, 0) (10, 0) 5
    = Ok ([] ++ [ARC (5, 5) 5 180 (-90)], ((0, 5), (5, 0))) /\
  exists c sa ea,
    [] ++ [ARC (5, 5) 5 180 (-90)] = [] ++ [ARC c 5 sa ea] /\
    ((near (1 / 2000) (0, 5) (arc_point c 5 sa) /\
      near (1 / 2000) (5, 0) (arc_point c 5 ea)) \/
     (near (1 / 2000) (0, 5) (arc_point c 5 ea) /\
      near (1 / 2000) (5, 0) (arc_point c 5 sa))) /\
    (0 < turn (0, 10) (0, 0) (10, 0) ->
     near (1 / 2000) (0, 5) (arc_point c 5 ea) /\
     near (1 / 2000) (5, 0) (arc_point c 5 sa)) /\
    (turn (0, 10) (0, 0) (10, 0) < 0 ->
     near (1 / 2000) (0, 5) (arc_point c 5 sa) /\
     near (1 / 2000) (5, 0) (arc_point c 5 ea)).
Proof.
  split; [exact (add_fillet_right_corner []) |].
  exact (X6_returned_points_are_arc_ends [] (0, 10) (0, 0) (10, 0) 5 _ _ _
           (add_fillet_right_corner [])).
Defined.

(** ** The radius used at a vertex *)

Lemma vertex_radius_bounds (radius : R) (skip : bool) (p0 p1 p2 : point) :
  0 <= radius ->
  let r := vertex_radius radius skip p0 p1 p2 in
  0 <= r <= radius /\ 2 * r <= distance p0 p1 /\ 2 * r <= distance p1 p2.
Proof.
  intros Hr. cbv zeta. unfold vertex_radius, Rgtb.
  pose proof (distance_nonneg p0 p1). pose proof (distance_nonneg p1 p2).
  set (a := distance p0 p1) in *. set (b := distance p1 p2) in *.
  destruct (Rgt_dec a (2 * radius)) as [Ha | Ha];
    destruct (Rgt_dec b (2 * radius)) as [Hb | Hb];
    cbn [andb]; try lra;
    destruct skip; cbn [negb]; try lra;
    unfold Rmin; destruct (Rle_dec a b); lra.
Qed.

Lemma vertex_radius_zero_iff (radius : R) (p0 p1 p2 : point) :
  0 < radius ->
  (vertex_radius radius false p0 p1 p2 = 0 <-> p0 = p1 \/ p1 = p2).
Proof.
  intros Hr. rewrite <- !distance_zero_iff. unfold vertex_radius, Rgtb.
  pose proof (distance_nonneg p0 p1). pose proof (distance_nonneg p1 p2).
  set (a := distance p0 p1) in *. set (b := distance p1 p2) in *.
  destruct (Rgt_dec a (2 * radius)) as [Ha | Ha];
    destruct (Rgt_dec b (2 * radius)) as [Hb | Hb];
    cbn [andb negb]; unfold Rmin; destruct (Rle_dec a b);
    split; intros; try lra; try (left; lra); try (right; lra).
Qed.

(** X7. For a configured radius that is not negative, the radius the loop
    uses at a vertex is never negative, never exceeds the configured
    radius and never exceeds half of either adjacent edge, under both skip
    policies. *)
Theorem X7_vertex_radius_fits (radius : R) (skip : bool) (p0 p1 p2 : point) :
  0 <= radius ->
  0 <= vertex_radius radius skip p0 p1 p2 <= radius /\
  2 * vertex_radius radius skip p0 p1 p2 <= distance p0 p1 /\
  2 * vertex_radius radius skip p0 p1 p2 <= distance p1 p2.
Proof. intros Hr. exact (vertex_radius_bounds radius skip p0 p1 p2 Hr). Qed.

Lemma X7_witness :
  0 <= 5 /\
  0 <= vertex_radius 5 false (0, 6) (0, 0) (6, 0) <= 5 /\
  2 * vertex_radius 5 false (0, 6) (0, 0) (6, 0) <= distance (0, 6) (0, 0) /\
  2 * vertex_radius 5 false (0, 6) (0, 0) (6, 0) <= distance (0, 0) (6, 0).
Proof.
  assert (H : 0 <= 5) by lra.
  split; [exact H |].
  exact (X7_vertex_radius_fits 5 false (0, 6) (0, 0) (6, 0) H).
Defined.

(** X8. With skip = False and a positive radius, a vertex is left sharp
    exactly when it coincides with one of its two neighbours (after
    rounding): every vertex with two edges of positive length is given to
    [add_fillet], with a positive radius. *)
Theorem X8_no_skip_sharp_iff_duplicate
    (radius : R) (p0 p1 p2 : point) :
  0 < radius ->
  (vertex_radius radius false p0 p1 p2 = 0 <-> p0 = p1 \/ p1 = p2) /\
  (p0 <> p1 -> p1 <> p2 -> 0 < vertex_radius radius false p0 p1 p2).
Proof.
  intros Hr. pose proof (vertex_radius_zero_iff radius p0 p1 p2 Hr) as Hz.
  split; [exact Hz |]. intros N0 N2.
  assert (Hb : 0 <= radius) by lra.
  destruct (vertex_radius_bounds radius false p0 p1 p2 Hb) as [[Hlo _] _].
  destruct Hlo as [Hlt | Heq]; [exact Hlt |].
  exfalso. symmetry in Heq. apply Hz in Heq. tauto.
Qed.

Lemma X8_witness :
  0 < 5 /\
  (vertex_radius 5 false (0, 0) (0, 0) (6, 0) = 0 <->
   (0, 0) = (0, 0) \/ (0, 0) = (6, 0)) /\
  ((0, 0) <> (0, 0) -> (0, 0) <> (6, 0) ->
   0 < vertex_radius 5 false (0, 0) (0, 0) (6, 0)).
Proof.
  assert (H : 0 < 5) by lra.
  split; [exact H |].
  exact (X8_no_skip_sharp_iff_duplicate 5 (0, 0) (0, 0) (6, 0) H).
Defined.

(** ** Corners of ninety degrees and more *)

(** At a right or obtuse corner the tangent length is at most the
    radius. *)
Lemma tangent_length_obtuse (p0 p1 p2 : point) (r : R) :
  turn p0 p1 p2 <> 0 -> 0 < r -> edge_dot p0 p1 p2 <= 0 ->
  tangent_length p0 p1 p2 r <= r.
Proof.
  intros Hturn Hr Hdot.
  destruct (edges_positive p0 p1 p2 Hturn) as [P1 P2].
  destruct (directions_unit p0 p1 p2 Hturn) as [U1 U2].
  pose proof (cross_nonzero p0 p1 p2 Hturn) as Hc.
  pose proof (dot_above p0 p1 p2 Hturn) as Hd.
  assert (Hneg : dot (unit_vector p1 p0) (unit_vector p1 p2) <= 0).
  { rewrite unit_dot by assumption.
    assert (PL : 0 < distance p1 p0 * distance p1 p2)
      by now apply Rmult_lt_0_compat.
    unfold Rdiv. rewrite <- (Rmult_0_l (/ (distance p1 p0 * distance p1 p2))).
    apply Rmult_le_compat_r; [left; now apply Rinv_0_lt_compat | exact Hdot]. }
  unfold tangent_length. cbv zeta.
  set (d1 := unit_vector p1 p0) in *. set (d2 := unit_vector p1 p2) in *.
  assert (Hl : cross d1 d2 * cross d1 d2 + dot d1 d2 * dot d1 d2 = 1).
  { unfold dot, cross in *.
    transitivity ((fst d1 * fst d1 + snd d1 * snd d1)
                  * (fst d2 * fst d2 + snd d2 * snd d2)); [ring |].
    rewrite U1, U2. ring. }
  assert (Habs : 0 < Rabs (cross d1 d2)) by now apply Rabs_pos_lt.
  assert (Hsq : Rabs (cross d1 d2) * Rabs (cross d1 d2)
                = cross d1 d2 * cross d1 d2).
  { rewrite <- Rabs_mult. apply Rabs_right. apply Rle_ge, Rle_0_sqr. }
  assert (Hle : 1 + dot d1 d2 <= Rabs (cross d1 d2)).
  { destruct (Rle_dec (1 + dot d1 d2) (Rabs (cross d1 d2))) as [|N];
      [assumption |].
    exfalso. apply Rnot_le_lt in N.
    assert (Rabs (cross d1 d2) * Rabs (cross d1 d2)
            < (1 + dot d1 d2) * (1 + dot d1 d2)).
    { apply Rmult_le_0_lt_compat; lra. }
    nra. }
  replace (r / Rabs (cross d1 d2) * (1 + dot d1 d2))
    with (r * ((1 + dot d1 d2) / Rabs (cross d1 d2))) by (field; lra).
  rewrite <- (Rmult_1_r r) at 2.
  apply Rmult_le_compat_l; [lra |].
  apply Rmult_le_reg_r with (Rabs (cross d1 d2)); [assumption |].
  replace ((1 + dot d1 d2) / Rabs (cross d1 d2) * Rabs (cross d1 d2))
    with (1 + dot d1 d2) by (field; lra).
  lra.
Qed.

(** Coordinates within [tol] of each other are at a distance of at most
    one and a half times [tol]. *)
Lemma near_distance (tol : R) (p q : point) :
  0 <= tol -> near tol p q -> distance p q <= 3 / 2 * tol.
Proof.
  intros Htol [Hx Hy]. apply Rabs_le_both in Hx, Hy.
  apply distance_le; [lra |]. unfold dsq.
  set (a := fst p - fst q) in *. set (b := snd p - snd q) in *.
  replace (fst q - fst p) with (- a) by (unfold a; ring).
  replace (snd q - snd p) with (- b) by (unfold b; ring).
  nra.
Qed.

(** X9. At a corner of ninety degrees or more (the scalar product of the
    two edge vectors is not positive) that is not flat, the fillet the
    loop computes fits: with the radius chosen by lines 96-101 from a
    non-negative configured radius, [add_fillet] succeeds, the tangent
    length is at most the radius, hence at most half of each adjacent
    edge, and each returned tangent point has both its coordinates within
    0.001 of those of a point of its edge segment, so that it lies at a
    distance of at most 0.0015 from that segment. *)
Theorem X9_obtuse_corner_fillet_on_edges
    (ms : modelspace) (radius : R) (skip : bool) (p0 p1 p2 : point) :
  0 <= radius -> turn p0 p1 p2 <> 0 -> edge_dot p0 p1 p2 <= 0 ->
  let r := vertex_radius radius skip p0 p1 p2 in
  r <> 0 ->
  exists ms' t1 t2,
    add_fillet ms p0 p1 p2 r = Ok (ms', (t1, t2)) /\
    tangent_length p0 p1 p2 r <= r /\
    2 * tangent_length p0 p1 p2 r <= distance p0 p1 /\
    2 * tangent_length p0 p1 p2 r <= distance p1 p2 /\
    near_segment (1 / 1000) p0 p1 t1 /\
    near_segment (1 / 1000) p1 p2 t2 /\
    (exists q, on_segment p0 p1 q /\ distance t1 q <= 3 / 2000) /\
    (exists q, on_segment p1 p2 q /\ distance t2 q <= 3 / 2000).
Proof.
  intros Hrad Hturn Hdot r Hr0.
  destruct (vertex_radius_bounds radius skip p0 p1 p2 Hrad)
    as [[Hlo Hhi] [Hf1 Hf2]].
  fold r in Hlo, Hhi, Hf1, Hf2.
  assert (Hr : 0 < r) by lra.
  pose proof (tangent_length_obtuse p0 p1 p2 r Hturn Hr Hdot) as Htau.
  pose proof (tangent_length_pos p0 p1 p2 r Hturn Hr) as Hpos.
  destruct (exact_tangent_points p0 p1 p2 r Hturn) as [T1 T2].
  destruct (tangent_on_segment p0 p1 p2 r Hturn Hr) as [S1 S2].
  rewrite (add_fillet_exact ms p0 p1 p2 r Hturn Hr).
  unfold fillet_points; cbn [fst snd].
  rewrite (distance_sym p0 p1) in Hf1.
  do 3 eexists. split; [reflexivity |].
  split; [exact Htau |].
  split; [rewrite (distance_sym p0 p1); lra |].
  split; [lra |].
  assert (Hd : forall p q, near (1 / 1000) p q -> distance p q <= 3 / 2000).
  { intros p q H. assert (Htol : 0 <= 1 / 1000) by lra.
    pose proof (near_distance (1 / 1000) p q Htol H) as B. lra. }
  split; [| split; [| split]].
  - eexists. split; [apply S1; lra |]. rewrite <- T1. apply near_offset.
  - eexists. split; [apply S2; lra |]. rewrite <- T2. apply near_offset.
  - eexists. split; [apply S1; lra |]. apply Hd.
    rewrite <- T1. apply near_offset.
  - eexists. split; [apply S2; lra |]. apply Hd.
    rewrite <- T2. apply near_offset.
Qed.

Lemma X9_witness :
  0 <= 5 /\ turn (0, 20) (0, 0) (20, 0) <> 0 /\
  edge_dot (0, 20) (0, 0) (20, 0) <= 0 /\
  vertex_radius 5 true (0, 20) (0, 0) (20, 0) <> 0 /\
  exists ms' t1 t2,
    add_fillet [] (0, 20) (0, 0) (20, 0)
               (vertex_radius 5 true (0, 20) (0, 0) (20, 0))
      = Ok (ms', (t1, t2)) /\
    tangent_length (0, 20) (0, 0) (20, 0)
                   (vertex_radius 5 true (0, 20) (0, 0) (20, 0))
      <= vertex_radius 5 true (0, 20) (0, 0) (20, 0) /\
    2 * tangent_length (0, 20) (0, 0) (20, 0)
                       (vertex_radius 5 true (0, 20) (0, 0) (20, 0))
      <= distance (0, 20) (0, 0) /\
    2 * tangent_length (0, 20) (0, 0) (20, 0)
                       (vertex_radius 5 true (0, 20) (0, 0) (20, 0))
      <= distance (0, 0) (20, 0) /\
    near_segment (1 / 1000) (0, 20) (0, 0) t1 /\
    near_segment (1 / 1000) (0, 0) (20, 0) t2 /\
    (exists q, on_segment (0, 20) (0, 0) q /\ distance t1 q <= 3 / 2000) /\
    (exists q, on_segment (0, 0) (20, 0) q /\ distance t2 q <= 3 / 2000).
Proof.
  assert (H0 : 0 <= 5) by lra.
  assert (H1 : turn (0, 20) (0, 0) (20, 0) <> 0)
    by (unfold turn; cbn [fst snd]; lra).
  assert (H2 : edge_dot (0, 20) (0, 0) (20, 0) <= 0)
    by (unfold edge_dot; cbn [fst snd]; lra).
  assert (D1 : distance (0, 20) (0, 0) = 20)
    by (apply distance_eq; [lra | unfold dsq; cbn [fst snd]; ring]).
  assert (D2 : distance (0, 0) (20, 0) = 20)
    by (apply distance_eq; [lra | unfold dsq; cbn [fst snd]; ring]).
  assert (H3 : vertex_radius 5 true (0, 20) (0, 0) (20, 0) <> 0).
  { unfold vertex_radius. rewrite D1, D2, Rgtb_true by lra. cbn [andb]. lra. }
  split; [exact H0 |]. split; [exact H1 |]. split; [exact H2 |].
  split; [exact H3 |].
  exact (X9_obtuse_corner_fillet_on_edges [] 5 true (0, 20) (0, 0) (20, 0)
           H0 H1 H2 H3).
Defined.

(** ** A contour is rebuilt on its own *)

Lemma add_fillet_onto (ms : modelspace) (p0 p1 p2 : point) (r : R) :
  add_fillet ms p0 p1 p2 r =
  (res <- add_fillet [] p0 p1 p2 r ;; Ok (ms ++ fst res, snd res)).
Proof.
  unfold add_fillet, fdiv.
  destruct (Req_dec_T _ 0) as [_ | _]; cbn [bind]; reflexivity.
Qed.

Lemma body_onto (radius : R) (skip : bool) (points : list point) (i : nat)
    (ms : modelspace) (nb : nat) (st : loop_state) :
  body radius skip points i (onto ms nb st) =
  (st' <- body radius skip points i st ;; Ok (onto ms nb st')).
Proof.
  unfold body.
  destruct (index points (Z.of_nat i - 1)) as [p0 |]; cbn [bind];
    [| reflexivity].
  destruct (index points (Z.of_nat i)) as [p1 |]; cbn [bind]; [| reflexivity].
  destruct (index points _) as [p2 |]; cbn [bind]; [| reflexivity].
  destruct (Rneb (vertex_radius _ _ _ _ _) 0).
  - rewrite (add_fillet_onto (space (onto ms nb st))).
    rewrite (add_fillet_onto (space st)).
    destruct (add_fillet [] _ _ _ _) as [[arc new_p] |]; cbn [bind];
      [| reflexivity].
    cbn [fst snd onto space memory first nb_lines].
    destruct (negb (i =? 0)%nat); [| unfold onto; cbn; now rewrite app_assoc].
    unfold onto; cbn [space memory first nb_lines].
    destruct (Rneb _ 0); cbn [bind]; unfold onto, add_line;
      cbn [space memory first nb_lines];
      rewrite ?app_assoc, ?Nat.add_succ_r; reflexivity.
  - destruct (negb (i =? 0)%nat); cbn [bind]; unfold onto, add_line;
      cbn [space memory first nb_lines];
      rewrite ?app_assoc; reflexivity.
Qed.

Lemma for_range_onto (radius : R) (skip : bool) (points : list point)
    (range : list nat) (ms : modelspace) (nb : nat) (st : loop_state) :
  for_range (body radius skip points) range (onto ms nb st) =
  (st' <- for_range (body radius skip points) range st ;;
   Ok (onto ms nb st')).
Proof.
  revert st. induction range as [| i rest IH]; intros st; [reflexivity |].
  cbn [for_range]. rewrite body_onto.
  destruct (body radius skip points i st) as [s1 |]; cbn [bind];
    [apply IH | reflexivity].
Qed.

Lemma rebuild_onto (radius : R) (skip : bool) (points : list point)
    (ms : modelspace) (nb : nat) :
  rebuild radius skip points ms nb =
  (res <- rebuild radius skip points [] 0%nat ;;
   Ok (ms ++ fst res, (nb + snd res)%nat)).
Proof.
  unfold rebuild.
  destruct (index points (-1)) as [m0 |]; cbn [bind]; [| reflexivity].
  set (f0 := if (0 <? length points)%nat then hd (0, 0) points else (0, 0)).
  replace (mkState ms nb f0 m0) with (onto ms nb (mkState [] 0 f0 m0))
    by (unfold onto; cbn; now rewrite app_nil_r, Nat.add_0_r).
  rewrite for_range_onto.
  destruct (for_range _ _ (mkState [] 0 f0 m0)) as [st |]; cbn [bind];
    [| reflexivity].
  destruct (0 <? length points)%nat; cbn [bind fst snd onto space nb_lines
                                           memory first];
    unfold add_line; rewrite ?app_assoc, ?Nat.add_succ_r; reflexivity.
Qed.

(** X10. A contour is rebuilt on its own: [rebuild] neither reads nor
    changes the entities already in the drawing.  It returns on the drawing
    [ms] exactly when it returns on the empty drawing; the entities it
    adds are appended after those of [ms] and are the ones it adds to the
    empty drawing, the line count grows by the same amount, and it raises
    the same exception. *)
Theorem X10_rebuild_appends_independent_output
    (radius : R) (skip : bool) (points : list point)
    (ms : modelspace) (nb : nat) :
  (forall ms' nb',
     rebuild radius skip points ms nb = Ok (ms', nb') <->
     exists out k,
       rebuild radius skip points [] 0%nat = Ok (out, k) /\
       ms' = ms ++ out /\ nb' = (nb + k)%nat) /\
  (forall e,
     rebuild radius skip points ms nb = Raise e <->
     rebuild radius skip points [] 0%nat = Raise e).
Proof.
  rewrite (rebuild_onto radius skip points ms nb).
  destruct (rebuild radius skip points [] 0%nat) as [[out k] | e0];
    cbn [bind fst snd].
  - split.
    + intros ms' nb'. split.
      * intros H. injection H as <- <-. exists out, k. now repeat split.
      * intros [out' [k' [H [-> ->]]]]. injection H as <- <-. reflexivity.
    + intros e. split; discriminate.
  - split.
    + intros ms' nb'. split; [discriminate |].
      intros [out [k [H _]]]. discriminate.
    + intros e. tauto.
Qed.

Lemma X10_witness :
  (forall ms' nb',
     rebuild 5 true [(0, 0)] [ARC (1, 1) 2 0 90] 3 = Ok (ms', nb') <->
     exists out k,
       rebuild 5 true [(0, 0)] [] 0%nat = Ok (out, k) /\
       ms' = [ARC (1, 1) 2 0 90] ++ out /\ nb' = (3 + k)%nat) /\
  (forall e,
     rebuild 5 true [(0, 0)] [ARC (1, 1) 2 0 90] 3 = Raise e <->
     rebuild 5 true [(0, 0)] [] 0%nat = Raise e).
Proof.
  exact (X10_rebuild_appends_independent_output 5 true [(0, 0)]
           [ARC (1, 1) 2 0 90] 3).
Defined.

(** ** When the rebuild of a contour fails *)

Lemma regular_not_folded (radius : R) (skip : bool) (points : list point)
    (i : nat) :
  0 <= radius ->
  (regular radius skip points i <-> ~ folded radius skip points i).
Proof.
  intros Hr. unfold regular, folded.
  destruct (triple points i) as [[q0 q1] q2].
  set (r := vertex_radius radius skip q0 q1 q2).
  destruct (Req_dec_T r 0) as [Z | N]; [tauto |].
  assert (A : q0 <> q1 /\ q2 <> q1).
  { split; intros E; apply N; unfold r;
      apply vertex_radius_zero_edge; try assumption.
    - left. now apply distance_zero_iff.
    - right. now apply distance_zero_iff. }
  destruct A as [A0 A2].
  pose proof (divisor_zero_iff q0 q1 q2 A0 A2) as Hd.
  destruct (Req_dec_T (divisor q0 q1 q2) 0) as [Zd | Nd]; tauto.
Qed.

Lemma folded_dec (radius : R) (skip : bool) (points : list point) (n : nat) :
  (exists i, (i < n)%nat /\ folded radius skip points i) \/
  (forall i, (i < n)%nat -> ~ folded radius skip points i).
Proof.
  induction n as [| n [[i [Hi Hf]] | IH]].
  - right. intros i Hi. lia.
  - left. exists i. split; [lia | assumption].
  - assert (D : folded radius skip points n \/ ~ folded radius skip points n).
    { unfold folded. destruct (triple points n) as [[q0 q1] q2].
      destruct (Req_dec_T (vertex_radius radius skip q0 q1 q2) 0);
        destruct (Req_dec_T (turn q0 q1 q2) 0);
        destruct (Rlt_dec 0 (edge_dot q0 q1 q2)); tauto. }
    destruct D as [Hf | Hf].
    + left. exists n. split; [lia | assumption].
    + right. intros i Hi. destruct (Nat.eq_dec i n) as [-> | Ne];
        [assumption | apply IH; lia].
Qed.

(** X11. The three outcomes of the rebuild of a contour, for a radius that
    is not negative.  It raises [IndexError] exactly on a contour without
    vertex; it raises [ZeroDivisionError] exactly when some vertex is
    filleted although its two neighbours (after rounding) lie in the same
    direction from it; and it returns exactly when the contour has a
    vertex and no such fold. *)
Theorem X11_rebuild_outcomes
    (radius : R) (skip : bool) (points : list point)
    (ms : modelspace) (nb : nat) :
  0 <= radius ->
  (rebuild radius skip points ms nb = Raise IndexError <-> points = []) /\
  (rebuild radius skip points ms nb = Raise ZeroDivisionError <->
   exists i, (i < length points)%nat /\ folded radius skip points i) /\
  ((exists res, rebuild radius skip points ms nb = Ok res) <->
   points <> [] /\
   forall i, (i < length points)%nat -> ~ folded radius skip points i).
Proof.
  intros Hr.
  destruct points as [| p l].
  - rewrite rebuild_nil.
    split; [tauto |]. split.
    + split; [discriminate |]. intros [i [Hi _]]. cbn in Hi. lia.
    + split; [intros [res H]; discriminate | intros [H _]; contradiction].
  - destruct (folded_dec radius skip (p :: l) (length (p :: l)))
      as [[i [Hi Hf]] | Hnone].
    + rewrite rebuild_raises.
      2:{ exists i. split; [assumption |].
          rewrite regular_not_folded by assumption. tauto. }
      split; [split; discriminate |]. split.
      * split; [intros _; now exists i | reflexivity].
      * split; [intros [res H]; discriminate |].
        intros [_ H]. exfalso. exact (H i Hi Hf).
    + destruct (rebuild_returns radius skip (p :: l) ms nb)
        as [m0 [st [_ [_ E]]]]; [discriminate | |].
      { intros i Hi. rewrite regular_not_folded by assumption.
        now apply Hnone. }
      rewrite E.
      split; [split; discriminate |]. split.
      * split; [discriminate |]. intros [i [Hi Hf]].
        exfalso. exact (Hnone i Hi Hf).
      * split; [intros _; split; [discriminate | assumption] |].
        intros _. eexists. reflexivity.
Qed.

Lemma X11_witness :
  0 <= 5 /\
  (rebuild 5 true [] [] 0 = Raise IndexError <-> @nil point = []) /\
  (rebuild 5 true [] [] 0 = Raise ZeroDivisionError <->
   exists i, (i < length (@nil point))%nat /\ folded 5 true [] i) /\
  ((exists res, rebuild 5 true [] [] 0 = Ok res) <->
   @nil point <> [] /\
   forall i, (i < length (@nil point))%nat -> ~ folded 5 true [] i).
Proof.
  assert (H : 0 <= 5) by lra.
  split; [exact H |].
  exact (X11_rebuild_outcomes 5 true [] [] 0 H).
Defined.

(** X12. A contour of two distinct vertices cannot be filleted: as soon
    as the policy gives its first vertex a radius (skip = False, or the
    edge longer than twice the radius), both neighbours of that vertex are
    the other vertex, the divisor of line 41 is zero and the rebuild stops
    with [ZeroDivisionError]. *)
Theorem X12_two_vertex_contour_raises
    (radius : R) (skip : bool) (a b : point) (ms : modelspace) (nb : nat) :
  0 < radius ->
  round_point a <> round_point b ->
  skip = false \/ distance (round_point a) (round_point b) > 2 * radius ->
  rebuild radius skip [a; b] ms nb = Raise ZeroDivisionError.
Proof.
  intros Hr Hab Hpol. apply rebuild_raises.
  exists 0%nat. split; [cbn; lia |].
  unfold regular.
  change (triple [a; b] 0) with (round_point b, round_point a, round_point b).
  cbv beta iota. rewrite divisor_same_neighbour.
  intros [Hz | Hd]; [| now apply Hd].
  destruct Hpol as [-> | Hlong].
  - apply vertex_radius_zero_iff in Hz; [| assumption].
    destruct Hz as [E | E]; apply Hab; congruence.
  - unfold vertex_radius in Hz.
    rewrite (distance_sym (round_point b) (round_point a)) in Hz.
    rewrite Rgtb_true in Hz by assumption. cbn [andb] in Hz. lra.
Qed.

Lemma X12_witness :
  0 < 5 /\ round_point (0, 0) <> round_point (20, 0) /\
  (true = false \/
   distance (round_point (0, 0)) (round_point (20, 0)) > 2 * 5) /\
  rebuild 5 true [(0, 0); (20, 0)] [] 0 = Raise ZeroDivisionError.
Proof.
  assert (R0 : round_point (0, 0) = (0, 0))
    by (apply round_point_id; split; apply rounded_IZR).
  assert (R1 : round_point (20, 0) = (20, 0))
    by (apply round_point_id; split; apply rounded_IZR).
  assert (H0 : 0 < 5) by lra.
  assert (H1 : round_point (0, 0) <> round_point (20, 0)).
  { rewrite R0, R1. intros E. injection E. lra. }
  assert (H2 : true = false \/
               distance (round_point (0, 0)) (round_point (20, 0)) > 2 * 5).
  { right. rewrite R0, R1.
    replace (distance (0, 0) (20, 0)) with 20; [lra |].
    symmetry. apply distance_eq; [lra | unfold dsq; cbn [fst snd]; ring]. }
  split; [exact H0 |]. split; [exact H1 |]. split; [exact H2 |].
  exact (X12_two_vertex_contour_raises 5 true (0, 0) (20, 0) [] 0 H0 H1 H2).
Defined.

(** ** Contours whose vertices are all left sharp *)

Lemma chain_firstn (qs : list point) (k : nat) (d : point) :
  (S k < length qs)%nat ->
  chain (firstn (S (S k)) qs) =
  chain (firstn (S k) qs)
    ++ [LINE (fst (nth k qs d), snd (nth k qs d), 0)
             (fst (nth (S k) qs d), snd (nth (S k) qs d), 0)].
Proof.
  revert qs. induction k as [| k IH]; intros qs Hk.
  - destruct qs as [| a [| b l]]; cbn in Hk; try lia. reflexivity.
  - destruct qs as [| a [| b l]]; cbn in Hk; try lia.
    specialize (IH (b :: l)).
    change (firstn (S (S (S k))) (a :: b :: l))
      with (a :: firstn (S (S k)) (b :: l)).
    change (firstn (S (S k)) (a :: b :: l))
      with (a :: firstn (S k) (b :: l)).
    change (nth (S k) (a :: b :: l) d) with (nth k (b :: l) d).
    change (nth (S (S k)) (a :: b :: l) d) with (nth (S k) (b :: l) d).
    change (firstn (S (S k)) (b :: l)) with (b :: firstn (S k) l) in *.
    change (firstn (S k) (b :: l)) with (b :: firstn k l) in *.
    cbn [chain app]. f_equal. apply IH. cbn. lia.
Qed.

Lemma nth_last {A : Type} (l : list A) (d : A) :
  nth (length l - 1) l d = last l d.
Proof.
  induction l as [| a [| b l] IH]; try reflexivity.
  change (last (a :: b :: l) d) with (last (b :: l) d). rewrite <- IH.
  cbn [length Nat.sub nth]. now rewrite Nat.sub_0_r.
Qed.

Lemma vertex_radius_zero_radius (skip : bool) (p0 p1 p2 : point) :
  vertex_radius 0 skip p0 p1 p2 = 0.
Proof.
  unfold vertex_radius, Rgtb.
  pose proof (distance_nonneg p0 p1). pose proof (distance_nonneg p1 p2).
  destruct (Rgt_dec (distance p0 p1) (2 * 0)) as [Ha | Ha];
    destruct (Rgt_dec (distance p1 p2) (2 * 0)) as [Hb | Hb];
    cbn [andb]; try reflexivity;
    destruct skip; cbn [negb]; try reflexivity;
    unfold Rmin; destruct (Rle_dec _ _); lra.
Qed.

Section AllSharp.

Variables (radius : R) (skip : bool) (points : list point).
Variables (ms : modelspace) (nb : nat) (m0 : point).

Hypothesis Hsharp : forall i, (i < length points)%nat ->
  let '(q0, q1, q2) := triple points i in
  vertex_radius radius skip q0 q1 q2 = 0.

(** The state of the loop after [k] sharp vertices. *)
Let sharp_state (k : nat) : loop_state :=
  mkState (ms ++ chain (firstn k (map round_point points))) nb
          (hd (0, 0) points)
          (if (k =? 0)%nat then m0
           else round_point (nth (k - 1) points (0, 0))).

Lemma sharp_step (k : nat) :
  (k < length points)%nat ->
  body radius skip points k (sharp_state k) = Ok (sharp_state (S k)).
Proof.
  intros Hk.
  rewrite (body_pass radius skip points k _ _ _ _
             (index_prev points k (0, 0) Hk) (index_nth points k (0, 0) Hk)
             (index_next points k (0, 0) Hk)).
  2:{ specialize (Hsharp k Hk). unfold triple in Hsharp. exact Hsharp. }
  f_equal. unfold after_pass, sharp_state.
  cbn [space nb_lines first memory]. rewrite Nat.sub_succ, Nat.sub_0_r.
  destruct k as [| k]; cbn [Nat.eqb].
  - f_equal. destruct points as [| a l]; reflexivity.
  - f_equal. unfold add_line.
    rewrite (chain_firstn _ k (round_point (0, 0)))
      by (rewrite length_map; lia).
    rewrite !map_nth, Nat.sub_succ, Nat.sub_0_r, app_assoc. reflexivity.
Qed.

Lemma sharp_loop (len k : nat) :
  (k + len <= length points)%nat ->
  for_range (body radius skip points) (seq k len) (sharp_state k)
    = Ok (sharp_state (k + len)).
Proof.
  revert k. induction len as [| len IH]; intros k Hk.
  - now rewrite Nat.add_0_r.
  - cbn [seq for_range]. rewrite sharp_step by lia. cbn [bind].
    rewrite IH by lia. now rewrite Nat.add_succ_r.
Qed.

End AllSharp.

(** X13. A contour none of whose vertices gets a radius (every vertex
    radius of lines 96-101 is 0, as for a configured radius 0) is copied as
    straight lines: the rebuild adds the chain of lines through the
    rounded vertices, then the closing line from the last rounded vertex
    to the first vertex as read, not rounded; and it counts one line,
    whatever the number of lines added. *)
Theorem X13_sharp_contour_copied_as_lines
    (radius : R) (skip : bool) (points : list point)
    (ms : modelspace) (nb : nat) :
  points <> [] ->
  (forall i, (i < length points)%nat ->
     let '(q0, q1, q2) := triple points i in
     vertex_radius radius skip q0 q1 q2 = 0) ->
  rebuild radius skip points ms nb =
  Ok (ms ++ chain (map round_point points)
         ++ [LINE (fst (round_point (last points (0, 0))),
                   snd (round_point (last points (0, 0))), 0)
                  (fst (hd (0, 0) points), snd (hd (0, 0) points), 0)],
      S nb).
Proof.
  intros Hne Hsharp. unfold rebuild.
  assert (Hlen : (0 < length points)%nat)
    by (destruct points; [contradiction | cbn; lia]).
  pose proof (index_prev points 0 (0, 0) Hlen) as Hm.
  change (Z.of_nat 0 - 1)%Z with (-1)%Z in Hm. cbn [Nat.eqb] in Hm.
  rewrite Hm. cbn [bind].
  apply Nat.ltb_lt in Hlen. rewrite Hlen.
  pose proof (sharp_loop radius skip points ms nb
                (nth (length points - 1) points (0, 0)) Hsharp
                (length points) 0 (Nat.le_refl _)) as Hloop.
  cbn [Nat.add Nat.eqb firstn chain] in Hloop.
  rewrite app_nil_r in Hloop. rewrite Hloop. cbn [bind].
  apply Nat.ltb_lt in Hlen.
  destruct (length points =? 0)%nat eqn:E; [apply Nat.eqb_eq in E; lia |].
  cbn [space memory first nb_lines]. unfold add_line.
  rewrite <- (length_map round_point points) at 1. rewrite firstn_all.
  rewrite nth_last, <- app_assoc. reflexivity.
Qed.

Lemma X13_witness :
  [(0, 0); (1, 0); (1, 1)] <> [] /\
  (forall i, (i < length [(0, 0); (1, 0); (1, 1)])%nat ->
     let '(q0, q1, q2) := triple [(0, 0); (1, 0); (1, 1)] i in
     vertex_radius 0 true q0 q1 q2 = 0) /\
  rebuild 0 true [(0, 0); (1, 0); (1, 1)] [] 0 =
  Ok ([] ++ chain (map round_point [(0, 0); (1, 0); (1, 1)])
         ++ [LINE (fst (round_point (last [(0, 0); (1, 0); (1, 1)] (0, 0))),
                   snd (round_point (last [(0, 0); (1, 0); (1, 1)] (0, 0))),
                   0)
                  (fst (hd (0, 0) [(0, 0); (1, 0); (1, 1)]),
                   snd (hd (0, 0) [(0, 0); (1, 0); (1, 1)]), 0)],
      1%nat).
Proof.
  assert (H0 : [(0, 0); (1, 0); (1, 1)] <> []) by discriminate.
  assert (H1 : forall i, (i < length [(0, 0); (1, 0); (1, 1)])%nat ->
     let '(q0, q1, q2) := triple [(0, 0); (1, 0); (1, 1)] i in
     vertex_radius 0 true q0 q1 q2 = 0).
  { intros i _. destruct (triple _ i) as [[q0 q1] q2].
    apply vertex_radius_zero_radius. }
  split; [exact H0 |]. split; [exact H1 |].
  exact (X13_sharp_contour_copied_as_lines 0 true [(0, 0); (1, 0); (1, 1)]
           [] 0 H0 H1).
Defined.

(** ** The number of lines reported *)

Lemma count_type_app (name : string) (a b : modelspace) :
  count_type name (a ++ b) = (count_type name a + count_type name b)%nat.
Proof. unfold count_type. now rewrite filter_app, length_app. Qed.

Section LineCount.

Variables (radius : R) (skip : bool) (points : list point).
Variables (ms0 : modelspace) (nb0 : nat).

(** What the loop has added after [i] vertices: some arcs and lines, at
    most [i] arcs and [i - 1] lines, the counted lines among them. *)
Definition count_inv (i : nat) (st : loop_state) : Prop :=
  exists out,
    space st = ms0 ++ out /\
    (nb0 <= nb_lines st <= nb0 + count_type "LINE" out)%nat /\
    (count_type "LINE" out <= Nat.pred i)%nat /\
    (count_type "ARC" out <= i)%nat /\
    length out = (count_type "LINE" out + count_type "ARC" out)%nat.

Lemma body_keeps_count (i : nat) (st st' : loop_state) :
  count_inv i st -> body radius skip points i st = Ok st' ->
  count_inv (S i) st'.
Proof.
  intros [out [Hsp [Hnb [HL [HA Hlen]]]]] Hbody.
  destruct (body_inv _ _ _ _ _ _ Hbody)
    as [p0 [p1 [p2 [_ [_ [_ [[Hr [ms1 [t1 [t2 [Hf ->]]]]] | [Hr ->]]]]]]]].
  - destruct (add_fillet_inv _ _ _ _ _ _ _ Hf) as [c [sa [ea [-> _]]]].
    set (r := vertex_radius _ _ _ _ _) in *.
    destruct (i =? 0)%nat eqn:Ei.
    + apply Nat.eqb_eq in Ei. subst i.
      exists (out ++ [ARC c r sa ea]). cbn [space nb_lines].
      rewrite Hsp, <- app_assoc, !count_type_app, length_app.
      change (count_type "LINE" [ARC c r sa ea]) with 0%nat.
      change (count_type "ARC" [ARC c r sa ea]) with 1%nat.
      cbn [length]. repeat split; lia.
    + apply Nat.eqb_neq in Ei. destruct (Rneb _ 0).
      * exists (out ++ [ARC c r sa ea;
                        LINE (fst (memory st), snd (memory st), 0)
                             (fst t1, snd t1, 0)]).
        cbn [space nb_lines]. unfold add_line.
        rewrite Hsp, <- !app_assoc, !count_type_app, length_app.
        cbn [app].
        change (count_type "LINE" [ARC c r sa ea; LINE _ _]) with 1%nat.
        change (count_type "ARC" [ARC c r sa ea; LINE _ _]) with 1%nat.
        cbn [length]. repeat split; lia.
      * exists (out ++ [ARC c r sa ea]). cbn [space nb_lines].
        rewrite Hsp, <- app_assoc, !count_type_app, length_app.
        change (count_type "LINE" [ARC c r sa ea]) with 0%nat.
        change (count_type "ARC" [ARC c r sa ea]) with 1%nat.
        cbn [length]. repeat split; lia.
  - unfold after_pass. destruct (i =? 0)%nat eqn:Ei.
    + apply Nat.eqb_eq in Ei. subst i.
      exists out. cbn [space nb_lines]. repeat split; try assumption; lia.
    + apply Nat.eqb_neq in Ei.
      exists (out ++ [LINE (fst (memory st), snd (memory st), 0)
                           (fst (round_point p1), snd (round_point p1), 0)]).
      cbn [space nb_lines]. unfold add_line.
      rewrite Hsp, <- app_assoc, !count_type_app, length_app.
      change (count_type "LINE" [LINE _ _]) with 1%nat.
      change (count_type "ARC" [LINE _ _]) with 0%nat.
      cbn [length]. repeat split; lia.
Qed.

End LineCount.

(** When the rebuild of a contour returns, the entities added are arcs
    and lines only, at most one arc and one line per vertex; the line
    counter has grown by at least one and by at most the number of lines
    added. *)
Lemma rebuild_line_count
    (radius : R) (skip : bool) (points : list point)
    (ms : modelspace) (nb : nat) (ms' : modelspace) (nb' : nat) :
  rebuild radius skip points ms nb = Ok (ms', nb') ->
  exists out,
    ms' = ms ++ out /\
    (nb < nb' <= nb + count_type "LINE" out)%nat /\
    (count_type "LINE" out <= length points)%nat /\
    (count_type "ARC" out <= length points)%nat /\
    length out = (count_type "LINE" out + count_type "ARC" out)%nat.
Proof.
  unfold rebuild. destruct points as [| p l].
  - rewrite index_nil. discriminate.
  - intros H.
    destruct (index (p :: l) (-1)) as [m0 |]; cbn [bind] in H; [| discriminate].
    destruct (for_range _ _ _) as [st |] eqn:Hloop; cbn [bind] in H;
      [| discriminate].
    change (0 <? length (p :: l))%nat with true in *. cbv iota in H, Hloop.
    injection H as <- <-.
    apply (for_range_seq_invariant _ (count_inv ms nb)) in Hloop.
    + destruct Hloop as [out [Hsp [Hnb [HL [HA Hlen]]]]].
      exists (out ++ [LINE (fst (memory st), snd (memory st), 0)
                           (fst (first st), snd (first st), 0)]).
      unfold add_line.
      rewrite Hsp, <- app_assoc, !count_type_app, length_app.
      change (count_type "LINE" [LINE _ _]) with 1%nat.
      change (count_type "ARC" [LINE _ _]) with 0%nat.
      cbn [length Nat.add] in *. repeat split; lia.
    + intros i s s' _. apply body_keeps_count.
    + exists []. cbn [space nb_lines]. rewrite app_nil_r.
      change (count_type "LINE" []) with 0%nat.
      change (count_type "ARC" []) with 0%nat.
      cbn [length]. repeat split; lia.
Qed.

(** ** Arcs, lines and the line counter *)

Section Tally.

Variables (radius : R) (skip : bool) (points : list point).
Variables (ms0 : modelspace) (nb0 : nat).

(** After [i] vertices: one arc per filleted vertex, and one line that
    the counter has missed per sharp vertex other than the first. *)
Definition tally_inv (i : nat) (st : loop_state) : Prop :=
  exists out,
    space st = ms0 ++ out /\
    (nb0 + count_type "LINE" out
     = nb_lines st + sharps radius skip points (seq 1 (Nat.pred i)))%nat /\
    count_type "ARC" out = fillets radius skip points (seq 0 i).

Lemma body_filleted (i : nat) (p0 p1 p2 : point) :
  (i < length points)%nat ->
  index points (Z.of_nat i - 1) = Ok p0 ->
  index points (Z.of_nat i) = Ok p1 ->
  index points ((Z.of_nat i + 1) mod Z.of_nat (length points)) = Ok p2 ->
  filleted radius skip points i =
  Rneb (vertex_radius radius skip (round_point p0) (round_point p1)
                      (round_point p2)) 0.
Proof.
  intros Hi H0 H1 H2.
  rewrite (index_prev points i (0, 0) Hi) in H0.
  rewrite (index_nth points i (0, 0) Hi) in H1.
  rewrite (index_next points i (0, 0) Hi) in H2.
  injection H0 as <-. injection H1 as <-. injection H2 as <-.
  reflexivity.
Qed.

Lemma tally_seq (f : nat -> bool) (start len : nat) :
  length (filter f (seq start (S len))) =
  (length (filter f (seq start len))
   + (if f (start + len)%nat then 1 else 0))%nat.
Proof.
  rewrite seq_S, filter_app, length_app. cbn [filter].
  destruct (f (start + len)%nat); reflexivity.
Qed.

Lemma body_keeps_tally (i : nat) (st st' : loop_state) :
  (i < length points)%nat ->
  tally_inv i st -> body radius skip points i st = Ok st' ->
  tally_inv (S i) st'.
Proof.
  intros Hi [out [Hsp [Hnb HA]]] Hbody.
  destruct (body_inv _ _ _ _ _ _ Hbody)
    as [p0 [p1 [p2 [H0 [H1 [H2 Hcases]]]]]].
  pose proof (body_filleted i p0 p1 p2 Hi H0 H1 H2) as Hf.
  cbv zeta in Hcases.
  set (r := vertex_radius radius skip (round_point p0) (round_point p1)
                          (round_point p2)) in *.
  unfold tally_inv, fillets, sharps in *.
  rewrite (tally_seq _ 0 i). cbn [Nat.pred Nat.add].
  destruct Hcases as [[Hr [ms1 [t1 [t2 [Hadd ->]]]]] | [Hr ->]].
  - rewrite Hf, (Rneb_true r 0) by assumption.
    destruct (add_fillet_inv _ _ _ _ _ _ _ Hadd) as [c [sa [ea [-> _]]]].
    destruct i as [| j].
    + cbn [Nat.eqb]. exists (out ++ [ARC c r sa ea]). cbn [space nb_lines].
      rewrite Hsp, <- app_assoc, !count_type_app.
      change (count_type "LINE" [ARC c r sa ea]) with 0%nat.
      change (count_type "ARC" [ARC c r sa ea]) with 1%nat.
      cbn [Nat.pred seq filter length] in *. repeat split; lia.
    + cbn [Nat.eqb Nat.pred] in *. rewrite (tally_seq _ 1 j).
      cbn [Nat.add]. rewrite Hf, (Rneb_true r 0) by assumption. cbn [negb].
      destruct (Rneb _ 0).
      * exists (out ++ [ARC c r sa ea;
                        LINE (fst (memory st), snd (memory st), 0)
                             (fst t1, snd t1, 0)]).
        cbn [space nb_lines]. unfold add_line.
        rewrite Hsp, <- !app_assoc, !count_type_app. cbn [app].
        change (count_type "LINE" [ARC c r sa ea; LINE _ _]) with 1%nat.
        change (count_type "ARC" [ARC c r sa ea; LINE _ _]) with 1%nat.
        repeat split; lia.
      * exists (out ++ [ARC c r sa ea]). cbn [space nb_lines].
        rewrite Hsp, <- app_assoc, !count_type_app.
        change (count_type "LINE" [ARC c r sa ea]) with 0%nat.
        change (count_type "ARC" [ARC c r sa ea]) with 1%nat.
        repeat split; lia.
  - rewrite Hf, (Rneb_false r 0) by assumption. unfold after_pass.
    destruct i as [| j].
    + cbn [Nat.eqb]. exists out. cbn [space nb_lines].
      cbn [Nat.pred seq filter length] in *. repeat split; try assumption; lia.
    + cbn [Nat.eqb Nat.pred] in *. rewrite (tally_seq _ 1 j).
      cbn [Nat.add]. rewrite Hf, (Rneb_false r 0) by assumption. cbn [negb].
      exists (out ++ [LINE (fst (memory st), snd (memory st), 0)
                           (fst (round_point p1), snd (round_point p1), 0)]).
      cbn [space nb_lines]. unfold add_line.
      rewrite Hsp, <- app_assoc, !count_type_app.
      change (count_type "LINE" [LINE _ _]) with 1%nat.
      change (count_type "ARC" [LINE _ _]) with 0%nat.
      repeat split; lia.
Qed.

End Tally.

(** X14. Arcs, lines and the counter of a rebuilt contour.  The rebuild
    adds exactly one arc per vertex given to [add_fillet]; and the number
    of lines it adds is the number it counts plus one for every vertex
    left sharp other than the first: the counter misses the lines of line
    113, and is exact when no vertex after the first is left sharp. *)
Theorem X14_rebuild_arcs_and_uncounted_lines
    (radius : R) (skip : bool) (points : list point)
    (ms : modelspace) (nb : nat) (ms' : modelspace) (nb' : nat) :
  rebuild radius skip points ms nb = Ok (ms', nb') ->
  exists out,
    ms' = ms ++ out /\
    count_type "ARC" out
      = fillets radius skip points (seq 0 (length points)) /\
    (nb + count_type "LINE" out
     = nb' + sharps radius skip points (seq 1 (length points - 1)))%nat.
Proof.
  unfold rebuild. destruct points as [| p l].
  - rewrite index_nil. discriminate.
  - intros H.
    destruct (index (p :: l) (-1)) as [m0 |]; cbn [bind] in H; [| discriminate].
    destruct (for_range _ _ _) as [st |] eqn:Hloop; cbn [bind] in H;
      [| discriminate].
    change (0 <? length (p :: l))%nat with true in *. cbv iota in H, Hloop.
    injection H as <- <-.
    apply (for_range_seq_invariant _
             (tally_inv radius skip (p :: l) ms nb)) in Hloop.
    + destruct Hloop as [out [Hsp [Hnb HA]]].
      exists (out ++ [LINE (fst (memory st), snd (memory st), 0)
                           (fst (first st), snd (first st), 0)]).
      unfold add_line.
      rewrite Hsp, <- app_assoc, !count_type_app.
      change (count_type "LINE" [LINE _ _]) with 1%nat.
      change (count_type "ARC" [LINE _ _]) with 0%nat.
      cbn [Nat.add length Nat.pred] in *.
      replace (S (length l) - 1)%nat with (length l) by lia.
      repeat split; lia.
    + intros i s s' Hi. apply body_keeps_tally. lia.
    + exists []. cbn [space nb_lines]. rewrite app_nil_r.
      repeat split.
Qed.

Lemma X14_witness :
  rebuild 5 true [(0, 0)] [] 0 = Ok ([] ++ [LINE (0, 0, 0) (0, 0, 0)], 1%nat) /\
  exists out,
    [] ++ [LINE (0, 0, 0) (0, 0, 0)] = [] ++ out /\
    count_type "ARC" out
      = fillets 5 true [(0, 0)%R] (seq 0 (length [(0, 0)%R])) /\
    (0 + count_type "LINE" out
     = 1 + sharps 5 true [(0, 0)%R] (seq 1 (length [(0, 0)%R] - 1)))%nat.
Proof.
  assert (H : rebuild 5 true [(0, 0)] [] 0
              = Ok ([] ++ [LINE (0, 0, 0) (0, 0, 0)], 1%nat))
    by (apply rebuild_single_point; lra).
  split; [exact H |].
  exact (X14_rebuild_arcs_and_uncounted_lines 5 true [(0, 0)] [] 0 _ _ H).
Defined.

(** ** The rebuild reads rounded vertices *)

Lemma body_first_memory (radius : R) (skip : bool) (points : list point)
    (sp : modelspace) (n : nat) (f m m' : point) :
  body radius skip points 0 (mkState sp n f m)
    = body radius skip points 0 (mkState sp n f m').
Proof. reflexivity. Qed.

Lemma body_rounded (radius : R) (skip : bool) (points points' : list point)
    (i : nat) (st : loop_state) :
  map round_point points = map round_point points' ->
  (i < length points)%nat ->
  body radius skip points i st = body radius skip points' i st.
Proof.
  intros Hmap Hi.
  assert (Hlen : length points = length points').
  { rewrite <- (length_map round_point points), Hmap. apply length_map. }
  assert (Hi' : (i < length points')%nat) by lia.
  assert (Hnth : forall k, round_point (nth k points (0, 0))
                           = round_point (nth k points' (0, 0))).
  { intros k. rewrite <- !(map_nth round_point). now rewrite Hmap. }
  pose proof (body_unfold radius skip points i st _ _ _
                (index_prev points i (0, 0) Hi)
                (index_nth points i (0, 0) Hi)
                (index_next points i (0, 0) Hi)) as B.
  pose proof (body_unfold radius skip points' i st _ _ _
                (index_prev points' i (0, 0) Hi')
                (index_nth points' i (0, 0) Hi')
                (index_next points' i (0, 0) Hi')) as B'.
  cbv zeta in B, B'. rewrite B, B', <- Hlen, !Hnth. reflexivity.
Qed.

Lemma for_range_rounded (radius : R) (skip : bool)
    (points points' : list point) (range : list nat) (st : loop_state) :
  map round_point points = map round_point points' ->
  (forall i, In i range -> (i < length points)%nat) ->
  for_range (body radius skip points) range st
    = for_range (body radius skip points') range st.
Proof.
  intros Hmap. revert st. induction range as [| i rest IH]; intros st Hlt;
    [reflexivity |].
  cbn [for_range]. rewrite (body_rounded radius skip points points' i st Hmap)
    by (apply Hlt; now left).
  destruct (body radius skip points' i st) as [s1 |]; cbn [bind];
    [| reflexivity].
  apply IH. intros k Hk. apply Hlt. now right.
Qed.

(** X15. The rebuild reads its vertices through their roundings.  Two
    contours whose vertices round to the same points, and whose first
    vertices are equal, are rebuilt alike: same entities, same count, same
    exception.  Of the coordinates as read, only those of the first vertex
    can reach the drawing. *)
Theorem X15_rebuild_depends_on_rounded_vertices
    (radius : R) (skip : bool) (points points' : list point)
    (ms : modelspace) (nb : nat) :
  map round_point points = map round_point points' ->
  hd (0, 0) points = hd (0, 0) points' ->
  rebuild radius skip points ms nb = rebuild radius skip points' ms nb.
Proof.
  intros Hmap Hhd.
  assert (Hlen : length points = length points').
  { rewrite <- (length_map round_point points), Hmap. apply length_map. }
  destruct points as [| p l], points' as [| p' l']; try discriminate Hlen;
    [reflexivity |].
  unfold rebuild. rewrite <- Hlen, <- Hhd.
  assert (Hl : (0 < length (p :: l))%nat) by (cbn; lia).
  assert (Hl' : (0 < length (p' :: l'))%nat) by (cbn; lia).
  pose proof (index_prev (p :: l) 0 (0, 0) Hl) as Hm.
  pose proof (index_prev (p' :: l') 0 (0, 0) Hl') as Hm'.
  change (Z.of_nat 0 - 1)%Z with (-1)%Z in Hm, Hm'.
  rewrite Hm, Hm'. cbn [bind].
  rewrite <- (for_range_rounded radius skip (p :: l) (p' :: l') _ _ Hmap)
    by (intros i Hi; apply in_seq in Hi; lia).
  change (seq 0 (length (p :: l))) with (0%nat :: seq 1 (length l)).
  cbn [for_range].
  rewrite (body_first_memory radius skip (p :: l) ms nb _ _
             (nth (if (0 =? 0)%nat then length (p' :: l') - 1 else 0 - 1)
                  (p' :: l') (0, 0))).
  reflexivity.
Qed.

Lemma X15_witness :
  map round_point [(0, 0); (4 / 10000, 0)]
    = map round_point [(0, 0); (0, 0)] /\
  hd (0, 0) [(0, 0); (4 / 10000, 0)] = hd (0, 0) [(0, 0); (0, 0)] /\
  rebuild 5 true [(0, 0); (4 / 10000, 0)] [] 0
    = rebuild 5 true [(0, 0); (0, 0)] [] 0.
Proof.
  assert (H : map round_point [(0, 0); (4 / 10000, 0)]
              = map round_point [(0, 0); (0, 0)]).
  { cbn [map]. unfold round_point; cbn [fst snd]. rewrite round_small.
    now rewrite (rounded_IZR 0). }
  split; [exact H |]. split; [reflexivity |].
  exact (X15_rebuild_depends_on_rounded_vertices 5 true
           [(0, 0); (4 / 10000, 0)] [(0, 0); (0, 0)] [] 0 H eq_refl).
Defined.

(** ** The histogram of the sanitizer *)

Lemma get_bump (t u : string) (types : list (string * nat)) :
  get t (bump u types) =
  if String.eqb u t then S (get t types) else get t types.
Proof.
  induction types as [| [k n] rest IH]; cbn [bump get].
  - destruct (String.eqb u t); reflexivity.
  - destruct (String.eqb k u) eqn:Eku; cbn [get].
    + apply String.eqb_eq in Eku. subst k.
      destruct (String.eqb u t); reflexivity.
    + destruct (String.eqb k t) eqn:Ekt; [| exact IH].
      apply String.eqb_eq in Ekt. subst k.
      now rewrite String.eqb_sym, Eku.
Qed.

Lemma keys_bump (t u : string) (types : list (string * nat)) :
  In t (map fst (bump u types)) <-> t = u \/ In t (map fst types).
Proof.
  induction types as [| [k n] rest IH]; cbn [bump map fst In].
  - intuition congruence.
  - destruct (String.eqb k u) eqn:Eku; cbn [map fst In].
    + apply String.eqb_eq in Eku. subst k. intuition congruence.
    + rewrite IH. tauto.
Qed.

Lemma nodup_bump (u : string) (types : list (string * nat)) :
  NoDup (map fst types) -> NoDup (map fst (bump u types)).
Proof.
  induction types as [| [k n] rest IH]; cbn [bump map fst]; intros H.
  - constructor; [intros [] | constructor].
  - inversion H as [| x l Hk Hrest]; subst.
    destruct (String.eqb k u) eqn:Eku; cbn [map fst].
    + constructor; assumption.
    + constructor; [| now apply IH].
      rewrite keys_bump. intros [E | Hin]; [| contradiction].
      subst k. now rewrite String.eqb_refl in Eku.
Qed.

Lemma count_type_cons (t : string) (e : entity) (ms : modelspace) :
  count_type t (e :: ms) =
  ((if String.eqb (dxftype e) t then 1 else 0) + count_type t ms)%nat.
Proof.
  unfold count_type, is_type. cbn [filter].
  destruct (String.eqb (dxftype e) t); reflexivity.
Qed.

Lemma count_type_pos (t : string) (ms : modelspace) :
  (0 < count_type t ms)%nat <-> exists e, In e ms /\ dxftype e = t.
Proof.
  induction ms as [| e l IH].
  - cbn. split; [lia | intros [e [[] _]]].
  - rewrite count_type_cons.
    destruct (String.eqb (dxftype e) t) eqn:E.
    + apply String.eqb_eq in E. split; [| lia].
      intros _. exists e. split; [now left | assumption].
    + apply String.eqb_neq in E. cbn [Nat.add]. rewrite IH.
      split; intros [x [Hin Hx]]; exists x.
      * split; [now right | assumption].
      * destruct Hin as [<- | Hin]; [contradiction | now split].
Qed.

Lemma histogram_fold (ms : modelspace) (acc : list (string * nat)) :
  let h := fold_left (fun types e => bump (dxftype e) types) ms acc in
  (forall t, get t h = (get t acc + count_type t ms)%nat) /\
  (forall t, In t (map fst h) <->
             In t (map fst acc) \/ exists e, In e ms /\ dxftype e = t) /\
  (NoDup (map fst acc) -> NoDup (map fst h)).
Proof.
  revert acc. induction ms as [| e l IH]; intros acc; cbn [fold_left].
  - split; [| split].
    + intros t. change (count_type t []) with 0%nat. lia.
    + intros t. split; [tauto | intros [H | [e [[] _]]]; exact H].
    + tauto.
  - destruct (IH (bump (dxftype e) acc)) as [Hget [Hkeys Hnd]].
    cbv zeta in *. split; [| split].
    + intros t. rewrite Hget, get_bump, count_type_cons.
      destruct (String.eqb (dxftype e) t); lia.
    + intros t. rewrite Hkeys, keys_bump. split.
      * intros [[E | H] | [x [Hin Hx]]].
        -- right. exists e. split; [now left | now symmetry].
        -- now left.
        -- right. exists x. split; [now right | assumption].
      * intros [H | [x [[<- | Hin] Hx]]].
        -- left. now right.
        -- left. left. now symmetry.
        -- right. now exists x.
    + intros H. apply Hnd. now apply nodup_bump.
Qed.

Lemma in_get (t : string) (n : nat) (types : list (string * nat)) :
  NoDup (map fst types) ->
  (In (t, n) types <-> In t (map fst types) /\ get t types = n).
Proof.
  induction types as [| [k m] rest IH]; cbn [map fst In get]; intros H.
  - tauto.
  - inversion H as [| x l Hk Hrest]; subst. specialize (IH Hrest).
    destruct (String.eqb k t) eqn:E.
    + apply String.eqb_eq in E. subst k. split.
      * intros [Heq | Hin]; [injection Heq as <-; tauto |].
        exfalso. apply Hk. apply in_map_iff. now exists (t, n).
      * intros [_ <-]. now left.
    + apply String.eqb_neq in E. rewrite IH. split.
      * intros [Heq | Hin]; [injection Heq as Heq _; contradiction | tauto].
      * intros [[Heq | Hin] Hg]; [contradiction | tauto].
Qed.

(** X16. The histogram printed by [checks] is right: its keys are
    distinct, and it holds the pair (t, n) exactly when there are n > 0
    entities of type t in the cleaned drawing; the count looked up for any
    type, 0 when the type is absent, is the number of entities of that
    type; and POINT is never a key. *)
Theorem X16_histogram_counts_types (ms : modelspace) :
  let rep := checks ms in
  NoDup (map fst (types rep)) /\
  (forall t n, In (t, n) (types rep) <->
               n = count_type t (cleaned rep) /\ (0 < n)%nat) /\
  (forall t, get t (types rep) = count_type t (cleaned rep)) /\
  ~ In "POINT"%string (map fst (types rep)).
Proof.
  cbv zeta. unfold checks; cbn [types cleaned].
  set (ms' := filter _ _).
  destruct (histogram_fold ms' []) as [Hget [Hkeys Hnd]]. cbv zeta in *.
  fold (histogram ms') in Hget, Hkeys, Hnd.
  assert (ND : NoDup (map fst (histogram ms'))) by (apply Hnd; constructor).
  assert (Hg : forall t, get t (histogram ms') = count_type t ms')
    by (intros t; rewrite Hget; reflexivity).
  split; [exact ND |]. split; [| split; [exact Hg |]].
  - intros t n. rewrite (in_get t n _ ND), Hkeys, Hg.
    cbn [map In]. split.
    + intros [[[] | Hex] <-]. split; [reflexivity |].
      now apply count_type_pos.
    + intros [-> Hpos]. split; [right; now apply count_type_pos | reflexivity].
  - rewrite Hkeys. cbn [map In]. intros [[] | [e [Hin He]]].
    unfold ms' in Hin. apply filter_In in Hin. destruct Hin as [_ Hty].
    unfold is_type in Hty. rewrite He in Hty. discriminate Hty.
Qed.

Lemma X16_witness :
  let rep := checks [LINE (1, 2, 3) (4, 5, 6); POINT (7, 8, 9)] in
  NoDup (map fst (types rep)) /\
  (forall t n, In (t, n) (types rep) <->
               n = count_type t (cleaned rep) /\ (0 < n)%nat) /\
  (forall t, get t (types rep) = count_type t (cleaned rep)) /\
  ~ In "POINT"%string (map fst (types rep)).
Proof.
  exact (X16_histogram_counts_types
           [LINE (1, 2, 3) (4, 5, 6); POINT (7, 8, 9)]).
Defined.

(** ** What the sanitizer keeps *)

Lemma flatten_dxftype (e : entity) : dxftype (flatten e) = dxftype e.
Proof.
  destruct e as [c r a b | s t | z pts | l | n [z |] [s |] [t |] c0];
    reflexivity.
Qed.

Lemma flatten_idempotent (e : entity) : flatten (flatten e) = flatten e.
Proof.
  destruct e as [c r a b | s t | z pts | l | n [z |] [s |] [t |] c0];
    reflexivity.
Qed.

Lemma flatten_attributes (e : entity) :
  dxf_elevation (flatten e) = option_map (fun _ => 0) (dxf_elevation e) /\
  dxf_start (flatten e)
    = option_map (fun s => (px s, py s, 0)) (dxf_start e) /\
  dxf_end (flatten e) = option_map (fun t => (px t, py t, 0)) (dxf_end e) /\
  get_points (flatten e) = get_points e.
Proof.
  destruct e as [c r a b | s t | z pts | l | n [z |] [s |] [t |] c0];
    repeat split; reflexivity.
Qed.

Lemma filter_map_flatten (name : string) (ms : modelspace) :
  filter (fun e => negb (is_type name e)) (map flatten ms) =
  map flatten (filter (fun e => negb (is_type name e)) ms).
Proof.
  induction ms as [| e l IH]; [reflexivity |].
  cbn [map filter].
  assert (E : is_type name (flatten e) = is_type name e)
    by (unfold is_type; now rewrite flatten_dxftype).
  rewrite E. destruct (negb (is_type name e)); cbn [map]; now rewrite IH.
Qed.

Lemma filter_idempotent {A : Type} (f : A -> bool) (l : list A) :
  filter f (filter f l) = filter f l.
Proof.
  induction l as [| a l IH]; [reflexivity |].
  cbn [filter]. destruct (f a) eqn:E; [| exact IH].
  cbn [filter]. now rewrite E, IH.
Qed.

Lemma cleaned_checks (ms : modelspace) :
  cleaned (checks ms) =
  map flatten (filter (fun e => negb (is_type "POINT" e)) ms).
Proof. unfold checks; cbn [cleaned]. apply filter_map_flatten. Qed.

(** X17. The sanitizer only removes POINT entities and flattens: the
    cleaned drawing is the input without its entities of type POINT, in
    the same order, each with the same type, the same vertices and the
    same x and y of its start and end points; only the elevation and the
    z of start and end become 0, and an arc is left as it is. *)
Theorem X17_sanitizer_keeps_order_types_xy (ms : modelspace) :
  cleaned (checks ms)
    = map flatten (filter (fun e => negb (is_type "POINT" e)) ms) /\
  map dxftype (cleaned (checks ms))
    = filter (fun t => negb (String.eqb t "POINT")) (map dxftype ms) /\
  (forall e,
     dxftype (flatten e) = dxftype e /\
     get_points (flatten e) = get_points e /\
     dxf_elevation (flatten e) = option_map (fun _ => 0) (dxf_elevation e) /\
     dxf_start (flatten e)
       = option_map (fun s => (px s, py s, 0)) (dxf_start e) /\
     dxf_end (flatten e)
       = option_map (fun t => (px t, py t, 0)) (dxf_end e)) /\
  (forall c r a b, flatten (ARC c r a b) = ARC c r a b).
Proof.
  split; [apply cleaned_checks |]. split; [| split].
  - rewrite cleaned_checks.
    induction ms as [| e l IH]; [reflexivity |].
    cbn [map filter]. unfold is_type at 1.
    destruct (negb (String.eqb (dxftype e) "POINT")); cbn [map];
      rewrite ?flatten_dxftype, IH; reflexivity.
  - intros e. destruct (flatten_attributes e) as [H1 [H2 [H3 H4]]].
    pose proof (flatten_dxftype e). tauto.
  - reflexivity.
Qed.

Lemma X17_witness :
  cleaned (checks [LINE (1, 2, 3) (4, 5, 6); POINT (7, 8, 9)])
    = map flatten (filter (fun e => negb (is_type "POINT" e))
                          [LINE (1, 2, 3) (4, 5, 6); POINT (7, 8, 9)]) /\
  map dxftype (cleaned (checks [LINE (1, 2, 3) (4, 5, 6); POINT (7, 8, 9)]))
    = filter (fun t => negb (String.eqb t "POINT"))
             (map dxftype [LINE (1, 2, 3) (4, 5, 6); POINT (7, 8, 9)]) /\
  (forall e,
     dxftype (flatten e) = dxftype e /\
     get_points (flatten e) = get_points e /\
     dxf_elevation (flatten e) = option_map (fun _ => 0) (dxf_elevation e) /\
     dxf_start (flatten e)
       = option_map (fun s => (px s, py s, 0)) (dxf_start e) /\
     dxf_end (flatten e)
       = option_map (fun t => (px t, py t, 0)) (dxf_end e)) /\
  (forall c r a b, flatten (ARC c r a b) = ARC c r a b).
Proof.
  exact (X17_sanitizer_keeps_order_types_xy
           [LINE (1, 2, 3) (4, 5, 6); POINT (7, 8, 9)]).
Defined.

(** X18. The sanitizer is idempotent: run on a drawing it has cleaned, it
    leaves the drawing as it is and reports the same histogram. *)
Theorem X18_sanitizer_idempotent (ms : modelspace) :
  cleaned (checks (cleaned (checks ms))) = cleaned (checks ms) /\
  types (checks (cleaned (checks ms))) = types (checks ms).
Proof.
  assert (E : cleaned (checks (cleaned (checks ms))) = cleaned (checks ms)).
  { rewrite (cleaned_checks (cleaned (checks ms))).
    rewrite (cleaned_checks ms).
    rewrite <- filter_map_flatten, map_map.
    rewrite (map_ext _ flatten flatten_idempotent).
    rewrite filter_map_flatten, filter_idempotent. reflexivity. }
  split; [exact E |].
  change (types (checks (cleaned (checks ms))))
    with (histogram (cleaned (checks (cleaned (checks ms))))).
  rewrite E. reflexivity.
Qed.

Lemma X18_witness :
  cleaned (checks (cleaned
     (checks [LINE (1, 2, 3) (4, 5, 6); POINT (7, 8, 9)])))
    = cleaned (checks [LINE (1, 2, 3) (4, 5, 6); POINT (7, 8, 9)]) /\
  types (checks (cleaned
     (checks [LINE (1, 2, 3) (4, 5, 6); POINT (7, 8, 9)])))
    = types (checks [LINE (1, 2, 3) (4, 5, 6); POINT (7, 8, 9)]).
Proof.
  exact (X18_sanitizer_idempotent
           [LINE (1, 2, 3) (4, 5, 6); POINT (7, 8, 9)]).
Defined.

(** ** The driver on a whole drawing *)

Lemma delete_entity_skip (pre tl : modelspace) (e : entity) :
  is_contour e = true -> Forall (fun x => is_contour x = false) pre ->
  delete_entity (pre ++ e :: tl) e = pre ++ tl.
Proof.
  intros He Hpre. induction Hpre as [| x l Hx Hl IH]; cbn [app delete_entity].
  - destruct (entity_eq_dec e e); [reflexivity | congruence].
  - destruct (entity_eq_dec x e) as [-> | _]; [congruence | now rewrite IH].
Qed.

Lemma emitted_not_contour (out : modelspace) :
  Forall emitted out -> Forall (fun x => is_contour x = false) out.
Proof.
  intros H. eapply Forall_impl; [| exact H].
  intros e He. destruct e; cbn [emitted] in He; try contradiction; reflexivity.
Qed.

Lemma rebuild_all_step (radius : R) (skip : bool) (c : entity)
    (rest : list entity) (pre tl : modelspace) (nb : nat) :
  is_contour c = true -> Forall (fun x => is_contour x = false) pre ->
  rebuild_all radius skip (c :: rest) (pre ++ c :: tl) nb =
  (o <- rebuild radius skip (get_points c) [] 0%nat ;;
   rebuild_all radius skip rest (pre ++ tl ++ fst o) (nb + snd o)%nat).
Proof.
  intros Hc Hpre. cbn [rebuild_all]. rewrite rebuild_onto.
  destruct (rebuild radius skip (get_points c) [] 0%nat) as [[out k] |];
    cbn [bind fst snd]; [| reflexivity].
  rewrite <- app_assoc. cbn [app].
  rewrite delete_entity_skip by assumption. reflexivity.
Qed.

Lemma rebuild_all_spec (radius : R) (skip : bool) (rest : modelspace) :
  forall (pre acc : modelspace) (nb : nat) (res : modelspace * nat),
  Forall (fun x => is_contour x = false) pre ->
  rebuild_all radius skip (filter is_contour rest) (pre ++ rest ++ acc) nb
    = Ok res <->
  exists outs,
    Forall2 (rebuilt radius skip) (filter is_contour rest) outs /\
    res = (pre ++ others rest ++ acc ++ concat (map fst outs),
           (nb + list_sum (map snd outs))%nat).
Proof.
  induction rest as [| e rest IH]; intros pre acc nb res Hpre.
  - cbn [filter rebuild_all others app]. split.
    + intros H. injection H as <-. exists []. split; [constructor |].
      cbn [map concat list_sum fold_right]. now rewrite app_nil_r, Nat.add_0_r.
    + intros [outs [HF ->]]. inversion HF; subst.
      cbn [map concat list_sum fold_right]. now rewrite app_nil_r, Nat.add_0_r.
  - unfold others in *. cbn [filter].
    destruct (is_contour e) eqn:He; cbn [negb].
    + cbn [app]. rewrite (rebuild_all_step radius skip e _ pre _ nb He Hpre).
      destruct (rebuild radius skip (get_points e) [] 0%nat)
        as [[out k] | ex] eqn:Hreb; cbn [bind fst snd].
      * rewrite <- app_assoc. rewrite IH by assumption. split.
        -- intros [outs [HF ->]]. exists ((out, k) :: outs).
           split; [constructor; assumption |].
           cbn [map concat list_sum fold_right fst snd].
           rewrite <- !app_assoc. apply f_equal2; [reflexivity | unfold list_sum; lia].
        -- intros [outs [HF ->]].
           inversion HF as [| c o cs os Ho HF']; subst.
           unfold rebuilt in Ho. rewrite Hreb in Ho. injection Ho as <-.
           exists os. split; [assumption |].
           cbn [map concat list_sum fold_right fst snd].
           rewrite <- !app_assoc. apply f_equal2; [reflexivity | unfold list_sum; lia].
      * split; [discriminate |].
        intros [outs [HF _]]. inversion HF as [| c o cs os Ho HF']; subst.
        unfold rebuilt in Ho. rewrite Hreb in Ho. discriminate Ho.
    + replace (pre ++ (e :: rest) ++ acc) with ((pre ++ [e]) ++ rest ++ acc)
        by (rewrite <- app_assoc; reflexivity).
      rewrite IH by (apply Forall_app; split; [assumption | now constructor]).
      split; intros [outs [HF ->]]; exists outs; (split; [assumption |]);
        rewrite <- app_assoc; reflexivity.
Qed.

Lemma main_spec (ms : modelspace) (radius : R) (skip : bool)
    (rep : report) (n : nat) :
  main ms radius skip = Ok (rep, n) <->
  exists outs,
    Forall2 (rebuilt (Rabs radius) skip) (filter is_contour ms) outs /\
    rep = checks (others ms ++ concat (map fst outs)) /\
    n = list_sum (map snd outs).
Proof.
  unfold main.
  pose proof (fun res => rebuild_all_spec (Rabs radius) skip ms [] [] 0 res
                           (Forall_nil _)) as H.
  cbn [app] in H. rewrite app_nil_r in H.
  destruct (rebuild_all (Rabs radius) skip (filter is_contour ms) ms 0)
    as [res |]; cbn [bind].
  - split.
    + intros E. injection E as <- <-.
      destruct (proj1 (H res) eq_refl) as [outs [HF ->]].
      exists outs. cbn [fst snd]. now repeat split.
    + intros [outs [HF [-> ->]]].
      pose proof (proj2 (H _) (ex_intro _ outs (conj HF eq_refl))) as E.
      injection E as ->. reflexivity.
  - split; [discriminate |]. intros [outs [HF _]].
    discriminate (proj2 (H _) (ex_intro _ outs (conj HF eq_refl))).
Qed.

Lemma cleaned_checks_app (a b : modelspace) :
  cleaned (checks (a ++ b)) = cleaned (checks a) ++ cleaned (checks b).
Proof. now rewrite !cleaned_checks, filter_app, map_app. Qed.

Lemma unexpected_app (a b : modelspace) :
  unexpected (a ++ b) = unexpected a ++ unexpected b.
Proof. unfold unexpected. now rewrite filter_app, map_app. Qed.

Lemma unexpected_emitted (out : modelspace) :
  Forall emitted out -> unexpected out = [].
Proof.
  intros H. induction H as [| e l He Hl IH]; [reflexivity |].
  unfold unexpected in *. cbn [filter].
  destruct e; cbn [emitted] in He; try contradiction; exact IH.
Qed.

Lemma rebuilt_emitted (radius : R) (skip : bool) (cs : list entity)
    (outs : list (modelspace * nat)) :
  Forall2 (rebuilt radius skip) cs outs ->
  Forall emitted (concat (map fst outs)).
Proof.
  intros H. induction H as [| c [out k] cs outs Hc Hcs IH];
    cbn [map concat fst]; [constructor |].
  apply Forall_app. split; [| exact IH].
  apply (rebuild_emitted radius skip (get_points c) [] 0 out k). exact Hc.
Qed.

Lemma rebuilt_counts (radius : R) (skip : bool) (cs : list entity)
    (outs : list (modelspace * nat)) :
  Forall2 (rebuilt radius skip) cs outs ->
  let out := concat (map fst outs) in
  let vertices := list_sum (map (fun c => length (get_points c)) cs) in
  (length cs <= list_sum (map snd outs) <= count_type "LINE" out)%nat /\
  (count_type "LINE" out <= vertices)%nat /\
  (count_type "ARC" out <= vertices)%nat /\
  length out = (count_type "LINE" out + count_type "ARC" out)%nat.
Proof.
  intros H. cbv zeta. unfold list_sum.
  induction H as [| c [out k] cs outs Hc Hcs IH];
    cbn [map concat fst snd length fold_right].
  - change (count_type "LINE" []) with 0%nat.
    change (count_type "ARC" []) with 0%nat. lia.
  - destruct (rebuild_line_count _ _ _ _ _ _ _ Hc)
      as [out' [E [Hk [HL [HA Hlen]]]]].
    cbn [app] in E. subst out'.
    rewrite !count_type_app, length_app. lia.
Qed.

Lemma unexpected_others (ms : modelspace) :
  Forall (fun e => is_contour e = true \/ dxftype e = "LINE"%string
                   \/ dxftype e = "ARC"%string) ms ->
  unexpected (others ms) = [].
Proof.
  intros H. unfold unexpected, others.
  induction H as [| e l He Hl IH]; [reflexivity |]. cbn [filter].
  destruct He as [Hc | [Hn | Hn]].
  - rewrite Hc. cbn [negb]. exact IH.
  - destruct (negb (is_contour e)); [| exact IH].
    cbn [filter]. unfold is_type. rewrite Hn. cbn. exact IH.
  - destruct (negb (is_contour e)); [| exact IH].
    cbn [filter]. unfold is_type. rewrite Hn. cbn. exact IH.
Qed.

(** X19. [main] on a whole drawing.  It returns exactly when the rebuild
    of every contour returns.  The drawing it saves is then the sanitized
    list of the entities that are not contours, in their order, followed
    by the entities that replace the contours, contour after contour, each
    contour rebuilt as on an empty drawing; the number it prints is the
    sum of the lines counted for the contours. *)
Theorem X19_main_replaces_each_contour
    (ms : modelspace) (radius : R) (skip : bool) (rep : report) (n : nat) :
  main ms radius skip = Ok (rep, n) <->
  exists outs : list (modelspace * nat),
    Forall2 (fun c o => rebuild (Rabs radius) skip (get_points c) [] 0%nat
                        = Ok o)
            (filter is_contour ms) outs /\
    rep = checks (others ms ++ concat (map fst outs)) /\
    n = list_sum (map snd outs).
Proof. exact (main_spec ms radius skip rep n). Qed.

Lemma X19_witness :
  main [LWPOLYLINE 0 [(0, 0)]] 5 true
    = Ok (checks [LINE (0, 0, 0) (0, 0, 0)], 1%nat) <->
  exists outs : list (modelspace * nat),
    Forall2 (fun c o => rebuild (Rabs 5) true (get_points c) [] 0%nat = Ok o)
            (filter is_contour [LWPOLYLINE 0 [(0, 0)]]) outs /\
    checks [LINE (0, 0, 0) (0, 0, 0)]
      = checks (others [LWPOLYLINE 0 [(0, 0)]] ++ concat (map fst outs)) /\
    1%nat = list_sum (map snd outs).
Proof.
  exact (X19_main_replaces_each_contour [LWPOLYLINE 0 [(0, 0)]] 5 true
           (checks [LINE (0, 0, 0) (0, 0, 0)]) 1).
Defined.

(** X20. What the saved drawing holds when [main] returns: the entities
    of the input that are not contours, sanitized and in their order,
    then arcs and lines in the plane z = 0; no contour is left; and the
    warnings are those of the entities of the input that are neither
    contour, LINE nor ARC, so that a drawing made of contours, lines and
    arcs gives no warning. *)
Theorem X20_main_saved_drawing
    (ms : modelspace) (radius : R) (skip : bool) (rep : report) (n : nat) :
  main ms radius skip = Ok (rep, n) ->
  (exists out,
     cleaned rep = cleaned (checks (others ms)) ++ out /\
     Forall emitted out) /\
  Forall (fun e => is_contour e = false) (cleaned rep) /\
  warnings rep = unexpected (others ms) /\
  (Forall (fun e => is_contour e = true \/ dxftype e = "LINE"%string
                    \/ dxftype e = "ARC"%string) ms ->
   warnings rep = []).
Proof.
  intros H. apply main_spec in H. destruct H as [outs [HF [-> ->]]].
  pose proof (rebuilt_emitted _ _ _ _ HF) as Hout.
  assert (Hc : cleaned (checks (others ms ++ concat (map fst outs)))
               = cleaned (checks (others ms)) ++ concat (map fst outs)).
  { rewrite cleaned_checks_app. f_equal. now apply checks_emitted. }
  assert (Hw : warnings (checks (others ms ++ concat (map fst outs)))
               = unexpected (others ms)).
  { change (warnings (checks (others ms ++ concat (map fst outs))))
      with (unexpected (others ms ++ concat (map fst outs))).
    rewrite unexpected_app, (unexpected_emitted _ Hout). apply app_nil_r. }
  split; [exists (concat (map fst outs)); now split |].
  split; [| split; [exact Hw |]].
  - rewrite Hc. apply Forall_app. split; [| now apply emitted_not_contour].
    rewrite cleaned_checks. apply Forall_forall. intros e He.
    apply in_map_iff in He. destruct He as [e0 [<- He0]].
    apply filter_In in He0. destruct He0 as [He0 _].
    unfold others in He0. apply filter_In in He0. destruct He0 as [_ Hn].
    destruct e0; cbn in Hn; try discriminate Hn; try reflexivity.
    destruct elevation, start, end_; reflexivity.
  - intros Hall. rewrite Hw. now apply unexpected_others.
Qed.

Lemma main_single_point :
  main [LWPOLYLINE 0 [(0, 0)]] 5 true
    = Ok (checks [LINE (0, 0, 0) (0, 0, 0)], 1%nat).
Proof.
  apply main_single. apply rebuild_single_point. apply Rabs_pos.
Qed.

Lemma X20_witness :
  main [LWPOLYLINE 0 [(0, 0)]] 5 true
    = Ok (checks [LINE (0, 0, 0) (0, 0, 0)], 1%nat) /\
  (exists out,
     cleaned (checks [LINE (0, 0, 0) (0, 0, 0)])
       = cleaned (checks (others [LWPOLYLINE 0 [(0, 0)]])) ++ out /\
     Forall emitted out) /\
  Forall (fun e => is_contour e = false)
         (cleaned (checks [LINE (0, 0, 0) (0, 0, 0)])) /\
  warnings (checks [LINE (0, 0, 0) (0, 0, 0)])
    = unexpected (others [LWPOLYLINE 0 [(0, 0)]]) /\
  (Forall (fun e => is_contour e = true \/ dxftype e = "LINE"%string
                    \/ dxftype e = "ARC"%string) [LWPOLYLINE 0 [(0, 0)]] ->
   warnings (checks [LINE (0, 0, 0) (0, 0, 0)]) = []).
Proof.
  split; [exact main_single_point |].
  exact (X20_main_saved_drawing [LWPOLYLINE 0 [(0, 0)]] 5 true _ _
           main_single_point).
Defined.

(** X21. The number of lines that [main] prints.  When [main] returns,
    the entities that replace the contours are arcs and lines only, at
    most one arc and one line per vertex read; the number printed is at
    least the number of contours and at most the number of lines added.
    (It can be less: the line added at a sharp vertex is not counted.) *)
Theorem X21_main_line_count
    (ms : modelspace) (radius : R) (skip : bool) (rep : report) (n : nat) :
  main ms radius skip = Ok (rep, n) ->
  exists out,
    cleaned rep = cleaned (checks (others ms)) ++ out /\
    (length (filter is_contour ms) <= n <= count_type "LINE" out)%nat /\
    (count_type "LINE" out
       <= list_sum (map (fun c => length (get_points c))
                        (filter is_contour ms)))%nat /\
    (count_type "ARC" out
       <= list_sum (map (fun c => length (get_points c))
                        (filter is_contour ms)))%nat /\
    length out = (count_type "LINE" out + count_type "ARC" out)%nat.
Proof.
  intros H. apply main_spec in H. destruct H as [outs [HF [-> ->]]].
  pose proof (rebuilt_emitted _ _ _ _ HF) as Hout.
  exists (concat (map fst outs)). split.
  - rewrite cleaned_checks_app. f_equal. now apply checks_emitted.
  - exact (rebuilt_counts _ _ _ _ HF).
Qed.

Lemma X21_witness :
  main [LWPOLYLINE 0 [(0, 0)]] 5 true
    = Ok (checks [LINE (0, 0, 0) (0, 0, 0)], 1%nat) /\
  exists out,
    cleaned (checks [LINE (0, 0, 0) (0, 0, 0)])
      = cleaned (checks (others [LWPOLYLINE 0%R [(0, 0)%R]])) ++ out /\
    (length (filter is_contour [LWPOLYLINE 0%R [(0, 0)%R]]) <= 1
       <= count_type "LINE" out)%nat /\
    (count_type "LINE" out
       <= list_sum (map (fun c => length (get_points c))
                        (filter is_contour [LWPOLYLINE 0%R [(0, 0)%R]])))%nat /\
    (count_type "ARC" out
       <= list_sum (map (fun c => length (get_points c))
                        (filter is_contour [LWPOLYLINE 0%R [(0, 0)%R]])))%nat /\
    length out = (count_type "LINE" out + count_type "ARC" out)%nat.
Proof.
  split; [exact main_single_point |].
  exact (X21_main_line_count [LWPOLYLINE 0 [(0, 0)]] 5 true _ _
           main_single_point).
Defined.
